(** * Data-loading core of the detection toolkit: folds, sampler, patches,
      padding and bounding boxes (utils/dataloader_utils.py)

    Shallow embedding of the five algorithms of [utils/dataloader_utils.py]
    and the properties the specification states about them. *)

From Stdlib Require Import ZArith QArith Qround List Lia Bool Arith Permutation.
From Stdlib Require String.
Import String.StringSyntax.
Import ListNotations.
Close Scope Q_scope.
Delimit Scope string_scope with string.
Bind Scope string_scope with String.string.

Set Implicit Arguments.
Set Warnings "-register-all".

(** ** Python results *)

(** The exceptions the modelled code can raise. *)
Inductive exn : Type :=
| ZeroDivisionError
| IndexError
| KeyError
| TypeError
| ValueError
| AssertionError.

Inductive result (A : Type) : Type :=
| Ok (a : A)
| Raise (e : exn).

Arguments Ok {A} a.
Arguments Raise {A} e.

Definition bind {A B : Type} (r : result A) (k : A -> result B) : result B :=
  match r with
  | Ok a => k a
  | Raise e => Raise e
  end.

Notation "x <- r ;; k" := (bind r (fun x => k))
  (at level 61, r at next level, right associativity).
Notation "' p <- r ;; k" := (bind r (fun p => k))
  (at level 61, p pattern, r at next level, right associativity).

Definition is_ok {A : Type} (r : result A) : bool :=
  match r with Ok _ => true | Raise _ => false end.

(** ** Python numbers *)

Module PyNum.

(** [range(lo, hi)] *)
Definition zrange (lo hi : Z) : list Z :=
  map (fun i => (lo + Z.of_nat i)%Z) (seq 0 (Z.to_nat (hi - lo))).

(** [int(x)] and [astype(int)] on a real: truncation towards zero. *)
Definition int_of_Q (x : Q) : Z :=
  if Qle_bool 0 x then Qfloor x else Qceiling x.

(** [np.round]: to the nearest integer, a tie to the even neighbour. *)
Definition round_half_even (x : Q) : Z :=
  let f := Qfloor x in
  match Qcompare (x - inject_Z f) (1 # 2) with
  | Lt => f
  | Gt => (f + 1)%Z
  | Eq => if Z.even f then f else (f + 1)%Z
  end.

End PyNum.

(** ** Python sequence slicing *)

Module PySlice.

(** A slice bound [k] on a sequence of length [n]: negative bounds count from
    the end, and every bound is clamped into [0, n]. *)
Definition bound (n : nat) (k : Z) : nat :=
  if (k <? 0)%Z then Z.to_nat (Z.of_nat n + k) else Nat.min n (Z.to_nat k).

(** [l[:k]] *)
Definition upto {A : Type} (k : Z) (l : list A) : list A :=
  firstn (bound (length l) k) l.

(** [l[k:]] *)
Definition from {A : Type} (k : Z) (l : list A) : list A :=
  skipn (bound (length l) k) l.

(** [l[a:b]] *)
Definition range {A : Type} (a b : Z) (l : list A) : list A :=
  let i := bound (length l) a in
  let j := bound (length l) b in
  firstn (j - i) (skipn i l).

End PySlice.

(** [x[i]] for an index [i >= 0]; past the end it raises [IndexError]. *)
Definition item {A : Type} (x : list A) (i : nat) : result A :=
  match nth_error x i with
  | Some a => Ok a
  | None => Raise IndexError
  end.

(** [a[ixs]] for an integer index list [ixs] (all indices here are
    non-negative); an index past the end raises [IndexError]. *)
Fixpoint take_ix {A : Type} (a : list A) (ixs : list nat) : result (list A) :=
  match ixs with
  | [] => Ok []
  | i :: rest =>
      match nth_error a i with
      | Some x => xs <- take_ix a rest ;; Ok (x :: xs)
      | None => Raise IndexError
      end
  end.

(** ** Cross-validation folds: class [fold_generator] *)

Module FoldGen.

(** [int(np.ceil(a / float(b)))] for [b <> 0]; the float quotient of two
    integers below 2^53 has the exact ceiling. *)
Definition ceil_div (a b : Z) : Z := (- ((- a) / b))%Z.

(** The attributes of a [fold_generator] object.  [slicer], [l] and [md]
    (the attribute [mod]) are written by [init_indices] before
    [get_fold_names] reads them; [slicer = None] and the two attributes not
    yet set at construction are rendered as [0]. *)
Record fold_generator : Type := {
  tr_ix : list nat;
  val_ix : list nat;
  te_ix : list nat;
  slicer : Z;
  missing : Z;
  fold : Z;
  len_data : nat;
  n_splits : Z;
  myseed : Z;
  boost_val : Z;
  l : nat;
  md : Z
}.

(** [fold_generator.__init__] *)
Definition init (seed n_splits : Z) (len_data : nat) : fold_generator :=
  {| tr_ix := []; val_ix := []; te_ix := [];
     slicer := 0; missing := 0; fold := 0;
     len_data := len_data; n_splits := n_splits; myseed := seed;
     boost_val := 0; l := 0; md := 0 |}.

(** [fold_generator.init_indices] *)
Definition init_indices (g : fold_generator) : result fold_generator :=
  let t := seq 0 g.(l) in
  if (g.(n_splits) =? 0)%Z then Raise ZeroDivisionError else
  let split_length := ceil_div (Z.of_nat (length t)) g.(n_splits) in
  let md' := (Z.of_nat (length t) mod g.(n_splits))%Z in
  let missing' := if (md' >? 0)%Z then (g.(n_splits) - md')%Z else g.(missing) in
  let te := PySlice.upto split_length t in
  let tr := PySlice.from split_length t in
  let val := PySlice.upto split_length tr in
  let tr := PySlice.from split_length tr in
  Ok {| tr_ix := tr; val_ix := val; te_ix := te;
        slicer := split_length; missing := missing'; fold := g.(fold);
        len_data := g.(len_data); n_splits := g.(n_splits);
        myseed := g.(myseed); boost_val := g.(boost_val);
        l := g.(l); md := md' |}.

(** [fold_generator.new_fold].  [temp] aliases the list [te_ix], which no
    other name holds (the emitted arrays are copies), so the in-place [+=]
    is rendered as a fresh list. *)
Definition new_fold (g : fold_generator) : fold_generator :=
  let slicer' := if (g.(fold) <? g.(missing))%Z then (g.(slicer) - 1)%Z else g.(slicer) in
  let special := ((g.(fold) =? g.(n_splits) - 2)%Z && (g.(md) =? 1)%Z)%bool in
  let temp := if special then g.(te_ix) ++ PySlice.from (-1) g.(val_ix) else g.(te_ix) in
  let val0 := if special then PySlice.upto (-1) g.(val_ix) else g.(val_ix) in
  {| tr_ix := PySlice.from slicer' g.(tr_ix) ++ temp;
     val_ix := PySlice.upto slicer' g.(tr_ix);
     te_ix := val0;
     slicer := g.(slicer); missing := g.(missing); fold := g.(fold);
     len_data := g.(len_data); n_splits := g.(n_splits);
     myseed := g.(myseed); boost_val := g.(boost_val);
     l := g.(l); md := g.(md) |}.

Definition set_fold (f : Z) (g : fold_generator) : fold_generator :=
  {| tr_ix := g.(tr_ix); val_ix := g.(val_ix); te_ix := g.(te_ix);
     slicer := g.(slicer); missing := g.(missing); fold := f;
     len_data := g.(len_data); n_splits := g.(n_splits);
     myseed := g.(myseed); boost_val := g.(boost_val);
     l := g.(l); md := g.(md) |}.

Definition set_l (n : nat) (g : fold_generator) : fold_generator :=
  {| tr_ix := g.(tr_ix); val_ix := g.(val_ix); te_ix := g.(te_ix);
     slicer := g.(slicer); missing := g.(missing); fold := g.(fold);
     len_data := g.(len_data); n_splits := g.(n_splits);
     myseed := g.(myseed); boost_val := g.(boost_val);
     l := n; md := g.(md) |}.

(** One entry of [names_list]: [[train_names, val_names, test_names, fold]]. *)
Record fold_names : Type := {
  train_names : list nat;
  val_names : list nat;
  test_names : list nat;
  fold_ix : Z
}.

Section WithShuffle.

(** [np.random.RandomState(seed).shuffle]: the generator of the numerical
    library, a function of the seed and the array it permutes. *)
Variable shuffle : Z -> list nat -> list nat.

(** The body of [for split in range(self.n_splits)], [k] iterations left. *)
Fixpoint fold_loop (cv_names : list nat) (k : nat) (g : fold_generator)
    (names_list : list fold_names) : result (list fold_names * fold_generator) :=
  match k with
  | O => Ok (names_list, g)
  | S k' =>
      tr <- take_ix cv_names g.(tr_ix) ;;
      va <- take_ix cv_names g.(val_ix) ;;
      te <- take_ix cv_names g.(te_ix) ;;
      let entry := {| train_names := tr; val_names := va; test_names := te;
                      fold_ix := g.(fold) |} in
      let g1 := new_fold g in
      fold_loop cv_names k' (set_fold (g1.(fold) + 1)%Z g1) (names_list ++ [entry])
  end.

(** [fold_generator.get_fold_names]: the list returned and the object as the
    call leaves it. *)
Definition get_fold_names (g : fold_generator)
    : result (list fold_names * fold_generator) :=
  let cv_names := shuffle g.(myseed) (seq 0 g.(len_data)) in
  let g := set_l (length cv_names) g in
  g <- init_indices g ;;
  fold_loop cv_names (Z.to_nat g.(n_splits)) g [].

End WithShuffle.

End FoldGen.


(** *** Reading aids for the fold generator *)

Module FoldSpec.

Import FoldGen.

(** The object after one pass of the loop body: [new_fold] and [fold += 1]. *)
Definition next (g : fold_generator) : fold_generator :=
  set_fold (fold (new_fold g) + 1)%Z (new_fold g).

(** The objects at the start of each of [k] loop passes. *)
Fixpoint run (k : nat) (g : fold_generator) : list fold_generator :=
  match k with
  | O => []
  | S k' => g :: run k' (next g)
  end.

Fixpoint after (k : nat) (g : fold_generator) : fold_generator :=
  match k with
  | O => g
  | S k' => after k' (next g)
  end.

(** The entry the loop appends for the object [g]. *)
Definition entry (cv_names : list nat) (g : fold_generator) : fold_names :=
  let at_ix := map (fun i => nth i cv_names O) in
  {| train_names := at_ix g.(tr_ix); val_names := at_ix g.(val_ix);
     test_names := at_ix g.(te_ix); fold_ix := g.(fold) |}.

(** All three index lists stay below [n]. *)
Definition in_range (n : nat) (g : fold_generator) : Prop :=
  Forall (fun i => i < n) g.(tr_ix) /\
  Forall (fun i => i < n) g.(val_ix) /\
  Forall (fun i => i < n) g.(te_ix).

(** Length of the validation slice cut by [new_fold] at fold [j], for the
    attributes [slicer = s] and [missing = m]. *)
Definition size_at (s m j : Z) : nat :=
  Z.to_nat (if (j <? m)%Z then (s - 1)%Z else s).

(** Total length asked for by [cnt] successive cuts starting at fold [j]. *)
Fixpoint need (s m j : Z) (cnt : nat) : nat :=
  match cnt with
  | O => O
  | S c => size_at s m j + need s m (j + 1)%Z c
  end.

(** The successive cuts of the not yet used indices. *)
Fixpoint chunks (s m j : Z) (cnt : nat) (fresh : list nat) : list (list nat) :=
  match cnt with
  | O => []
  | S c => firstn (size_at s m j) fresh
           :: chunks s m (j + 1)%Z c (skipn (size_at s m j) fresh)
  end.

(** The length of the test subset of fold [j], for [n] splits, remainder
    [r > 0] and slice length [s]: the two initial slices are full, the
    slices cut in the first [n - r] rotations are one shorter, and with
    [r = 1] the last fold gives up one more element. *)
Definition test_len (n r s j : Z) : Z :=
  if (j <? 2)%Z then s
  else if (j <? n - r + 2)%Z then
         (if ((r =? 1) && (j =? n - 1))%bool then s - 2 else s - 1)%Z
       else s.

(** The schedule as the specification words it: the first [n - r] folds
    have a test subset of [s] elements, the later ones of [s - 1]. *)
Definition spec_test_len (n r s j : Z) : Z :=
  if (j <? n - r)%Z then s else (s - 1)%Z.

(** The list a call returns, without the object it leaves behind. *)
Definition names_of (r : result (list fold_names * fold_generator))
    : result (list fold_names) :=
  match r with
  | Ok (names, _) => Ok names
  | Raise e => Raise e
  end.

End FoldSpec.

(** ** Class-balanced sampling: [get_class_balanced_patients] *)

Module Sampler.

Import PyNum.

(** [np.count_nonzero(targets == c)] *)
Definition count_class (targets : list Z) (c : Z) : nat :=
  length (filter (Z.eqb c) targets).

(** [np.argmin]: the first position of a least element. *)
Fixpoint argmin_from (best_ix best : nat) (ix : nat) (xs : list nat) : nat :=
  match xs with
  | [] => best_ix
  | x :: rest =>
      if x <? best then argmin_from ix x (S ix) rest
      else argmin_from best_ix best (S ix) rest
  end.

Definition argmin (xs : list nat) : result nat :=
  match xs with
  | [] => Raise ValueError
  | x :: rest => Ok (argmin_from 0 x 1 rest)
  end.

(** The dictionary [class_targets]: patient identifier to the class labels
    of its regions. *)
Definition class_table : Type := list (nat * list Z).

Fixpoint lookup (tbl : class_table) (pid : nat) : result (list Z) :=
  match tbl with
  | [] => Raise KeyError
  | (k, v) :: rest => if k =? pid then Ok v else lookup rest pid
  end.

(** [[np.count_nonzero(targets == cl) for cl in range(1, num_classes + 1)]] *)
Definition class_histogram (num_classes : Z) (targets : list Z) : list nat :=
  map (count_class targets) (zrange 1 (num_classes + 1)).

Section Scan.

Variable class_targets : class_table.
Variable num_classes : Z.
Variable rarest_class : Z.

(** [ix < int(batch_size * random_ratio)] *)
Variable within_random_ratio : bool.

(** [for cand in not_picked: ...], with the running value of [pick]. *)
Fixpoint scan (cands : list nat) (pick : nat) : result nat :=
  match cands with
  | [] => Ok pick
  | cand :: rest =>
      targets <- lookup class_targets cand ;;
      if 0 <? count_class targets rarest_class then
        let pick := cand in
        a <- argmin (class_histogram num_classes targets) ;;
        let cand_rarest_class := (Z.of_nat a + 1)%Z in
        if (negb (cand_rarest_class =? rarest_class)%Z
            && (0 <? count_class targets rarest_class)
            || within_random_ratio)%bool
        then Ok pick
        else scan rest pick
      else scan rest pick
  end.

End Scan.

Section WithRandom.

(** The process-wide generator behind [np.random]: its state, and the two
    draws the sampler makes from it. *)
Variable rng : Type.
Variable randint : Z -> Z -> rng -> Z * rng.
Variable shuffle : list nat -> rng -> list nat * rng.

Record sampler_state : Type := {
  not_picked : list nat;
  class_counts : list nat;
  rarest_class_now : Z;
  batch_patients : list nat;
  random_state : rng
}.

Variable all_pids : list nat.
Variable class_targets : class_table.
Variable batch_size : Z.
Variable num_classes : Z.
Variable random_ratio : Q.

(** One pass of [for ix in range(batch_size)]. *)
Definition slot (ix : Z) (st : sampler_state) : result sampler_state :=
  let pool := if length st.(not_picked) =? 0 then all_pids else st.(not_picked) in
  let '(pool, r) := shuffle pool st.(random_state) in
  match pool with
  | [] => Raise IndexError
  | first :: _ =>
      let within := (ix <? int_of_Q (inject_Z batch_size * random_ratio))%Z in
      pick <- scan class_targets num_classes st.(rarest_class_now) within pool first ;;
      targets <- lookup class_targets pick ;;
      let counts :=
        map (fun '(n, c) => n + count_class targets c)
            (combine st.(class_counts) (zrange 1 (num_classes + 1))) in
      a <- argmin counts ;;
      Ok {| not_picked := filter (fun p => negb (p =? pick)) pool;
            class_counts := counts;
            rarest_class_now := (Z.of_nat a + 1)%Z;
            batch_patients := st.(batch_patients) ++ [pick];
            random_state := r |}
  end.

Fixpoint slots (ixs : list Z) (st : sampler_state) : result sampler_state :=
  match ixs with
  | [] => Ok st
  | ix :: rest => st' <- slot ix st ;; slots rest st'
  end.

(** [get_class_balanced_patients]: the batch, and the generator state the
    call leaves.  [np.empty] refuses a negative size and [np.random.randint]
    an empty interval. *)
Definition get_class_balanced_patients (r : rng) : result (list nat * rng) :=
  if (batch_size <? 0)%Z then Raise ValueError else
  if (num_classes + 1 <=? 1)%Z then Raise ValueError else
  let '(rarest, r) := randint 1 (num_classes + 1) r in
  st <- slots (zrange 0 batch_size)
          {| not_picked := all_pids;
             class_counts := map (fun _ => 0) (zrange 1 (num_classes + 1));
             rarest_class_now := rarest;
             batch_patients := [];
             random_state := r |} ;;
  Ok (st.(batch_patients), st.(random_state)).

End WithRandom.

End Sampler.

(** *** Reading aids for the sampler *)

Module SamplerSpec.

Import PyNum Sampler.

Section Words.

Variable class_targets : class_table.
Variable num_classes : Z.
Variable rarest_class : Z.
Variable within_random_ratio : bool.

Definition targets_of (pid : nat) : list Z :=
  match lookup class_targets pid with Ok t => t | Raise _ => [] end.

(** The candidate has a region of the rarest class. *)
Definition has_rarest (pid : nat) : bool :=
  0 <? count_class (targets_of pid) rarest_class.

(** The candidate's own rarest class, [None] without classes. *)
Definition own_rarest (pid : nat) : option Z :=
  match argmin (class_histogram num_classes (targets_of pid)) with
  | Ok a => Some (Z.of_nat a + 1)%Z
  | Raise _ => None
  end.

Definition differs (pid : nat) : bool :=
  match own_rarest pid with
  | Some c => negb (c =? rarest_class)%Z
  | None => false
  end.

Definition or_else (o : option nat) (d : nat) : nat :=
  match o with Some x => x | None => d end.

(** The scan as the code performs it: inside the random ratio the first
    candidate with the rarest class; past it the first such candidate whose
    own rarest class differs, else the last candidate with the rarest
    class; the default when no candidate has the rarest class. *)
Definition code_pick (cands : list nat) (default : nat) : nat :=
  if within_random_ratio then or_else (find has_rarest cands) default
  else
    or_else (find (fun p => has_rarest p && differs p)%bool cands)
      (or_else (find has_rarest (rev cands)) default).

(** The scan as the specification words it: the first candidate with the
    rarest class, unless its own rarest class is the global one and the
    batch is inside the random ratio; then the first candidate with the
    rarest class whose own rarest class differs, else the first found. *)
Definition spec_pick (cands : list nat) (default : nat) : nat :=
  match find has_rarest cands with
  | None => default
  | Some c =>
      if (negb (differs c) && within_random_ratio)%bool
      then or_else (find (fun p => has_rarest p && differs p)%bool cands) c
      else c
  end.

End Words.

End SamplerSpec.

(** ** Patch grid: [get_patch_crop_coords] *)

Module PatchGrid.

Import PyNum.

(** The crop bounds of one axis: the body of [for dim in range(...)].
    The float quotients, products and sums are computed on exact
    rationals. *)
Definition axis_crop_coords (shape patch : Z) (min_overlap : Q)
    : result (list (Q * Q)) :=
  if (patch =? 0)%Z then Raise ZeroDivisionError else
  let n_patches := Qceiling (inject_Z shape / inject_Z patch) in
  if (n_patches =? 1)%Z then Ok [(inject_Z 0, inject_Z shape)] else
  let center_dists := (inject_Z (shape - patch) / inject_Z (n_patches - 1))%Q in
  r <- (if Qlt_le_dec (inject_Z patch - center_dists) min_overlap
        then
          let n_patches := (n_patches + 1)%Z in
          if (n_patches - 1 =? 0)%Z then Raise ZeroDivisionError
          else Ok (n_patches, (inject_Z (shape - patch) / inject_Z (n_patches - 1))%Q)
        else Ok (n_patches, center_dists)) ;;
  let '(n_patches, center_dists) := r in
  let half := (inject_Z patch / inject_Z 2)%Q in
  let patch_centers :=
    map (fun ii => inject_Z (round_half_even (half + center_dists * inject_Z ii)))
        (zrange 0 n_patches) in
  Ok (map (fun center => (center - half, center + half)%Q) patch_centers).

Fixpoint all_axes (shape patch_size : list Z) (dim : nat) (min_overlap : Q)
    : result (list (list (Q * Q))) :=
  match shape with
  | [] => Ok []
  | sh :: rest =>
      p <- item patch_size dim ;;
      c <- axis_crop_coords sh p min_overlap ;;
      cs <- all_axes rest patch_size (S dim) min_overlap ;;
      Ok (c :: cs)
  end.

(** A [for] loop whose body appends a list of records or raises. *)
Fixpoint for_each {A B : Type} (x : list A) (body : A -> result (list B))
    : result (list B) :=
  match x with
  | [] => Ok []
  | a :: rest =>
      bs <- body a ;;
      cs <- for_each rest body ;;
      Ok (bs ++ cs)
  end.

(** [get_patch_crop_coords]; [shape] is [img.shape]. *)
Definition get_patch_crop_coords (shape patch_size : list Z) (min_overlap : Q)
    : result (list (list Z)) :=
  crop_coords <- all_axes shape patch_size 0 min_overlap ;;
  ys <- item crop_coords 0 ;;
  coords_mesh_grid <-
    for_each ys (fun '(ymin, ymax) =>
      xs <- item crop_coords 1 ;;
      for_each xs (fun '(xmin, xmax) =>
        if length crop_coords =? 3 then
          p2 <- item patch_size 2 ;;
          if (p2 >? 1)%Z then
            zs <- item crop_coords 2 ;;
            for_each zs (fun '(zmin, zmax) =>
              Ok [[ymin; ymax; xmin; xmax; zmin; zmax]])
          else if (p2 =? 1)%Z then
            s2 <- item shape 2 ;;
            for_each (zrange 0 s2) (fun zmin =>
              Ok [[ymin; ymax; xmin; xmax; inject_Z zmin; inject_Z (zmin + 1)]])
          else Ok [[ymin; ymax; xmin; xmax]]
        else Ok [[ymin; ymax; xmin; xmax]])) ;;
  Ok (map (map int_of_Q) coords_mesh_grid).

End PatchGrid.

(** ** N-dimensional arrays *)

Module NdArray.

(** An [n]-dimensional array as [n] levels of nested sequences, outermost
    axis first.  Arrays of the numerical library are rectangular
    ([has_shape]). *)
Fixpoint ndarray (A : Type) (n : nat) : Type :=
  match n with
  | O => A
  | S n' => list (ndarray A n')
  end.

(** [a.shape], read off the first element along every axis (an empty axis
    leaves the lengths of the inner axes at 0). *)
Fixpoint shape {A : Type} (n : nat) : ndarray A n -> list nat :=
  match n with
  | O => fun _ => []
  | S n' => fun x =>
      length x :: match x with
                  | [] => repeat O n'
                  | y :: _ => shape n' y
                  end
  end.

Fixpoint has_shape {A : Type} (n : nat) (sh : list nat) : ndarray A n -> Prop :=
  match n with
  | O => fun _ => sh = []
  | S n' => fun x =>
      match sh with
      | [] => False
      | k :: rest => length x = k /\ Forall (has_shape n' rest) x
      end
  end.

(** Mapping a function that may raise over a sequence, left to right. *)
Fixpoint mapM {A B : Type} (f : A -> result B) (x : list A) : result (list B) :=
  match x with
  | [] => Ok []
  | a :: rest =>
      b <- f a ;;
      bs <- mapM f rest ;;
      Ok (b :: bs)
  end.

(** One axis of [np.pad(..., mode="edge")]: the first and the last element
    repeated; an empty axis cannot be extended. *)
Definition pad_axis {B : Type} (before after : nat) (x : list B) : result (list B) :=
  match x with
  | [] => if before + after =? 0 then Ok [] else Raise ValueError
  | first :: _ => Ok (repeat first before ++ x ++ repeat (last x first) after)
  end.

(** [np.pad(x, pad_width, "edge")] with one [(before, after)] pair per
    axis. *)
Fixpoint np_pad_edge {A : Type} (n : nat) (pad_width : list (Z * Z))
    : ndarray A n -> result (ndarray A n) :=
  match n with
  | O => fun x =>
      match pad_width with
      | [] => Ok x
      | _ :: _ => Raise ValueError
      end
  | S n' => fun x =>
      match pad_width with
      | [] => Raise ValueError
      | (before, after) :: rest =>
          if ((before <? 0)%Z || (after <? 0)%Z)%bool then Raise ValueError
          else
            x' <- mapM (np_pad_edge n' rest) x ;;
            pad_axis (Z.to_nat before) (Z.to_nat after) x'
      end
  end.

(** [x[slice(a0, b0), slice(a1, b1), ...]]: the slicer read as a tuple of
    slices, one per leading axis. *)
Fixpoint index_slices {A : Type} (n : nat) (slicer : list (Z * Z))
    : ndarray A n -> result (ndarray A n) :=
  match n with
  | O => fun x =>
      match slicer with
      | [] => Ok x
      | _ :: _ => Raise IndexError
      end
  | S n' => fun x =>
      match slicer with
      | [] => Ok x
      | (a, b) :: rest => mapM (index_slices n' rest) (PySlice.range a b x)
      end
  end.

End NdArray.

(** ** Padding: [pad_nd_image] *)

Module Padder.

Import NdArray.

(** The argument [shape_must_be_divisible_by]: [None], a number, or a
    sequence. *)
Inductive divisor : Type :=
| DivNone
| DivScalar (k : Z)
| DivList (ks : list Z).

(** [%] on array integers: a zero divisor gives zero. *)
Definition np_mod (a b : Z) : Z := if (b =? 0)%Z then 0%Z else (a mod b)%Z.

(** [a - b] on one-dimensional arrays, with broadcasting of a length-one
    operand. *)
Definition np_sub (a b : list Z) : result (list Z) :=
  if length a =? length b then Ok (map (fun '(x, y) => (x - y)%Z) (combine a b))
  else match a, b with
       | [x], _ => Ok (map (fun y => (x - y)%Z) b)
       | _, [y] => Ok (map (fun x => (x - y)%Z) a)
       | _, _ => Raise ValueError
       end.

(** [pad_nd_image(image, new_shape, "edge", None, return_slicer,
    shape_must_be_divisible_by)]: the padded array and, when asked for, the
    [(start, stop)] pairs of the slices that crop it back. *)
Definition pad_nd_image {A : Type} (n : nat) (image : ndarray A n)
    (new_shape : option (list Z)) (return_slicer : bool)
    (shape_must_be_divisible_by : divisor)
    : result (ndarray A n * option (list (Z * Z))) :=
  let image_shape := map Z.of_nat (shape n image) in
  shapes <- match new_shape with
            | Some ns =>
                Ok (ns, PySlice.from (- Z.of_nat (length ns)) image_shape)
            | None =>
                match shape_must_be_divisible_by with
                | DivList ks =>
                    let ns := PySlice.from (- Z.of_nat (length ks)) image_shape in
                    Ok (ns, ns)
                | _ => Raise AssertionError
                end
            end ;;
  let '(new_shape, old_shape) := shapes in
  let num_axes_nopad := (Z.of_nat (length image_shape) - Z.of_nat (length new_shape))%Z in
  new_shape <- mapM (fun i => a <- item new_shape i ;;
                              b <- item old_shape i ;;
                              Ok (Z.max a b))
                    (seq 0 (length new_shape)) ;;
  new_shape <- match shape_must_be_divisible_by with
               | DivNone => Ok new_shape
               | d =>
                   ks <- match d with
                         | DivList ks =>
                             if length ks =? length new_shape then Ok ks
                             else Raise AssertionError
                         | DivScalar k => Ok (repeat k (length new_shape))
                         | DivNone => Ok []
                         end ;;
                   let lowered :=
                     map (fun '(s, k) => if (np_mod s k =? 0)%Z then (s - k)%Z else s)
                         (combine new_shape ks) in
                   Ok (map (fun '(s, k) => (s + k - np_mod s k)%Z)
                           (combine lowered ks))
               end ;;
  difference <- np_sub new_shape old_shape ;;
  let pad_below := map (fun d => (d / 2)%Z) difference in
  let pad_above := map (fun d => (d / 2 + d mod 2)%Z) difference in
  let pad_list := repeat (0%Z, 0%Z) (Z.to_nat num_axes_nopad)
                  ++ combine pad_below pad_above in
  res <- np_pad_edge n pad_list image ;;
  if negb return_slicer then Ok (res, None)
  else
    let res_shape := map Z.of_nat (shape n res) in
    if negb (length res_shape =? length pad_list) then Raise ValueError
    else
      let slicer := map (fun '((below, above), s) => (below, (s - above)%Z))
                        (combine pad_list res_shape) in
      Ok (res, Some slicer).

End Padder.

(** *** Reading aids for the padder *)

Module PadSpec.

(** The shape after padding and the slices that undo it. *)
Definition padded_shape (sh : list nat) (pads : list (Z * Z)) : list nat :=
  map (fun '(k, (b, a)) => Z.to_nat b + k + Z.to_nat a) (combine sh pads).

Definition crop_slices (sh : list nat) (pads : list (Z * Z)) : list (Z * Z) :=
  map (fun '(k, (b, a)) => (b, (b + Z.of_nat k)%Z)) (combine sh pads).

End PadSpec.

(** ** Segmentation to bounding boxes:
       [convert_seg_to_bounding_box_coordinates] *)

Module BBox.

Import PyNum NdArray.

(** The values held under the region-wise keys of [data_dict]: numbers and
    sequences of values. *)
Inductive pyval : Type :=
| VInt (z : Z)
| VList (l : list pyval).

(** A dictionary with string keys. *)
Definition dict (V : Type) : Type := list (String.string * V).

Fixpoint dict_get {V : Type} (d : dict V) (key : String.string) : result V :=
  match d with
  | [] => Raise KeyError
  | (k, v) :: rest => if String.eqb k key then Ok v else dict_get rest key
  end.

Fixpoint dict_set {V : Type} (d : dict V) (key : String.string) (v : V) : dict V :=
  match d with
  | [] => [(key, v)]
  | (k, w) :: rest =>
      if String.eqb k key then (k, v) :: rest else (k, w) :: dict_set rest key v
  end.

Fixpoint dict_pop {V : Type} (d : dict V) (key : String.string) : dict V :=
  match d with
  | [] => []
  | (k, w) :: rest =>
      if String.eqb k key then rest else (k, w) :: dict_pop rest key
  end.

(** [x[i] = v] for [i >= 0]. *)
Fixpoint set_item {A : Type} (x : list A) (i : nat) (v : A) : result (list A) :=
  match x, i with
  | [], _ => Raise IndexError
  | _ :: rest, O => Ok (v :: rest)
  | a :: rest, S i' => rest' <- set_item rest i' v ;; Ok (a :: rest')
  end.

(** [v[i]] on a value. *)
Definition val_item (v : pyval) (i : nat) : result pyval :=
  match v with
  | VList l => item l i
  | VInt _ => Raise TypeError
  end.

(** [data_dict[name][b][rix]] *)
Definition roi_entry (d : dict (list pyval)) (name : String.string) (b rix : nat)
    : result pyval :=
  per_sample <- dict_get d name ;;
  v <- item per_sample b ;;
  val_item v rix.

(** Elementwise maps and row-major traversals of arrays. *)
Fixpoint nd_map {A B : Type} (f : A -> B) (n : nat) : ndarray A n -> ndarray B n :=
  match n with
  | O => fun x => f x
  | S n' => fun x => map (nd_map f n') x
  end.

Fixpoint nd_zip_with {A B C : Type} (f : A -> B -> C) (n : nat)
    : ndarray A n -> ndarray B n -> ndarray C n :=
  match n with
  | O => fun x y => f x y
  | S n' => fun x y => map (fun '(a, b) => nd_zip_with f n' a b) (combine x y)
  end.

Fixpoint flatten {A : Type} (n : nat) : ndarray A n -> list A :=
  match n with
  | O => fun x => [x]
  | S n' => fun x => concat (map (flatten n') x)
  end.

(** [np.argwhere(x != 0)]: the index rows of the non-zero entries. *)
Fixpoint argwhere (n : nat) : ndarray Z n -> list (list Z) :=
  match n with
  | O => fun x => if (x =? 0)%Z then [] else [[]]
  | S n' => fun x =>
      concat (map (fun '(i, sub) => map (cons (Z.of_nat i)) (argwhere n' sub))
                  (combine (seq 0 (length x)) x))
  end.

(** [np.sum(x != 0)]: the number of non-zero entries. *)
Definition count_nonzero (n : nat) (x : ndarray Z n) : nat :=
  length (argwhere n x).

(** [np.min] and [np.max] of a sequence; none for an empty one. *)
Definition np_min (x : list Z) : result Z :=
  match x with
  | [] => Raise ValueError
  | a :: rest => Ok (fold_left Z.min rest a)
  end.

Definition np_max (x : list Z) : result Z :=
  match x with
  | [] => Raise ValueError
  | a :: rest => Ok (fold_left Z.max rest a)
  end.

(** [seg_ixs[:, c]] *)
Definition column (c : nat) (rows : list (list Z)) : result (list Z) :=
  mapM (fun row => item row c) rows.

(** [(seg == ii) * 1] *)
Definition roi_mask (n : nat) (seg : ndarray Z n) (ii : Z) : ndarray Z n :=
  nd_map (fun v => if (v =? ii)%Z then 1%Z else 0%Z) n seg.

(** The box of one region: [coord_list]. *)
Definition coord_list (dim : Z) (seg_ixs : list (list Z)) : result (list Z) :=
  ys <- column 1 seg_ixs ;;
  ymin <- np_min ys ;;
  xs <- column 2 seg_ixs ;;
  xmin <- np_min xs ;;
  ymax <- np_max ys ;;
  xmax <- np_max xs ;;
  let coords := [ymin - 1; xmin - 1; ymax + 1; xmax + 1]%Z in
  if (dim =? 3)%Z then
    zs <- column 3 seg_ixs ;;
    zmin <- np_min zs ;;
    zmax <- np_max zs ;;
    Ok (coords ++ [zmin - 1; zmax + 1]%Z)
  else Ok coords.

Section Convert.

(** [scipy.ndimage.measurements.label]: the labelled array and the number
    of connected components. *)
Variable lb : forall n : nat, ndarray Z n -> ndarray Z n * nat.

(** Number of axes of one sample [seg[b]]: channel, y, x (, z). *)
Variable m : nat.

Variable dim : Z.
Variable roi_item_keys : list String.string.
Variable get_rois_from_seg : bool.
Variable class_specific_seg : bool.

(** What is collected for one sample. *)
Record sample_acc : Type := {
  p_coords_list : list (list Z);
  p_roi_masks_list : list (ndarray Z m);
  p_roi_items_lists : dict (list pyval);
  out_seg_b : ndarray Z m
}.

(** [for name in roi_item_keys: p_roi_items_lists[name].append(...)] *)
Fixpoint append_items (d : dict (list pyval)) (b rix : nat)
    (names : list String.string) (lists : dict (list pyval))
    : result (dict (list pyval)) :=
  match names with
  | [] => Ok lists
  | name :: rest =>
      sofar <- dict_get lists name ;;
      v <- roi_entry d name b rix ;;
      append_items d b rix rest (dict_set lists name (sofar ++ [v]))
  end.

(** The body of [for rix, r in enumerate(rois)]. *)
Definition process_roi (d : dict (list pyval)) (b : nat) (seg_b : ndarray Z m)
    (acc : sample_acc) (rix : nat) (r : ndarray Z m) : result sample_acc :=
  acc <- (if 0 <? count_nonzero m r then
            let seg_ixs := argwhere m r in
            coords <- coord_list dim seg_ixs ;;
            lists <- append_items d b rix roi_item_keys acc.(p_roi_items_lists) ;;
            ct <- roi_entry d "class_targets" b rix ;;
            match ct with
            | VInt c =>
                if (1 <=? c)%Z
                then Ok {| p_coords_list := acc.(p_coords_list) ++ [coords];
                           p_roi_masks_list := acc.(p_roi_masks_list) ++ [r];
                           p_roi_items_lists := lists;
                           out_seg_b := acc.(out_seg_b) |}
                else Raise AssertionError
            | VList _ => Raise TypeError
            end
          else Ok acc) ;;
  if class_specific_seg then
    ct <- roi_entry d "class_targets" b rix ;;
    match ct with
    | VInt c =>
        Ok {| p_coords_list := acc.(p_coords_list);
              p_roi_masks_list := acc.(p_roi_masks_list);
              p_roi_items_lists := acc.(p_roi_items_lists);
              out_seg_b :=
                nd_zip_with (fun o s => if (s =? Z.of_nat rix + 1)%Z then c else o)
                            m acc.(out_seg_b) seg_b |}
    | VList _ => Raise ValueError
    end
  else Ok acc.

Fixpoint process_rois (d : dict (list pyval)) (b : nat) (seg_b : ndarray Z m)
    (acc : sample_acc) (rix : nat) (rois : list (ndarray Z m))
    : result sample_acc :=
  match rois with
  | [] => Ok acc
  | r :: rest =>
      acc <- process_roi d b seg_b acc rix r ;;
      process_rois d b seg_b acc (S rix) rest
  end.

(** What is collected over the batch, with [data_dict] as updated so far. *)
Record batch_acc : Type := {
  data : dict (list pyval);
  bb_target : list (list (list Z));
  roi_masks : list (list (ndarray Z m));
  roi_items : dict (list pyval);
  out_seg : list (ndarray Z m)
}.

Definition empty_lists (names : list String.string) : dict (list pyval) :=
  fold_left (fun d name => dict_set d name []) names [].

(** [for name in roi_item_keys: roi_items[name].append(value name)] *)
Fixpoint append_all (names : list String.string)
    (value : String.string -> result pyval) (lists : dict (list pyval))
    : result (dict (list pyval)) :=
  match names with
  | [] => Ok lists
  | name :: rest =>
      sofar <- dict_get lists name ;;
      v <- value name ;;
      append_all rest value (dict_set lists name (sofar ++ [v]))
  end.

(** The body of [for b in range(data_dict['seg'].shape[0])]. *)
Definition process_sample (st : batch_acc) (b : nat) (seg_b : ndarray Z m)
    : result batch_acc :=
  if 0 <? count_nonzero m seg_b then
    r <- (if get_rois_from_seg then
            let '(_, n_cands) := lb m seg_b in
            cts <- dict_get st.(data) "class_targets" ;;
            ct <- item cts b ;;
            cts' <- set_item cts b (VList (repeat ct n_cands)) ;;
            Ok (Z.of_nat n_cands, dict_set st.(data) "class_targets" cts')
          else
            mx <- np_max (flatten m seg_b) ;;
            Ok (mx, st.(data))) ;;
    let '(n_cands, d) := r in
    let rois := map (roi_mask m seg_b) (zrange 1 (n_cands + 1)) in
    acc <- process_rois d b seg_b
             {| p_coords_list := []; p_roi_masks_list := [];
                p_roi_items_lists := empty_lists roi_item_keys;
                out_seg_b := seg_b |} 0 rois ;;
    let out_b :=
      if class_specific_seg then acc.(out_seg_b)
      else nd_zip_with (fun o s => if (s >? 0)%Z then 1%Z else o)
                       m acc.(out_seg_b) seg_b in
    items <- append_all roi_item_keys
               (fun name => l <- dict_get acc.(p_roi_items_lists) name ;; Ok (VList l))
               st.(roi_items) ;;
    Ok {| data := d;
          bb_target := st.(bb_target) ++ [acc.(p_coords_list)];
          roi_masks := st.(roi_masks) ++ [acc.(p_roi_masks_list)];
          roi_items := items;
          out_seg := st.(out_seg) ++ [out_b] |}
  else
    items <- append_all roi_item_keys (fun _ => Ok (VList [])) st.(roi_items) ;;
    Ok {| data := st.(data);
          bb_target := st.(bb_target) ++ [[]];
          roi_masks := st.(roi_masks) ++ [[nd_map (fun _ => 0%Z) m seg_b]];
          roi_items := items;
          out_seg := st.(out_seg) ++ [seg_b] |}.

Fixpoint process_batch (st : batch_acc) (b : nat) (segs : list (ndarray Z m))
    : result batch_acc :=
  match segs with
  | [] => Ok st
  | seg_b :: rest =>
      st <- process_sample st b seg_b ;;
      process_batch st (S b) rest
  end.

(** The entries of the returned [data_dict] that the function writes; the
    region-wise keys and every untouched key are in [items]. *)
Record converted : Type := {
  new_bb_target : list (list (list Z));
  new_roi_masks : list (list (ndarray Z m));
  new_seg : list (ndarray Z m);
  items : dict (list pyval)
}.

(** [for name in roi_item_keys: data_dict[name] = np.array(roi_items[name])] *)
Fixpoint store_items (names : list String.string) (lists : dict (list pyval))
    (d : dict (list pyval)) : result (dict (list pyval)) :=
  match names with
  | [] => Ok d
  | name :: rest =>
      l <- dict_get lists name ;;
      store_items rest lists (dict_set d name l)
  end.

(** [convert_seg_to_bounding_box_coordinates]: [seg] is [data_dict['seg']]
    as the sequence of its samples, [d] the other entries of [data_dict]. *)
Definition convert_seg_to_bounding_box_coordinates
    (seg : list (ndarray Z m)) (d : dict (list pyval)) : result converted :=
  st <- process_batch
          {| data := d; bb_target := []; roi_masks := [];
             roi_items := empty_lists roi_item_keys; out_seg := [] |} 0 seg ;;
  let d := if get_rois_from_seg then dict_pop st.(data) "class_targets"
           else st.(data) in
  d <- store_items roi_item_keys st.(roi_items) d ;;
  Ok {| new_bb_target := st.(bb_target);
        new_roi_masks := st.(roi_masks);
        new_seg := st.(out_seg);
        items := d |}.

End Convert.

End BBox.

(** *** Reading aids for the box extractor *)

Module BBoxSpec.

Import PyNum NdArray BBox.

Section Words.

Variable lb : forall n : nat, ndarray Z n -> ndarray Z n * nat.
Variable m : nat.
Variable get_rois_from_seg : bool.

(** [n_cands] for a sample with foreground. *)
Definition candidates (seg_b : ndarray Z m) : result Z :=
  if get_rois_from_seg then Ok (Z.of_nat (snd (lb m seg_b)))
  else np_max (flatten m seg_b).

(** The class value the function associates with instance [rix] of sample
    [b]: the sample's single value when the regions are derived from the
    class map, the entry at [rix] otherwise. *)
Definition read_class (d : dict (list pyval)) (b rix : nat) : result pyval :=
  if get_rois_from_seg then
    cts <- dict_get d "class_targets" ;;
    item cts b
  else roi_entry d "class_targets" b rix.

(** A class value of at least 1. *)
Definition good_class (v : pyval) : Prop :=
  exists c : Z, v = VInt c /\ (1 <= c)%Z.

(** Instance [rix] of the sample is among the candidates and has voxels. *)
Definition present (seg_b : ndarray Z m) (rix : nat) : Prop :=
  exists n : Z,
    0 < count_nonzero m seg_b /\
    candidates seg_b = Ok n /\
    (Z.of_nat rix < n)%Z /\
    0 < count_nonzero m (roi_mask m seg_b (Z.of_nat rix + 1)).

End Words.

(** The boxes of a sample are those of its masks, position by position. *)
Definition boxed (dim : Z) (m : nat) (boxes : list (list Z))
    (masks : list (ndarray Z m)) : Prop :=
  forall j box,
    nth_error boxes j = Some box ->
    exists mask,
      nth_error masks j = Some mask /\
      coord_list dim (argwhere m mask) = Ok box.

End BBoxSpec.

(** *** Reading aids for the patch grid *)

Module PatchSpec.

(** The crop [a, b) of an axis of [shape] voxels cut with patches of
    [patch] voxels is in order: it lies inside the axis, holds a voxel, and
    is as wide as the smaller of patch and axis, or one voxel less when the
    patch size is odd. *)
Definition in_order (shape patch a b : Z) : Prop :=
  (0 <= a < b)%Z /\ (b <= shape)%Z /\
  (Z.min shape patch - 1 <= b - a <= Z.min shape patch)%Z /\
  (Z.even patch = true -> b - a = Z.min shape patch)%Z.

End PatchSpec.

(** *** What the sampler's loop keeps *)

Module SamplerInv.

Import Sampler.

Section Kept.

Variable rng : Type.
Variable all_pids : list nat.
Variable num_classes : Z.

(** The pool and the batch hold eligible patients only, and there is one
    running count per class. *)
Definition kept (st : sampler_state rng) : Prop :=
  incl (not_picked st) all_pids /\
  incl (batch_patients st) all_pids /\
  length (class_counts st) = Z.to_nat num_classes.

(** The picks and the patients still to pick make up the eligible ones. *)
Definition unspent (st : sampler_state rng) : Prop :=
  Permutation (batch_patients st ++ not_picked st) all_pids.

End Kept.

End SamplerInv.

(** ** Identifier splits: class [FoldGenerator] *)

Module Splits.

(** [np.array_split(ary, sections)] along the first axis: [len mod n]
    sections of [len / n + 1] elements, then sections of [len / n]; the
    sections are the slices between the running sums of these sizes.  A
    section count below 1 is refused. *)
Fixpoint cut {A : Type} (start : nat) (sizes : list nat) (ary : list A)
    : list (list A) :=
  match sizes with
  | [] => []
  | s :: rest => firstn s (skipn start ary) :: cut (start + s) rest ary
  end.

Definition array_split {A : Type} (ary : list A) (sections : Z)
    : result (list (list A)) :=
  if (sections <=? 0)%Z then Raise ValueError
  else
    let n := Z.to_nat sections in
    let each := length ary / n in
    let extras := length ary mod n in
    Ok (cut 0 (repeat (each + 1) extras ++ repeat each (n - extras)) ary).

(** The attributes of a [FoldGenerator] object; [splits] is set by
    [generate_splits] and holds the parts as they are when that call
    returns.  In the numerical library the parts are views of [ids]: a
    later call, which shuffles [ids] in place, changes what they show. *)
Record FoldGenerator : Type := {
  ids : list nat;
  n_splits : Z;
  seed : Z;
  splits : option (list (list nat))
}.

(** [FoldGenerator.__init__] *)
Definition init (identifiers : list nat) (seed : Z) (n_splits : Z) : FoldGenerator :=
  {| ids := identifiers; n_splits := n_splits; seed := seed; splits := None |}.

Section WithShuffle.

(** [np.random.RandomState(seed).shuffle] *)
Variable shuffle : Z -> list nat -> list nat.

(** [FoldGenerator.generate_splits]: what the call returns or raises, and the
    object as it leaves it ([self.ids] is shuffled in place before the
    split). *)
Definition generate_splits (n_splits_arg : option Z) (g : FoldGenerator)
    : result (list (list nat)) * FoldGenerator :=
  let n := match n_splits_arg with
           | None => g.(n_splits)
           | Some n => n
           end in
  let ids' := shuffle g.(seed) g.(ids) in
  match array_split ids' n with
  | Ok parts =>
      (Ok parts, {| ids := ids'; n_splits := g.(n_splits); seed := g.(seed);
                    splits := Some parts |})
  | Raise e =>
      (Raise e, {| ids := ids'; n_splits := g.(n_splits); seed := g.(seed);
                   splits := g.(splits) |})
  end.

End WithShuffle.

End Splits.

(** *** Steps of the padder *)

Module PadSteps.

Import NdArray Padder.

(** One axis of the rounding to a divisible shape: an extent that is a
    multiple already is first lowered by the divisor, then every extent is
    raised to the next multiple. *)
Definition round_up (s k : Z) : Z :=
  let s := if (np_mod s k =? 0)%Z then (s - k)%Z else s in
  (s + k - np_mod s k)%Z.

(** The last step of [pad_nd_image], from [difference = new_shape -
    old_shape] on, for the final [new_shape]. *)
Definition finish {A : Type} (n : nat) (image : ndarray A n)
    (num_axes_nopad : Z) (new_shape old_shape : list Z) (return_slicer : bool)
    : result (ndarray A n * option (list (Z * Z))) :=
  difference <- np_sub new_shape old_shape ;;
  let pad_below := map (fun d => (d / 2)%Z) difference in
  let pad_above := map (fun d => (d / 2 + d mod 2)%Z) difference in
  let pad_list := repeat (0%Z, 0%Z) (Z.to_nat num_axes_nopad)
                  ++ combine pad_below pad_above in
  res <- np_pad_edge n pad_list image ;;
  if negb return_slicer then Ok (res, None)
  else
    let res_shape := map Z.of_nat (shape n res) in
    if negb (length res_shape =? length pad_list) then Raise ValueError
    else
      let slicer := map (fun '((below, above), s) => (below, (s - above)%Z))
                        (combine pad_list res_shape) in
      Ok (res, Some slicer).

End PadSteps.

(** *** What the box extractor returns per sample *)

Module BBoxOut.

Import PyNum NdArray BBox BBoxSpec.

(** Along index column [c], the rows lie strictly between [lo] and [hi],
    and both [lo + 1] and [hi - 1] occur. *)
Definition spans (c : nat) (rows : list (list Z)) (lo hi : Z) : Prop :=
  (forall row, In row rows ->
     exists v, nth_error row c = Some v /\ (lo < v < hi)%Z) /\
  (exists row, In row rows /\ nth_error row c = Some (lo + 1)%Z) /\
  (exists row, In row rows /\ nth_error row c = Some (hi - 1)%Z).

(** [box] is the tight box around the index rows, one voxel of margin on
    every side: [y1, x1, y2, x2] and, in three dimensions, [z1, z2]. *)
Definition tight_box (dim : Z) (rows : list (list Z)) (box : list Z) : Prop :=
  exists y1 x1 y2 x2 rest,
    box = y1 :: x1 :: y2 :: x2 :: rest /\
    spans 1 rows y1 y2 /\ spans 2 rows x1 x2 /\
    if (dim =? 3)%Z
    then exists z1 z2, rest = [z1; z2] /\ spans 3 rows z1 z2
    else rest = [].

Section PerSample.

Variable lb : forall n : nat, ndarray Z n -> ndarray Z n * nat.
Variable m : nat.
Variable get_rois_from_seg : bool.

(** Positive labels set to 1, everything else kept. *)
Definition binarised (seg_b : ndarray Z m) : ndarray Z m :=
  nd_map (fun s => if (s >? 0)%Z then 1%Z else s) m seg_b.

(** The boxes and masks of one sample: the non-empty candidate masks in
    label order with one box each, or no box and a single all-zero mask for
    a sample without foreground. *)
Definition sample_rois (seg_b : ndarray Z m) (boxes : list (list Z))
    (masks : list (ndarray Z m)) : Prop :=
  if 0 <? count_nonzero m seg_b then
    exists n : Z,
      candidates lb m get_rois_from_seg seg_b = Ok n /\
      masks = filter (fun r => 0 <? count_nonzero m r)
                (map (roi_mask m seg_b) (zrange 1 (n + 1))) /\
      length boxes = length masks
  else boxes = [] /\ masks = [nd_map (fun _ => 0%Z) m seg_b].

End PerSample.

End BBoxOut.

(** ** Retrying wrapper: [IO_safe] (utils/exp_utils.py) *)

Module IOSafe.

Import PyNum.

(** What one call of [func] on the given arguments does: it returns a
    value, raises an [OSError], or raises another exception. *)
Inductive attempt (V E : Type) : Type :=
| Returned (v : V)
| OSError (e : E)
| OtherError (e : E).

Arguments Returned {V E} v.
Arguments OSError {V E} e.
Arguments OtherError {V E} e.

(** What [IO_safe] does: it returns the value of [func], returns [None]
    after leaving the loop, or raises. *)
Inductive outcome (V E : Type) : Type :=
| Value (v : V)
| NoValue
| Raised (e : E).

Arguments Value {V E} v.
Arguments NoValue {V E}.
Arguments Raised {V E} e.

Section Wrapper.

Variables V E W : Type.

(** The wrapped call, acting on the state [W] of everything it can read or
    change. *)
Variable func : W -> attempt V E * W.

Variable _raise : bool.

(** [for _try in range(_tries): ...], with the pairs [(_try + 1, e)] of the
    messages printed so far. *)
Fixpoint attempts (tries : list Z) (w : W) (printed : list (Z * E))
    : outcome V E * W * list (Z * E) :=
  match tries with
  | [] => (NoValue, w, printed)
  | _try :: rest =>
      let '(a, w') := func w in
      match a with
      | Returned v => (Value v, w', printed)
      | OSError e =>
          if _raise then (Raised e, w', printed)
          else attempts rest w' (printed ++ [((_try + 1)%Z, e)])
      | OtherError e => (Raised e, w', printed)
      end
  end.

Definition IO_safe (_tries : Z) (w : W) : outcome V E * W * list (Z * E) :=
  attempts (zrange 0 _tries) w [].

(** The state after [k] calls of [func]. *)
Fixpoint after_calls (k : nat) (w : W) : W :=
  match k with
  | O => w
  | S k' => after_calls k' (snd (func w))
  end.

(** The outcome of a call that does not raise [OSError]. *)
Definition passed_on (a : attempt V E) : outcome V E :=
  match a with
  | Returned v => Value v
  | OSError e => Raised e
  | OtherError e => Raised e
  end.

End Wrapper.

(** The printed pairs for the failures [es] that follow [n] earlier
    attempts: the attempt number, counted from 1, and the error. *)
Definition numbered {E : Type} (n : Z) (es : list E) : list (Z * E) :=
  combine (zrange (n + 1) (n + 1 + Z.of_nat (length es))) es.

End IOSafe.

(** ** Stopwatch of the logger: [CombinedLogger.time] (utils/exp_utils.py) *)

Module Stopwatch.

Import BBox.

Section Clock.

(** Clock readings and spans; their arithmetic is that of the floats of
    [time.time()], left abstract here. *)
Variable T : Type.

(** The integer 0 a fresh record starts with. *)
Variable zero : T.
Variables add sub : T -> T -> T.

(** The successive values of [time.time()]. *)
Variable clock : nat -> T.

(** One entry of [self.times]. *)
Record watch : Type := {
  total : T;
  last : T;
  toggle : bool
}.

(** [self.times], and how many clock readings have been taken. *)
Record logger : Type := {
  times : dict watch;
  reads : nat
}.

(** [CombinedLogger.time(name, toggle)]: the value returned and the logger
    as the call leaves it.  The console messages are not modelled. *)
Definition time (name : String.string) (tg : option bool) (s : logger)
    : result (T * logger) :=
  let have := dict_get s.(times) name in
  let tg := match tg with
            | Some t => t
            | None => match have with
                      | Ok w => negb w.(toggle)
                      | Raise _ => true
                      end
            end in
  if tg then
    let tot := match have with
               | Ok w => w.(total)
               | Raise _ => zero
               end in
    Ok (clock (S s.(reads)),
        {| times := dict_set s.(times) name
                      {| total := tot; last := clock s.(reads); toggle := true |};
           reads := S (S s.(reads)) |})
  else
    w <- have ;;
    let l := sub (clock s.(reads)) w.(last) in
    Ok (l,
        {| times := dict_set s.(times) name
                      {| total := add w.(total) l; last := l; toggle := false |};
           reads := S s.(reads) |}).

(** A sequence of calls [time(name, toggle)], results discarded. *)
Fixpoint calls (ops : list (String.string * option bool)) (s : logger)
    : result logger :=
  match ops with
  | [] => Ok s
  | (name, tg) :: rest => r <- time name tg s ;; calls rest (snd r)
  end.

(** The stopwatch [name] is not running: it is unknown or stopped. *)
Definition idle (s : logger) (name : String.string) : Prop :=
  match dict_get s.(times) name with
  | Ok w => w.(toggle) = false
  | Raise _ => True
  end.

(** The time accumulated under [name] so far. *)
Definition total_so_far (s : logger) (name : String.string) : T :=
  match dict_get s.(times) name with
  | Ok w => w.(total)
  | Raise _ => zero
  end.

End Clock.

End Stopwatch.

(** ** Packed case files: [get_case_identifiers], [unpack_dataset] *)

Module CaseFiles.

(** File names as sequences of characters. *)
Definition name : Type := list Ascii.ascii.

Definition lit (s : String.string) : name := String.list_ascii_of_string s.

(** [s.endswith(suffix)] *)
Definition endswith (s suffix : name) : bool :=
  if list_eq_dec Ascii.ascii_dec
       (PySlice.from (- Z.of_nat (length suffix)) s) suffix
  then length suffix <=? length s
  else false.

(** [get_case_identifiers] on the listing [os.listdir(folder)]. *)
Definition get_case_identifiers (listing : list name) : list name :=
  map (PySlice.upto (-4)) (filter (fun i => endswith i (lit "npz")) listing).

(** The files [unpack_dataset] hands to [convert_to_npy], as names inside
    [folder]. *)
Definition npz_files (listing : list name) : list name :=
  map (fun i => i ++ lit ".npz") (get_case_identifiers listing).

End CaseFiles.

(** ** The patch grid with rounded float operations *)

Module PatchFloat.

Import PyNum PatchGrid.

Section Rounded.

(** The rounding of the float arithmetic: [fl x] is the float that an
    operation with the exact result [x] returns.  The true division of two
    integers and the product, sum and difference of floats are rounded;
    [np.ceil], [np.round], comparisons and the conversion to integers are
    exact on floats.  With [fl x = x] this is [PatchGrid]. *)
Variable fl : Q -> Q.

(** The body of [for dim in range(...)]. *)
Definition axis_crop_coords (shape patch : Z) (min_overlap : Q)
    : result (list (Q * Q)) :=
  if (patch =? 0)%Z then Raise ZeroDivisionError else
  let n_patches := Qceiling (fl (inject_Z shape / inject_Z patch)) in
  if (n_patches =? 1)%Z then Ok [(inject_Z 0, inject_Z shape)] else
  let center_dists := fl (inject_Z (shape - patch) / inject_Z (n_patches - 1))%Q in
  r <- (if Qlt_le_dec (fl (inject_Z patch - center_dists)) min_overlap
        then
          let n_patches := (n_patches + 1)%Z in
          if (n_patches - 1 =? 0)%Z then Raise ZeroDivisionError
          else Ok (n_patches,
                   fl (inject_Z (shape - patch) / inject_Z (n_patches - 1))%Q)
        else Ok (n_patches, center_dists)) ;;
  let '(n_patches, center_dists) := r in
  let half := fl (inject_Z patch / inject_Z 2)%Q in
  let patch_centers :=
    map (fun ii =>
           inject_Z (round_half_even (fl (half + fl (center_dists * inject_Z ii)))))
        (zrange 0 n_patches) in
  Ok (map (fun center => (fl (center - half), fl (center + half))%Q) patch_centers).

Fixpoint all_axes (shape patch_size : list Z) (dim : nat) (min_overlap : Q)
    : result (list (list (Q * Q))) :=
  match shape with
  | [] => Ok []
  | sh :: rest =>
      p <- item patch_size dim ;;
      c <- axis_crop_coords sh p min_overlap ;;
      cs <- all_axes rest patch_size (S dim) min_overlap ;;
      Ok (c :: cs)
  end.

(** [get_patch_crop_coords]; [shape] is [img.shape]. *)
Definition get_patch_crop_coords (shape patch_size : list Z) (min_overlap : Q)
    : result (list (list Z)) :=
  crop_coords <- all_axes shape patch_size 0 min_overlap ;;
  ys <- item crop_coords 0 ;;
  coords_mesh_grid <-
    for_each ys (fun '(ymin, ymax) =>
      xs <- item crop_coords 1 ;;
      for_each xs (fun '(xmin, xmax) =>
        if length crop_coords =? 3 then
          p2 <- item patch_size 2 ;;
          if (p2 >? 1)%Z then
            zs <- item crop_coords 2 ;;
            for_each zs (fun '(zmin, zmax) =>
              Ok [[ymin; ymax; xmin; xmax; zmin; zmax]])
          else if (p2 =? 1)%Z then
            s2 <- item shape 2 ;;
            for_each (zrange 0 s2) (fun zmin =>
              Ok [[ymin; ymax; xmin; xmax; inject_Z zmin; inject_Z (zmin + 1)]])
          else Ok [[ymin; ymax; xmin; xmax]]
        else Ok [[ymin; ymax; xmin; xmax]])) ;;
  Ok (map (map int_of_Q) coords_mesh_grid).

(** What the theorems ask of the rounding, for integers up to [B] and a
    relative error [u]: it respects equality of the numbers and their
    order, returns integers and halves of integers up to [4 B] unchanged,
    and stays within the relative error [u] on numbers between [1 / (4 B)]
    and [4 B].  Round-to-nearest on binary64 floats is such a rounding for
    [u = 2^-53] and every [B <= 2^48]. *)
Definition rounds_within (u : Q) (B : Z) : Prop :=
  (forall x y : Q, x == y -> fl x == fl y)%Q /\
  (forall x y : Q, x <= y -> fl x <= fl y)%Q /\
  (forall z : Z, (Z.abs z <= 4 * B)%Z ->
     fl (inject_Z z / inject_Z 2) == inject_Z z / inject_Z 2)%Q /\
  (forall x : Q, 1 <= 4 * inject_Z B * x -> x <= 4 * inject_Z B ->
     (1 - u) * x <= fl x /\ fl x <= (1 + u) * x)%Q /\
  (0 <= u)%Q /\ (16 * inject_Z B * u < 1)%Q.

End Rounded.

End PatchFloat.

(** * Properties *)

(** ** Slicing and indexing *)

Lemma firstn_min_length (A : Type) (n : nat) (x : list A) :
  firstn (Nat.min (length x) n) x = firstn n x.
Proof.
  destruct (Nat.le_gt_cases n (length x)) as [H | H].
  - now rewrite Nat.min_r.
  - rewrite Nat.min_l by lia. rewrite firstn_all.
    symmetry. apply firstn_all2. lia.
Qed.

Lemma skipn_min_length (A : Type) (n : nat) (x : list A) :
  skipn (Nat.min (length x) n) x = skipn n x.
Proof.
  destruct (Nat.le_gt_cases n (length x)) as [H | H].
  - now rewrite Nat.min_r.
  - rewrite Nat.min_l by lia. rewrite skipn_all.
    symmetry. apply skipn_all2. lia.
Qed.

Lemma upto_nonneg (A : Type) (k : Z) (x : list A) :
  (0 <= k)%Z -> PySlice.upto k x = firstn (Z.to_nat k) x.
Proof.
  intros Hk. unfold PySlice.upto, PySlice.bound.
  destruct (Z.ltb_spec k 0); [lia |]. apply firstn_min_length.
Qed.

Lemma from_nonneg (A : Type) (k : Z) (x : list A) :
  (0 <= k)%Z -> PySlice.from k x = skipn (Z.to_nat k) x.
Proof.
  intros Hk. unfold PySlice.from, PySlice.bound.
  destruct (Z.ltb_spec k 0); [lia |]. apply skipn_min_length.
Qed.

Lemma upto_minus_one (A : Type) (x : list A) :
  PySlice.upto (-1) x = firstn (length x - 1) x.
Proof.
  unfold PySlice.upto, PySlice.bound. simpl.
  f_equal. lia.
Qed.

Lemma from_minus_one (A : Type) (x : list A) :
  PySlice.from (-1) x = skipn (length x - 1) x.
Proof.
  unfold PySlice.from, PySlice.bound. simpl.
  f_equal. lia.
Qed.

Lemma Forall_firstn (A : Type) (P : A -> Prop) (n : nat) (x : list A) :
  Forall P x -> Forall P (firstn n x).
Proof.
  intros H. rewrite <- (firstn_skipn n x) in H.
  now apply Forall_app in H.
Qed.

Lemma Forall_skipn (A : Type) (P : A -> Prop) (n : nat) (x : list A) :
  Forall P x -> Forall P (skipn n x).
Proof.
  intros H. rewrite <- (firstn_skipn n x) in H.
  now apply Forall_app in H.
Qed.

Lemma Forall_upto (A : Type) (P : A -> Prop) (k : Z) (x : list A) :
  Forall P x -> Forall P (PySlice.upto k x).
Proof. apply Forall_firstn. Qed.

Lemma Forall_from (A : Type) (P : A -> Prop) (k : Z) (x : list A) :
  Forall P x -> Forall P (PySlice.from k x).
Proof. apply Forall_skipn. Qed.

Lemma take_ix_in_range (a : list nat) (ixs : list nat) :
  Forall (fun i => i < length a) ixs ->
  take_ix a ixs = Ok (map (fun i => nth i a O) ixs).
Proof.
  induction 1 as [| i rest Hi _ IH]; simpl; [reflexivity |].
  rewrite (nth_error_nth' a O Hi), IH. reflexivity.
Qed.

Lemma map_nth_seq (a : list nat) :
  map (fun i => nth i a O) (seq 0 (length a)) = a.
Proof.
  apply nth_error_ext. intros i.
  rewrite nth_error_map, nth_error_seq.
  destruct (Nat.ltb_spec i (length a)) as [H | H]; simpl.
  - now rewrite (nth_error_nth' a O H).
  - symmetry. now apply nth_error_None.
Qed.

(** ** The fold generator *)

Module FoldFacts.

Import FoldGen FoldSpec.

Lemma in_range_new_fold (n : nat) (g : fold_generator) :
  in_range n g -> in_range n (new_fold g).
Proof.
  intros (Htr & Hval & Hte). unfold in_range, new_fold; simpl.
  repeat split.
  - apply Forall_app; split; [now apply Forall_from |].
    destruct (_ && _)%bool; [| assumption].
    apply Forall_app; split; [assumption | now apply Forall_from].
  - now apply Forall_upto.
  - destruct (_ && _)%bool; [now apply Forall_upto | assumption].
Qed.

Lemma in_range_next (n : nat) (g : fold_generator) :
  in_range n g -> in_range n (next g).
Proof. intros H. apply in_range_new_fold in H. exact H. Qed.

Lemma in_range_init_indices (g g0 : fold_generator) :
  init_indices g = Ok g0 -> in_range g.(l) g0.
Proof.
  unfold init_indices. destruct (n_splits g =? 0)%Z; [discriminate |].
  intros [= <-]. unfold in_range; simpl.
  assert (Hseq : Forall (fun i => i < l g) (seq 0 (l g))).
  { apply Forall_forall. intros i Hi. apply in_seq in Hi. lia. }
  repeat split; repeat (apply Forall_upto || apply Forall_from); exact Hseq.
Qed.

Lemma fold_loop_run (cv : list nat) (k : nat) :
  forall (g : fold_generator) (acc : list fold_names),
    in_range (length cv) g ->
    fold_loop cv k g acc = Ok (acc ++ map (entry cv) (run k g), after k g).
Proof.
  induction k as [| k IH]; intros g acc Hg; simpl.
  - now rewrite app_nil_r.
  - destruct Hg as (Htr & Hval & Hte).
    rewrite (take_ix_in_range _ Htr), (take_ix_in_range _ Hval),
      (take_ix_in_range _ Hte). simpl.
    change (set_fold (fold (new_fold g) + 1)%Z (new_fold g)) with (next g).
    rewrite IH by (apply in_range_next; repeat split; assumption).
    rewrite <- app_assoc. reflexivity.
Qed.

Lemma length_run (k : nat) (g : fold_generator) : length (run k g) = k.
Proof. revert g. induction k; intros g; simpl; [reflexivity | now rewrite IHk]. Qed.

Section Shuffled.

Variable shuffle : Z -> list nat -> list nat.

(** What [get_fold_names] returns on any object with a non-zero split count:
    the entries of the successive rotations of the freshly initialised
    indices. *)
Lemma get_fold_names_run (g : fold_generator) :
  g.(n_splits) <> 0%Z ->
  let cv := shuffle g.(myseed) (seq 0 g.(len_data)) in
  exists g0,
    init_indices (set_l (length cv) g) = Ok g0 /\
    get_fold_names shuffle g
    = Ok (map (entry cv) (run (Z.to_nat g.(n_splits)) g0),
          after (Z.to_nat g.(n_splits)) g0).
Proof.
  intros Hn cv. unfold get_fold_names. fold cv.
  destruct (init_indices (set_l (length cv) g)) as [g0 | e] eqn:Hinit.
  - exists g0. split; [reflexivity |]. simpl.
    assert (Hns : n_splits g0 = n_splits g).
    { unfold init_indices in Hinit. simpl in Hinit.
      destruct (n_splits g =? 0)%Z; [discriminate |].
      now injection Hinit as <-. }
    rewrite Hns. rewrite fold_loop_run; [reflexivity |].
    apply in_range_init_indices in Hinit. exact Hinit.
  - exfalso. unfold init_indices in Hinit. simpl in Hinit.
    destruct (Z.eqb_spec (n_splits g) 0); [contradiction | discriminate].
Qed.

End Shuffled.

Lemma need_pos (s m j : Z) (cnt : nat) :
  (2 <= s)%Z -> 1 <= cnt -> 1 <= need s m j cnt.
Proof.
  intros Hs Hc. destruct cnt as [| c]; [lia |]. simpl.
  unfold size_at. destruct (j <? m)%Z; lia.
Qed.

Lemma te_ix_next (g : fold_generator) :
  te_ix (next g)
  = if ((fold g =? n_splits g - 2)%Z && (md g =? 1)%Z)%bool
    then PySlice.upto (-1) (val_ix g) else val_ix g.
Proof. reflexivity. Qed.

Lemma next_cut (g : fold_generator) (s m : Z) :
  slicer g = s -> missing g = m -> (1 <= s)%Z ->
  val_ix (next g) = firstn (size_at s m (fold g)) (tr_ix g) /\
  tr_ix (next g)
  = skipn (size_at s m (fold g)) (tr_ix g)
    ++ (if ((fold g =? n_splits g - 2)%Z && (md g =? 1)%Z)%bool
        then te_ix g ++ PySlice.from (-1) (val_ix g) else te_ix g).
Proof.
  intros Hs Hm H1. unfold next, new_fold, size_at; simpl.
  rewrite Hs, Hm.
  assert (H0 : (0 <= (if (fold g <? m)%Z then s - 1 else s))%Z)
    by (destruct (fold g <? m)%Z; lia).
  now rewrite (upto_nonneg _ H0), (from_nonneg _ H0).
Qed.

Lemma run_tests (s m : Z) (cnt : nat) :
  forall (g : fold_generator) (done fresh : list nat),
    slicer g = s -> missing g = m -> (1 <= s)%Z ->
    tr_ix g = fresh ++ done ->
    (fold g + Z.of_nat cnt = n_splits g - 2)%Z ->
    length fresh + (if (md g =? 1)%Z then 1 else 0) = need s m (fold g) cnt ->
    (md g = 1%Z ->
     (2 <= s)%Z /\ 1 <= cnt /\ (done <> [] \/ (2 <= cnt /\ te_ix g <> []))) ->
    map te_ix (run (cnt + 2) g)
    = te_ix g :: val_ix g :: chunks s m (fold g) cnt fresh.
Proof.
  induction cnt as [| c IH]; intros g done fresh Hs Hm H1 Htr Hfold Hlen Hmd.
  - change (0 + 2) with 2. cbn [run map]. rewrite te_ix_next.
    destruct (Z.eqb_spec (md g) 1) as [E | E]; [apply Hmd in E; lia |].
    now rewrite andb_false_r.
  - assert (Hnsp : ((fold g =? n_splits g - 2)%Z && (md g =? 1)%Z)%bool = false).
    { destruct (Z.eqb_spec (fold g) (n_splits g - 2)); [lia | reflexivity]. }
    destruct (next_cut g Hs Hm H1) as (Hval & Htr').
    rewrite Hnsp in Htr'. rewrite Htr in Hval, Htr'.
    set (sz := size_at s m (fold g)) in *.
    assert (Hfn : fold (next g) = (fold g + 1)%Z) by reflexivity.
    simpl in Hlen. fold sz in Hlen.
    destruct (Nat.le_gt_cases sz (length fresh)) as [Hfit | Hwrap].
    + (* the cut stays inside the unused indices *)
      rewrite firstn_app in Hval. rewrite skipn_app in Htr'.
      replace (sz - length fresh) with 0 in * by lia.
      cbn [firstn skipn] in Hval, Htr'. rewrite app_nil_r in Hval.
      rewrite <- app_assoc in Htr'.
      change (S c + 2) with (S (c + 2)). cbn [run map].
      rewrite (IH (next g) (done ++ te_ix g) (skipn sz fresh)); try assumption.
      * rewrite te_ix_next, Hnsp, Hval, Hfn. reflexivity.
      * rewrite Hfn. change (n_splits (next g)) with (n_splits g). lia.
      * rewrite Hfn, length_skipn. change (md (next g)) with (md g). lia.
      * change (md (next g)) with (md g). intros E.
        destruct (Hmd E) as (Hs2 & _ & Hd). split; [assumption |].
        rewrite <- Z.eqb_eq in E. rewrite E in Hlen.
        split; [destruct c; [simpl in Hlen; lia | lia] |].
        left. destruct Hd as [Hd | [_ Hd]]; intros Happ;
          apply app_eq_nil in Happ; destruct Happ; contradiction.
    + (* the last cut of the remainder-one case wraps by one index *)
      destruct (Z.eqb_spec (md g) 1) as [E | E]; [| lia].
      destruct (Hmd E) as (Hs2 & _ & Hd).
      assert (c = 0).
      { destruct c as [| c']; [reflexivity |].
        pose proof (@need_pos s m (fold g + 1) (S c') Hs2). lia. }
      subst c. simpl in Hlen.
      destruct Hd as [Hd | [Hd _]]; [| lia].
      destruct done as [| d done']; [contradiction |].
      rewrite firstn_app in Hval.
      replace (sz - length fresh) with 1 in Hval by lia.
      rewrite firstn_all2 in Hval by lia. cbn [firstn] in Hval.
      change (1 + 2) with 3. cbn [run map chunks]. rewrite !te_ix_next.
      change (md (next g)) with (md g).
      change (n_splits (next g)) with (n_splits g).
      rewrite Hfn, E.
      replace (fold g =? n_splits g - 2)%Z with false
        by (symmetry; apply Z.eqb_neq; lia).
      replace (fold g + 1 =? n_splits g - 2)%Z with true
        by (symmetry; apply Z.eqb_eq; lia).
      cbn [andb Z.eqb Pos.eqb]. rewrite upto_minus_one, Hval, length_app. simpl.
      replace (length fresh + 1 - 1) with (length fresh) by lia.
      rewrite firstn_app, firstn_all, Nat.sub_diag. simpl.
      rewrite app_nil_r. fold sz. rewrite firstn_all2 by lia. reflexivity.
Qed.

Lemma chunks_concat (s m : Z) (cnt : nat) :
  forall (j : Z) (fresh : list nat),
    length fresh <= need s m j cnt ->
    concat (chunks s m j cnt fresh) = fresh.
Proof.
  induction cnt as [| c IH]; intros j fresh Hlen; simpl in *.
  - destruct fresh; [reflexivity | simpl in Hlen; lia].
  - rewrite IH by (rewrite length_skipn; lia).
    apply firstn_skipn.
Qed.

Lemma chunks_length (s m : Z) (w : nat) (cnt : nat) :
  w <= 1 -> (w = 1 -> (2 <= s)%Z) ->
  forall (j : Z) (fresh : list nat) (i : nat),
    length fresh + w = need s m j cnt ->
    (w = 1 -> 1 <= cnt) ->
    i < cnt ->
    length (nth i (chunks s m j cnt fresh) [])
    = size_at s m (j + Z.of_nat i)
      - (if ((w =? 1) && (i =? cnt - 1))%bool then 1 else 0).
Proof.
  intros Hw Hs2.
  induction cnt as [| c IH]; intros j fresh i Hlen Hw1 Hi; [lia |].
  simpl in Hlen.
  assert (Hrest : 1 <= c -> w <= need s m (j + 1) c).
  { intros Hc. destruct (Nat.eq_dec w 1) as [E | E]; [| lia].
    pose proof (@need_pos s m (j + 1) c (Hs2 E) Hc). lia. }
  destruct i as [| i']; cbn [chunks nth].
  - rewrite length_firstn, Z.add_0_r.
    replace (S c - 1) with c by lia.
    destruct c as [| c'].
    + simpl in Hlen. destruct (Nat.eqb_spec w 1); simpl; lia.
    + specialize (Hrest ltac:(lia)).
      replace (0 =? S c') with false by reflexivity.
      rewrite andb_false_r. lia.
  - rewrite IH; try lia.
    + replace (j + 1 + Z.of_nat i')%Z with (j + Z.of_nat (S i'))%Z by lia.
      replace (S c - 1) with c by lia.
      destruct c as [| c']; [lia |].
      replace (S c' - 1) with c' by lia. reflexivity.
    + rewrite length_skipn. specialize (Hrest ltac:(lia)). lia.
Qed.

Lemma need_closed (s m : Z) (cnt : nat) :
  (1 <= s)%Z ->
  forall j : Z,
    Z.of_nat (need s m j cnt)
    = (Z.of_nat cnt * s - Z.max 0 (Z.min m (j + Z.of_nat cnt) - j))%Z.
Proof.
  intros Hs. induction cnt as [| c IH]; intros j.
  - simpl. lia.
  - cbn [need]. rewrite Nat2Z.inj_add, IH, Nat2Z.inj_succ, Z.mul_succ_l.
    unfold size_at. destruct (Z.ltb_spec j m); lia.
Qed.

Lemma ceil_div_rem (a b : Z) :
  (0 < b)%Z -> (0 < a mod b)%Z -> ceil_div a b = (a / b + 1)%Z.
Proof.
  intros Hb Hr. unfold ceil_div.
  pose proof (Z.mod_pos_bound a b Hb) as Hbound.
  pose proof (Z.div_mod a b ltac:(lia)) as Hdm.
  assert (E : ((- a) / b = - (a / b + 1))%Z).
  { symmetry. apply Z.div_unique with (r := (b - a mod b)%Z); [lia |].
    lia. }
  rewrite E. lia.
Qed.

Lemma length_test_names_entry (cv : list nat) (g : fold_generator) :
  length (test_names (entry cv g)) = length (te_ix g).
Proof. unfold entry; simpl. apply length_map. Qed.

Lemma concat_tests_entry (cv : list nat) (gs : list fold_generator) :
  concat (map test_names (map (entry cv) gs))
  = map (fun i => nth i cv O) (concat (map te_ix gs)).
Proof.
  induction gs as [| g gs IH]; simpl; [reflexivity |].
  now rewrite map_app, IH.
Qed.

Section Schedule.

Variable shuffle : Z -> list nat -> list nat.
Hypothesis shuffle_perm : forall (seed : Z) (x : list nat), Permutation x (shuffle seed x).

(** C7, as the code has it: with a remainder [r > 0] (and [r >= 2] or at
    least four splits) the call returns [n] folds; folds 0 and 1 have
    [s = ceil (len / n)] test identifiers, the folds cut in the first
    [n - r] rotations have [s - 1] (the last fold [s - 2] when [r = 1]),
    the remaining folds have [s]; the test subsets, in fold order, are
    consecutive pieces of the shuffled identifiers and so partition them. *)
Theorem test_schedule (seed n : Z) (len : nat) :
  let r := (Z.of_nat len mod n)%Z in
  let s := ceil_div (Z.of_nat len) n in
  (1 <= n <= Z.of_nat len)%Z -> (0 < r)%Z -> (2 <= r \/ 4 <= n)%Z ->
  exists names g',
    get_fold_names shuffle (init seed n len) = Ok (names, g') /\
    length names = Z.to_nat n /\
    (forall j f, nth_error names j = Some f ->
                 Z.of_nat (length (test_names f)) = test_len n r s (Z.of_nat j)) /\
    concat (map test_names names) = shuffle seed (seq 0 len) /\
    Permutation (concat (map test_names names)) (seq 0 len).
Proof.
  intros r s Hn Hr Hcase.
  set (cv := shuffle seed (seq 0 len)).
  assert (Hcv : length cv = len).
  { unfold cv. rewrite <- (Permutation_length (shuffle_perm seed (seq 0 len))).
    apply length_seq. }
  destruct (@get_fold_names_run shuffle (init seed n len) ltac:(simpl; lia))
    as (g0 & Hinit & Hrun).
  simpl in Hinit, Hrun. fold cv in Hinit, Hrun. rewrite Hcv in Hinit.
  unfold init_indices in Hinit. simpl in Hinit.
  destruct (Z.eqb_spec n 0) as [? | _]; [lia |].
  rewrite length_seq in Hinit. fold r s in Hinit.
  replace (r >? 0)%Z with true in Hinit by (symmetry; apply Z.gtb_lt; lia).
  pose proof (Z.mod_pos_bound (Z.of_nat len) n ltac:(lia)) as Hrb. fold r in Hrb.
  pose proof (Z.div_mod (Z.of_nat len) n ltac:(lia)) as Hdm. fold r in Hdm.
  set (k := (Z.of_nat len / n)%Z) in *.
  assert (Hs : s = (k + 1)%Z) by (apply ceil_div_rem; lia).
  assert (Hk : (1 <= k)%Z) by nia.
  assert (Hn3 : (3 <= n)%Z) by lia.
  assert (H2s : (2 * s <= Z.of_nat len)%Z) by nia.
  set (t := seq 0 len) in *.
  assert (Ht : length t = len) by apply length_seq.
  rewrite !upto_nonneg, !from_nonneg in Hinit by lia.
  set (sn := Z.to_nat s) in *.
  set (cnt := Z.to_nat n - 2).
  assert (Hcnt : Z.to_nat n = cnt + 2) by (unfold cnt; lia).
  injection Hinit as Hg0.
  assert (Hte : te_ix g0 = firstn sn t) by (now rewrite <- Hg0).
  assert (Hval : val_ix g0 = firstn sn (skipn sn t)) by (now rewrite <- Hg0).
  assert (Htr : tr_ix g0 = skipn sn (skipn sn t) ++ []) by (rewrite <- Hg0, app_nil_r; reflexivity).
  assert (Hfold : fold g0 = 0%Z) by (now rewrite <- Hg0).
  assert (Hmd : md g0 = r) by (now rewrite <- Hg0).
  assert (Hnsp : n_splits g0 = n) by (now rewrite <- Hg0).
  assert (Hsl : slicer g0 = s) by (now rewrite <- Hg0).
  assert (Hmi : missing g0 = (n - r)%Z) by (now rewrite <- Hg0).
  set (fresh := skipn sn (skipn sn t)) in *.
  assert (Hfresh : length fresh = len - 2 * sn).
  { unfold fresh. rewrite !length_skipn, Ht. lia. }
  set (w := if (r =? 1)%Z then 1 else 0).
  assert (Hneed : length fresh + w = need s (n - r) 0 cnt).
  { apply Nat2Z.inj. rewrite need_closed by lia.
    rewrite Nat2Z.inj_add, Hfresh. unfold w, cnt, sn.
    destruct (Z.eqb_spec r 1); nia. }
  assert (Htests : map te_ix (run (cnt + 2) g0)
                   = te_ix g0 :: val_ix g0 :: chunks s (n - r) 0 cnt fresh).
  { replace (chunks s (n - r) 0 cnt fresh)
      with (chunks s (n - r) (fold g0) cnt fresh) by (now rewrite Hfold).
    apply (@run_tests s (n - r) cnt g0 [] fresh Hsl Hmi ltac:(lia) Htr).
    - rewrite Hfold, Hnsp. unfold cnt. lia.
    - rewrite Hfold, Hmd. exact Hneed.
    - rewrite Hmd. intros E. unfold cnt. repeat split; try lia.
      right. split; [lia |]. rewrite Hte. intros Hnil.
      apply (f_equal (@length nat)) in Hnil.
      rewrite length_firstn, Ht in Hnil. simpl in Hnil. lia. }
  rewrite Hcnt in Hrun.
  eexists _, _. split; [exact Hrun |].
  split; [now rewrite length_map, length_run |].
  split; [| split].
  - intros j f Hj.
    rewrite nth_error_map in Hj.
    destruct (nth_error (run (cnt + 2) g0) j) as [gj |] eqn:Hgj; [| discriminate].
    injection Hj as <-. rewrite length_test_names_entry.
    assert (Hjlt : j < cnt + 2).
    { rewrite <- (length_run (cnt + 2) g0). apply nth_error_Some. congruence. }
    assert (Hnth : te_ix gj = nth j (map te_ix (run (cnt + 2) g0)) []).
    { erewrite nth_error_nth; [reflexivity |]. now rewrite nth_error_map, Hgj. }
    rewrite Hnth, Htests. unfold test_len.
    destruct j as [| [| i]]; cbn [nth].
    + rewrite Hte, length_firstn, Ht. simpl. lia.
    + rewrite Hval, length_firstn, length_skipn, Ht.
      replace (Z.of_nat 1 <? 2)%Z with true by reflexivity. lia.
    + rewrite (@chunks_length s (n - r) w cnt) with (j := 0%Z);
        try assumption; try lia;
        try (unfold w, cnt; destruct (Z.eqb_spec r 1); (lia || discriminate)).
      unfold size_at. rewrite Z.add_0_l.
        replace (Z.of_nat (S (S i)) <? 2)%Z with false by (symmetry; apply Z.ltb_ge; lia).
        unfold w, cnt.
        destruct (Z.eqb_spec r 1) as [E | E];
          destruct (Nat.eqb_spec i (Z.to_nat n - 2 - 1));
          destruct (Z.eqb_spec (Z.of_nat (S (S i))) (n - 1));
          destruct (Z.ltb_spec (Z.of_nat i) (n - r));
          destruct (Z.ltb_spec (Z.of_nat (S (S i))) (n - r + 2));
          cbn [andb Nat.eqb]; lia.
  - rewrite concat_tests_entry, Htests. cbn [concat].
    rewrite chunks_concat by lia.
    rewrite Hte, Hval. unfold fresh.
    rewrite (firstn_skipn sn (skipn sn t)), (firstn_skipn sn t).
    unfold t. rewrite <- Hcv. apply map_nth_seq.
  - rewrite concat_tests_entry, Htests. cbn [concat].
    rewrite chunks_concat by lia.
    rewrite Hte, Hval. unfold fresh.
    rewrite (firstn_skipn sn (skipn sn t)), (firstn_skipn sn t).
    unfold t at 1. rewrite <- Hcv at 1. rewrite map_nth_seq.
    symmetry. apply shuffle_perm.
Qed.

End Schedule.

(** C9, as the code has it: the generator validates nothing.  A split count
    of zero stops [init_indices] with a division by zero; every other split
    count, negative ones and ones above the number of identifiers included,
    returns a fold list of [max n_splits 0] entries. *)
Theorem no_config_validation (shuffle : Z -> list nat -> list nat)
    (seed n_splits : Z) (len_data : nat) :
  if (n_splits =? 0)%Z
  then get_fold_names shuffle (init seed n_splits len_data)
       = Raise ZeroDivisionError
  else exists names g',
      get_fold_names shuffle (init seed n_splits len_data) = Ok (names, g') /\
      length names = Z.to_nat n_splits.
Proof.
  destruct (Z.eqb_spec n_splits 0) as [-> | Hn].
  - reflexivity.
  - destruct (get_fold_names_run shuffle (init seed n_splits len_data) Hn)
      as (g0 & _ & Hrun). simpl in Hrun.
    eexists _, _. split; [exact Hrun |].
    now rewrite length_map, length_run.
Qed.

(** C9 as stated fails: a split count above the number of identifiers
    returns normally (three splits of two identifiers give three folds). *)
Lemma config_errors_not_rejected :
  ~ (forall (shuffle : Z -> list nat -> list nat) (seed n_splits : Z)
            (len_data : nat),
        (n_splits <= 0 \/ Z.of_nat len_data < n_splits)%Z ->
        is_ok (get_fold_names shuffle (init seed n_splits len_data)) = false).
Proof.
  intros H.
  specialize (H (fun _ x => x) 0%Z 3%Z 2%nat).
  vm_compute in H. assert (true = false) by (apply H; right; reflexivity).
  discriminate.
Qed.

Lemma test_schedule_witness :
  exists names g',
    get_fold_names (fun _ x => x) (init 0 5 11) = Ok (names, g') /\
    length names = 5 /\
    (forall j f, nth_error names j = Some f ->
                 Z.of_nat (length (test_names f))
                 = test_len 5 (Z.of_nat 11 mod 5) (ceil_div (Z.of_nat 11) 5) (Z.of_nat j)) /\
    concat (map test_names names) = seq 0 11 /\
    Permutation (concat (map test_names names)) (seq 0 11).
Proof.
  apply (@test_schedule (fun _ x => x) (fun _ x => Permutation_refl x) 0%Z 5%Z 11).
  - lia.
  - reflexivity.
  - right. lia.
Defined.

(** C7 as stated fails on five identifiers in three splits: folds 0 and 1
    both have two test identifiers, where the stated schedule gives fold 1
    only one. *)
Lemma stated_schedule_fails :
  ~ (forall (shuffle : Z -> list nat -> list nat) (seed n : Z) (len : nat)
            (names : list fold_names) (g' : fold_generator) (j : nat)
            (f : fold_names),
        (forall (sd : Z) (x : list nat), Permutation x (shuffle sd x)) ->
        (0 < Z.of_nat len mod n)%Z ->
        get_fold_names shuffle (init seed n len) = Ok (names, g') ->
        nth_error names j = Some f ->
        Z.of_nat (length (test_names f))
        = spec_test_len n (Z.of_nat len mod n) (ceil_div (Z.of_nat len) n)
            (Z.of_nat j)).
Proof.
  intros H.
  destruct (get_fold_names (fun _ x => x) (init 0 3 5)) as [[names g'] | e] eqn:E;
    [| discriminate E].
  pose proof (fun f Hf => H (fun _ x => x) 0%Z 3%Z 5 names g' 1 f
                (fun _ x => Permutation_refl x) eq_refl E Hf) as H1.
  vm_compute in E. injection E as <- _.
  specialize (H1 _ eq_refl). vm_compute in H1. discriminate H1.
Qed.

(** A second call on the same object does not repeat the first fold list:
    the fold counter is not reset (seven identifiers, three splits). *)
Lemma second_call_differs :
  ~ (forall (shuffle : Z -> list nat -> list nat) (g g1 g2 : fold_generator)
            (names1 names2 : list fold_names),
        get_fold_names shuffle g = Ok (names1, g1) ->
        get_fold_names shuffle g1 = Ok (names2, g2) ->
        names1 = names2).
Proof.
  intros H.
  destruct (get_fold_names (fun _ x => x) (init 0 3 7)) as [[names1 g1] | e] eqn:E1;
    [| discriminate E1].
  destruct (get_fold_names (fun _ x => x) g1) as [[names2 g2] | e] eqn:E2;
    [| vm_compute in E1; injection E1 as _ <-; discriminate E2].
  pose proof (H _ _ _ _ _ _ E1 E2) as Heq.
  vm_compute in E1. injection E1 as <- <-.
  vm_compute in E2. injection E2 as <- _.
  discriminate Heq.
Qed.

Section Missed.

Variable shuffle : Z -> list nat -> list nat.
Hypothesis shuffle_perm : forall (seed : Z) (x : list nat), Permutation x (shuffle seed x).

(** C1 fails at ten identifiers in three splits: the call returns three folds and
    one identifier is in the test subset of none of them. *)
Theorem test_role_missed (seed : Z) :
  exists names g' id,
    get_fold_names shuffle (init seed 3 10) = Ok (names, g') /\
    In id (seq 0 10) /\
    forall f, In f names -> ~ In id (test_names f).
Proof.
  set (cv := shuffle seed (seq 0 10)).
  pose proof (shuffle_perm seed (seq 0 10)) as Hperm. fold cv in Hperm.
  assert (Hlen : length cv = 10) by (now rewrite <- (Permutation_length Hperm)).
  assert (Hnd : NoDup cv) by (apply (Permutation_NoDup Hperm), seq_NoDup).
  destruct (@get_fold_names_run shuffle (init seed 3 10) ltac:(discriminate))
    as (g0 & Hinit & Hrun).
  cbn [init myseed len_data n_splits] in Hinit, Hrun.
  fold cv in Hinit, Hrun. rewrite Hlen in Hinit.
  vm_compute in Hinit. injection Hinit as <-.
  exists (map (entry cv) (run 3
     {| tr_ix := [8; 9]; val_ix := [4; 5; 6; 7]; te_ix := [0; 1; 2; 3];
        slicer := 4; missing := 2; fold := 0; len_data := 10; n_splits := 3;
        myseed := seed; boost_val := 0; l := 10; md := 1 |})).
  eexists. exists (nth 9 cv 0).
  split; [exact Hrun |]. split.
  - apply (Permutation_in _ (Permutation_sym Hperm)). apply nth_In. lia.
  - do 10 (destruct cv as [| ? cv]; [discriminate Hlen |]).
    destruct cv; [| discriminate Hlen].
    intros f Hf. simpl in Hf.
    repeat match goal with H : NoDup (_ :: _) |- _ => inversion H; clear H; subst end.
    simpl in *.
    destruct Hf as [<- | [<- | [<- | []]]]; simpl; intuition congruence.
Qed.

End Missed.

Lemma test_role_missed_witness :
  exists names g' id,
    get_fold_names (fun _ x => x) (init 7 3 10) = Ok (names, g') /\
    In id (seq 0 10) /\
    forall f, In f names -> ~ In id (test_names f).
Proof.
  apply (@test_role_missed (fun _ x => x) (fun _ x => Permutation_refl x) 7%Z).
Defined.

(** A call on an object whose fold counter, [missing] and [boost_val] are
    as the constructor leaves them returns what a newly constructed object
    returns; no other attribute of the object reaches the result. *)
Lemma first_call_determined (shuffle : Z -> list nat -> list nat)
    (g : fold_generator) :
  fold g = 0%Z -> missing g = 0%Z -> boost_val g = 0%Z ->
  get_fold_names shuffle g
  = get_fold_names shuffle (init (myseed g) (n_splits g) (len_data g)).
Proof.
  intros Hf Hm Hb. unfold get_fold_names, init_indices. simpl.
  rewrite Hf, Hm, Hb. reflexivity.
Qed.

Lemma upto_from (A : Type) (k : Z) (x : list A) :
  PySlice.upto k x ++ PySlice.from k x = x.
Proof. apply firstn_skipn. Qed.

Lemma new_fold_permutation (g : fold_generator) :
  Permutation (tr_ix (new_fold g) ++ val_ix (new_fold g) ++ te_ix (new_fold g))
              (tr_ix g ++ val_ix g ++ te_ix g).
Proof.
  unfold new_fold; cbn [tr_ix val_ix te_ix].
  set (s := if (fold g <? missing g)%Z then (slicer g - 1)%Z else slicer g).
  apply (Permutation_count_occ Nat.eq_dec). intros x.
  rewrite <- (upto_from s (tr_ix g)) at 3.
  destruct (_ && _)%bool.
  - rewrite <- (upto_from (-1) (val_ix g)) at 3.
    rewrite !count_occ_app. lia.
  - rewrite !count_occ_app. lia.
Qed.

Lemma run_permutation (k : nat) :
  forall (g : fold_generator) (ixs : list nat),
    Permutation (tr_ix g ++ val_ix g ++ te_ix g) ixs ->
    Forall (fun h => Permutation (tr_ix h ++ val_ix h ++ te_ix h) ixs) (run k g).
Proof.
  induction k as [| k IH]; intros g ixs Hg; simpl; constructor; [assumption |].
  apply IH. unfold next. cbn [set_fold tr_ix val_ix te_ix].
  etransitivity; [apply new_fold_permutation | assumption].
Qed.

Section Partition.

Variable shuffle : Z -> list nat -> list nat.
Hypothesis shuffle_perm : forall (seed : Z) (x : list nat), Permutation x (shuffle seed x).

(** Within every fold that [get_fold_names] returns, for every split
    count and data length, the train, validation and test subsets together
    hold every identifier exactly once. *)
Theorem fold_is_partition (seed n : Z) (len : nat)
    (names : list fold_names) (g' : fold_generator) (f : fold_names) :
  get_fold_names shuffle (init seed n len) = Ok (names, g') ->
  In f names ->
  Permutation (train_names f ++ val_names f ++ test_names f) (seq 0 len).
Proof.
  intros Hcall Hf.
  destruct (Z.eq_dec n 0) as [-> | Hn]; [discriminate Hcall |].
  destruct (@get_fold_names_run shuffle (init seed n len) Hn)
    as (g0 & Hinit & Hrun).
  cbn [init myseed len_data n_splits] in Hinit, Hrun.
  set (cv := shuffle seed (seq 0 len)) in *.
  rewrite Hrun in Hcall. injection Hcall as <- _.
  apply in_map_iff in Hf. destruct Hf as (h & <- & Hh).
  assert (Hg0 : Permutation (tr_ix g0 ++ val_ix g0 ++ te_ix g0) (seq 0 (length cv))).
  { unfold init_indices in Hinit. cbn [set_l n_splits l init] in Hinit.
    destruct (n =? 0)%Z; [discriminate |]. injection Hinit as <-.
    cbn [tr_ix val_ix te_ix].
    set (s := ceil_div _ _). set (t := seq 0 (length cv)).
    apply (Permutation_count_occ Nat.eq_dec). intros x.
    rewrite <- (upto_from s t) at 4.
    rewrite <- (upto_from s (PySlice.from s t)) at 3.
    rewrite !count_occ_app. lia. }
  pose proof (@run_permutation (Z.to_nat n) g0 _ Hg0) as Hall.
  rewrite Forall_forall in Hall. specialize (Hall h Hh).
  unfold entry; cbn [train_names val_names test_names].
  rewrite <- !map_app.
  etransitivity; [apply Permutation_map; exact Hall |].
  rewrite map_nth_seq. symmetry. apply shuffle_perm.
Qed.

End Partition.

Lemma fold_is_partition_witness :
  Permutation
    (train_names {| train_names := [4]; val_names := [2; 3];
                    test_names := [0; 1]; fold_ix := 0 |}
     ++ val_names {| train_names := [4]; val_names := [2; 3];
                     test_names := [0; 1]; fold_ix := 0 |}
     ++ test_names {| train_names := [4]; val_names := [2; 3];
                      test_names := [0; 1]; fold_ix := 0 |})
    (seq 0 5).
Proof.
  destruct (get_fold_names (fun _ x => x) (init 0 3 5)) as [[names g'] | e] eqn:E;
    [| discriminate E].
  apply (@fold_is_partition (fun _ x => x) (fun _ x => Permutation_refl x)
           0%Z 3%Z 5 names g' _ E).
  vm_compute in E. injection E as <- _. left. reflexivity.
Defined.

End FoldFacts.

(** ** The sampler *)

Module SamplerFacts.

Import PyNum Sampler SamplerSpec.

Lemma zrange_nonempty (lo hi : Z) : (lo < hi)%Z -> zrange lo hi <> [].
Proof.
  intros H. unfold zrange.
  destruct (Z.to_nat (hi - lo)) eqn:E; [lia | discriminate].
Qed.

Lemma argmin_histogram (num_classes : Z) (targets : list Z) :
  (1 <= num_classes)%Z ->
  exists a, argmin (class_histogram num_classes targets) = Ok a.
Proof.
  intros H. unfold class_histogram.
  destruct (zrange 1 (num_classes + 1)) eqn:E.
  - exfalso. revert E. apply zrange_nonempty. lia.
  - simpl. eauto.
Qed.

Lemma find_last (A : Type) (p : A -> bool) (x : list A) (a : A) :
  find p (x ++ [a])
  = match find p x with
    | Some b => Some b
    | None => if p a then Some a else None
    end.
Proof.
  induction x as [| b x IH]; simpl; [reflexivity |].
  destruct (p b); [reflexivity | exact IH].
Qed.

Section ScanFacts.

Variable class_targets : class_table.
Variable num_classes : Z.
Variable rarest_class : Z.
Variable within : bool.
Hypothesis classes : (1 <= num_classes)%Z.

Abbreviation has := (has_rarest class_targets rarest_class).
Abbreviation diff := (differs class_targets num_classes rarest_class).

(** C5, as the code has it: while fewer than [int(batch_size *
    random_ratio)] slots are filled the scan takes the first candidate that
    has the rarest class; afterwards it takes the first such candidate whose
    own rarest class differs from the global one and, when there is none,
    the last candidate that has the rarest class; a pool without the rarest
    class leaves the default pick. *)
Theorem scan_code_pick (cands : list nat) :
  Forall (fun c => is_ok (lookup class_targets c) = true) cands ->
  forall default : nat,
    scan class_targets num_classes rarest_class within cands default
    = Ok (code_pick class_targets num_classes rarest_class within cands default).
Proof.
  induction 1 as [| cand rest Hc _ IH]; intros default.
  - unfold code_pick. simpl. now destruct within.
  - cbn [scan].
    destruct (lookup class_targets cand) as [tg | e] eqn:Hl; [| discriminate Hc].
    cbn [bind].
    assert (Hhas : has cand = (0 <? count_class tg rarest_class)).
    { unfold has_rarest, targets_of. now rewrite Hl. }
    destruct (argmin_histogram tg classes) as (a & Ha).
    assert (Hdiff : diff cand = negb (Z.of_nat a + 1 =? rarest_class)%Z).
    { unfold differs, own_rarest, targets_of. now rewrite Hl, Ha. }
    unfold code_pick. cbn [find rev]. rewrite find_last.
    rewrite Hhas, Hdiff.
    destruct (0 <? count_class tg rarest_class) eqn:Hcnt.
    + rewrite Ha. cbn [bind]. rewrite andb_true_r.
      destruct within.
      * rewrite orb_true_r. reflexivity.
      * rewrite orb_false_r.
        destruct (negb (Z.of_nat a + 1 =? rarest_class)%Z) eqn:Hne;
          cbn [andb or_else]; [reflexivity |].
        rewrite IH. unfold code_pick.
        now destruct (find has (rev rest)).
    + rewrite IH. unfold code_pick. cbn [andb].
      now destruct (find has (rev rest)).
Qed.

End ScanFacts.

Lemma scan_code_pick_witness :
  let tbl := [(1, [1; 2; 2]%Z); (2, [1; 2; 2]%Z)] in
  scan tbl 2 1 false [1; 2] 1 = Ok (code_pick tbl 2 1 false [1; 2] 1).
Proof.
  apply (@scan_code_pick [(1, [1; 2; 2]%Z); (2, [1; 2; 2]%Z)] 2%Z 1%Z false
           ltac:(lia) [1; 2]).
  repeat constructor.
Defined.

(** C5 as stated fails: with no slot inside the random ratio and two
    candidates that both have the rarest class as their own rarest class,
    the scan ends on the last of them, not on the first. *)
Lemma stated_pick_fails :
  ~ (forall (class_targets : class_table) (num_classes rarest_class : Z)
            (within : bool) (cands : list nat) (default : nat),
        (1 <= num_classes)%Z ->
        Forall (fun c => is_ok (lookup class_targets c) = true) cands ->
        scan class_targets num_classes rarest_class within cands default
        = Ok (spec_pick class_targets num_classes rarest_class within cands default)).
Proof.
  intros H.
  specialize (H [(1, [1; 2; 2]%Z); (2, [1; 2; 2]%Z)] 2%Z 1%Z false [1; 2] 1
                ltac:(lia) ltac:(repeat constructor)).
  vm_compute in H. discriminate H.
Qed.

End SamplerFacts.

(** ** The patch grid *)

Module PatchFacts.

Import PyNum PatchGrid.

(** C2 fails at an 8 x 8 image with 4 x 4 patches and a minimum overlap of
    3: each axis gets the bounds [0,4), [2,6), [4,8), so adjacent patches
    share 2 voxels.  It also fails at a 6 x 6 image with 3 x 3 patches and no
    required overlap: each axis gets [0,3) and [2,5), and index 5 is in no
    patch. *)
Theorem patch_grid_misses :
  get_patch_crop_coords [8; 8]%Z [4; 4]%Z (inject_Z 3)
  = Ok [[0; 4; 0; 4]; [0; 4; 2; 6]; [0; 4; 4; 8];
        [2; 6; 0; 4]; [2; 6; 2; 6]; [2; 6; 4; 8];
        [4; 8; 0; 4]; [4; 8; 2; 6]; [4; 8; 4; 8]]%Z
  /\ get_patch_crop_coords [6; 6]%Z [3; 3]%Z (inject_Z 0)
     = Ok [[0; 3; 0; 3]; [0; 3; 2; 5]; [2; 5; 0; 3]; [2; 5; 2; 5]]%Z.
Proof. split; vm_compute; reflexivity. Qed.

End PatchFacts.

(** ** The padder *)

Module PadFacts.

Import NdArray Padder PadSpec.

Lemma mapM_Forall2 (A B : Type) (f : A -> result B) (P : A -> B -> Prop)
    (x : list A) :
  Forall (fun a => exists b, f a = Ok b /\ P a b) x ->
  exists bs, mapM f x = Ok bs /\ Forall2 P x bs.
Proof.
  induction 1 as [| a rest (b & Hb & HP) _ (bs & Hbs & HF)]; simpl.
  - exists []. split; [reflexivity | constructor].
  - exists (b :: bs). rewrite Hb, Hbs. split; [reflexivity | now constructor].
Qed.

Lemma mapM_back (A B : Type) (g : B -> result A) (x : list A) (bs : list B) :
  Forall2 (fun a b => g b = Ok a) x bs -> mapM g bs = Ok x.
Proof.
  induction 1 as [| a b x bs Hab _ IH]; simpl; [reflexivity |].
  now rewrite Hab, IH.
Qed.

Lemma mapM_map (A B C : Type) (f : B -> result C) (h : A -> B) (x : list A) :
  mapM f (map h x) = mapM (fun a => f (h a)) x.
Proof.
  induction x as [| a x IH]; simpl; [reflexivity |]. now rewrite IH.
Qed.

Lemma Forall2_right (A B : Type) (P : A -> B -> Prop) (Q : B -> Prop)
    (x : list A) (y : list B) :
  (forall a b, P a b -> Q b) -> Forall2 P x y -> Forall Q y.
Proof.
  intros HPQ. induction 1; constructor; eauto.
Qed.

Lemma range_middle (B : Type) (pre x post : list B) :
  PySlice.range (Z.of_nat (length pre))
    (Z.of_nat (length pre) + Z.of_nat (length x)) (pre ++ x ++ post) = x.
Proof.
  unfold PySlice.range, PySlice.bound.
  destruct (Z.ltb_spec (Z.of_nat (length pre)) 0); [lia |].
  destruct (Z.ltb_spec (Z.of_nat (length pre) + Z.of_nat (length x)) 0); [lia |].
  rewrite !length_app.
  rewrite !Nat.min_r by lia.
  replace (Z.to_nat (Z.of_nat (length pre))) with (length pre) by lia.
  replace (Z.to_nat (Z.of_nat (length pre) + Z.of_nat (length x)) - length pre)
    with (length x) by lia.
  rewrite skipn_app, skipn_all, Nat.sub_diag. simpl.
  rewrite firstn_app, firstn_all, Nat.sub_diag. simpl.
  apply app_nil_r.
Qed.

Lemma shape_has_shape (A : Type) (n : nat) :
  forall (sh : list nat) (x : ndarray A n),
    has_shape n sh x -> Forall (fun k => 0 < k) sh -> shape n x = sh.
Proof.
  induction n as [| n IH]; intros sh x Hx Hpos; simpl in *.
  - now subst.
  - destruct sh as [| k rest]; [contradiction |].
    destruct Hx as (Hlen & Hall). inversion Hpos as [| ? ? Hk Hrest]; subst.
    destruct x as [| y x']; [simpl in Hk; lia |].
    inversion Hall; subst. f_equal. now apply IH.
Qed.

Lemma pad_edge_spec (A : Type) (n : nat) :
  forall (sh : list nat) (pads : list (Z * Z)) (x : ndarray A n),
    has_shape n sh x ->
    Forall (fun k => 0 < k) sh ->
    length pads = n ->
    Forall (fun p => (0 <= fst p)%Z /\ (0 <= snd p)%Z) pads ->
    exists res,
      np_pad_edge n pads x = Ok res /\
      has_shape n (padded_shape sh pads) res /\
      index_slices n (crop_slices sh pads) res = Ok x.
Proof.
  induction n as [| n IH]; intros sh pads x Hx Hpos Hlen Hnn.
  - destruct pads; [| discriminate]. simpl in *. subst sh.
    exists x. repeat split.
  - destruct pads as [| [b a] prest]; [discriminate |].
    destruct sh as [| k rest]; [contradiction |].
    cbn [has_shape] in Hx. destruct Hx as (Hk & Hall).
    inversion Hpos as [| ? ? Hkpos Hrest]; subst.
    inversion Hnn as [| ? ? (Hb & Ha) Hnn']; subst. simpl in Hb, Ha.
    injection Hlen as Hlen.
    cbn [np_pad_edge].
    destruct (Z.ltb_spec b 0); [lia |]. destruct (Z.ltb_spec a 0); [lia |].
    cbn [orb].
    destruct (@mapM_Forall2 _ _ (np_pad_edge n prest)
                (fun xi ri => has_shape n (padded_shape rest prest) ri /\
                              index_slices n (crop_slices rest prest) ri = Ok xi) x)
      as (x' & Hmap & HF).
    { apply Forall_forall. intros xi Hxi.
      rewrite Forall_forall in Hall.
      destruct (IH rest prest xi (Hall xi Hxi) Hrest Hlen Hnn') as (ri & H1 & H2 & H3).
      exists ri. auto. }
    rewrite Hmap. cbn [bind].
    assert (Hlen' : length x' = length x).
    { symmetry. eapply Forall2_length. exact HF. }
    destruct x' as [| first xs'] eqn:Ex'; [simpl in Hlen'; lia |].
    rewrite <- Ex' in *.
    assert (Hshape' : Forall (has_shape n (padded_shape rest prest)) x').
    { eapply Forall2_right; [| exact HF]. intros xi ri (H2 & _). exact H2. }
    assert (Hpad : pad_axis (Z.to_nat b) (Z.to_nat a) x'
                   = Ok (repeat first (Z.to_nat b) ++ x'
                         ++ repeat (last x' first) (Z.to_nat a))).
    { rewrite Ex'. reflexivity. }
    rewrite Hpad. eexists. split; [reflexivity |]. split.
    + unfold padded_shape. cbn [combine map has_shape]. split.
      * rewrite !length_app, !repeat_length. lia.
      * rewrite !Forall_app. repeat split; try assumption.
        -- apply Forall_forall. intros y Hy. apply repeat_spec in Hy. subst y.
           rewrite Forall_forall in Hshape'. apply Hshape'. rewrite Ex'. now left.
        -- apply Forall_forall. intros y Hy. apply repeat_spec in Hy. subst y.
           rewrite Forall_forall in Hshape'. apply Hshape'.
           rewrite Ex'.
           destruct (exists_last (l := first :: xs') ltac:(discriminate))
             as (l' & z & El).
           rewrite El, last_last. apply in_or_app. right. now left.
    + unfold crop_slices. cbn [combine map index_slices].
      pose proof (range_middle (repeat first (Z.to_nat b)) x'
                    (repeat (last x' first) (Z.to_nat a))) as Hr.
      rewrite repeat_length in Hr.
      replace (Z.of_nat (Z.to_nat b)) with b in Hr by lia.
      rewrite Hlen' in Hr.
      refine (eq_trans (f_equal (mapM _) Hr) _).
      apply mapM_back.
      eapply Forall2_impl; [| exact HF]. intros xi ri (_ & H3). exact H3.
Qed.


Lemma has_shape_length (A : Type) (n : nat) :
  forall (sh : list nat) (x : ndarray A n),
    has_shape n sh x -> Forall (fun k => 0 < k) sh -> length sh = n.
Proof.
  induction n as [| n IH]; intros sh x Hx Hpos; simpl in *.
  - now subst.
  - destruct sh as [| k rest]; [contradiction |]. destruct Hx as (Hk & Hall).
    inversion Hpos; subst.
    destruct x as [| y x']; [simpl in *; lia |].
    inversion Hall; subst. simpl. f_equal. eapply IH; eauto.
Qed.

Lemma mapM_item_max (T old : list Z) :
  length T = length old ->
  mapM (fun i => a <- item T i ;; b <- item old i ;; Ok (Z.max a b))
       (seq 0 (length T))
  = Ok (map (fun '(a, b) => Z.max a b) (combine T old)).
Proof.
  revert old. induction T as [| t T IH]; intros [| o old] Hlen;
    try discriminate; [reflexivity |].
  cbn [length seq mapM]. unfold item at 1 2. cbn [nth_error bind].
  rewrite <- seq_shift, mapM_map.
  injection Hlen as Hlen. specialize (IH old Hlen).
  unfold item in *. cbn [nth_error]. rewrite IH. reflexivity.
Qed.

Lemma combine_app (A B : Type) (x1 x2 : list A) (y1 y2 : list B) :
  length x1 = length y1 ->
  combine (x1 ++ x2) (y1 ++ y2) = combine x1 y1 ++ combine x2 y2.
Proof.
  revert y1. induction x1 as [| a x1 IH]; intros [| b y1] H; try discriminate;
    [reflexivity |].
  simpl. f_equal. apply IH. now injection H.
Qed.

Lemma slicer_crop (sh : list nat) :
  forall pads : list (Z * Z),
    Forall (fun p => (0 <= fst p)%Z /\ (0 <= snd p)%Z) pads ->
    map (fun '((below, above), s) => (below, (s - above)%Z))
        (combine pads (map Z.of_nat (padded_shape sh pads)))
    = crop_slices sh pads.
Proof.
  induction sh as [| k rest IH]; intros [| [b a] prest] Hnn; try reflexivity.
  inversion Hnn as [| ? ? (Hb & Ha) Hnn']; subst. simpl in Hb, Ha.
  unfold padded_shape, crop_slices in *. cbn [combine map].
  rewrite IH by assumption. f_equal. f_equal. lia.
Qed.

Lemma padded_zero (sh : list nat) :
  padded_shape sh (repeat (0%Z, 0%Z) (length sh)) = sh.
Proof.
  induction sh as [| k rest IH]; [reflexivity |].
  unfold padded_shape in *. cbn [length repeat combine map].
  rewrite IH. f_equal. lia.
Qed.

Lemma padded_max (sh : list nat) :
  forall T : list Z,
    length T = length sh ->
    let d := map (fun '(t, o) => (Z.max t o - o)%Z) (combine T (map Z.of_nat sh)) in
    map Z.of_nat
      (padded_shape sh (combine (map (fun d => (d / 2)%Z) d)
                                (map (fun d => (d / 2 + d mod 2)%Z) d)))
    = map (fun '(t, o) => Z.max t o) (combine T (map Z.of_nat sh)).
Proof.
  induction sh as [| k rest IH]; intros [| t T] Hlen; try discriminate;
    [reflexivity |].
  injection Hlen as Hlen. specialize (IH T Hlen).
  cbn zeta in *. unfold padded_shape in *. cbn [combine map].
  rewrite IH. f_equal.
  set (x := (Z.max t (Z.of_nat k) - Z.of_nat k)%Z).
  assert (0 <= x)%Z by lia.
  pose proof (Z.div_mod x 2 ltac:(lia)).
  pose proof (Z.mod_pos_bound x 2 ltac:(lia)).
  assert (0 <= x / 2)%Z by (apply Z.div_pos; lia).
  lia.
Qed.

Lemma pads_nonneg (T old : list Z) :
  let d := map (fun '(t, o) => (Z.max t o - o)%Z) (combine T old) in
  Forall (fun p => (0 <= fst p)%Z /\ (0 <= snd p)%Z)
         (combine (map (fun d => (d / 2)%Z) d)
                  (map (fun d => (d / 2 + d mod 2)%Z) d)).
Proof.
  revert old. induction T as [| t T IH]; intros [| o old]; cbn zeta; simpl;
    try constructor.
  - simpl.
    set (x := (Z.max t o - o)%Z).
    assert (0 <= x)%Z by lia.
    pose proof (Z.mod_pos_bound x 2 ltac:(lia)).
    assert (0 <= x / 2)%Z by (apply Z.div_pos; lia).
    lia.
  - apply IH.
Qed.

Lemma difference_max (T old : list Z) :
  map (fun '(x, y) => (x - y)%Z)
      (combine (map (fun '(a, b) => Z.max a b) (combine T old)) old)
  = map (fun '(t, o) => (Z.max t o - o)%Z) (combine T old).
Proof.
  revert old. induction T as [| t T IH]; intros [| o old]; simpl;
    try reflexivity.
  now rewrite IH.
Qed.


Lemma padded_positive (sh : list nat) (pads : list (Z * Z)) :
  Forall (fun k => 0 < k) sh -> Forall (fun k => 0 < k) (padded_shape sh pads).
Proof.
  revert pads. induction sh as [| k rest IH]; intros pads Hpos.
  - constructor.
  - destruct pads as [| [b a] prest]; [constructor |].
    inversion Hpos; subst. unfold padded_shape in *. cbn [combine map].
    constructor; [lia | now apply IH].
Qed.

Lemma length_padded (sh : list nat) (pads : list (Z * Z)) :
  length sh = length pads -> length (padded_shape sh pads) = length sh.
Proof.
  intros H. unfold padded_shape. rewrite length_map, length_combine. lia.
Qed.

(** C3: on a rectangular image without empty axes and a target shape for
    some of its trailing axes, [pad_nd_image(image, new_shape=T,
    return_slicer=True)] returns an array and a slicer; indexing the array
    with the slicer gives the image back, and the trailing axes of the
    array have the lengths [max(T[d], image.shape[d])]. *)
Theorem pad_round_trip (A : Type) (n : nat) (image : ndarray A n) (T : list Z) :
  has_shape n (shape n image) image ->
  Forall (fun k => 0 < k) (shape n image) ->
  1 <= length T <= n ->
  exists res slicer,
    pad_nd_image n image (Some T) true DivNone = Ok (res, Some slicer) /\
    index_slices n slicer res = Ok image /\
    skipn (n - length T) (map Z.of_nat (shape n res))
    = map (fun '(t, o) => Z.max t o)
          (combine T (skipn (n - length T) (map Z.of_nat (shape n image)))).
Proof.
  intros Hrect Hpos HT.
  set (sh := shape n image) in *.
  pose proof (@has_shape_length A n sh image Hrect Hpos) as Hn.
  set (k := length T) in *.
  set (old := skipn (n - k) (map Z.of_nat sh)).
  assert (Hold : length old = k).
  { unfold old. rewrite length_skipn, length_map. lia. }
  unfold pad_nd_image. fold sh. cbn [bind].
  assert (Efrom : PySlice.from (- Z.of_nat (length T)) (map Z.of_nat sh) = old).
  { unfold PySlice.from, PySlice.bound, old. fold k. rewrite length_map, Hn.
    destruct (Z.ltb_spec (- Z.of_nat k) 0); [| lia].
    f_equal. lia. }
  rewrite Efrom. fold k.
  rewrite mapM_item_max by (fold k; lia). cbn [bind].
  unfold np_sub. rewrite length_map, length_combine. fold k. rewrite Hold.
  rewrite Nat.min_id, Nat.eqb_refl. cbn [bind].
  rewrite difference_max.
  set (d := map (fun '(t, o) => (Z.max t o - o)%Z) (combine T old)).
  set (pads := combine (map (fun d => (d / 2)%Z) d)
                       (map (fun d => (d / 2 + d mod 2)%Z) d)).
  assert (Hd : length d = k).
  { unfold d. rewrite length_map, length_combine. fold k. lia. }
  assert (Hpads : length pads = k).
  { unfold pads. rewrite length_combine, !length_map. lia. }
  rewrite length_map, Hn.
  replace (Z.to_nat (Z.of_nat n - Z.of_nat k)) with (n - k) by lia.
  set (pad_list := repeat (0%Z, 0%Z) (n - k) ++ pads).
  assert (Hlen : length pad_list = n).
  { unfold pad_list. rewrite length_app, repeat_length. lia. }
  assert (Hnn : Forall (fun p => (0 <= fst p)%Z /\ (0 <= snd p)%Z) pad_list).
  { unfold pad_list. apply Forall_app. split.
    - apply Forall_forall. intros p Hp. apply repeat_spec in Hp. subst p.
      simpl. lia.
    - apply pads_nonneg. }
  destruct (@pad_edge_spec A n sh pad_list image Hrect Hpos Hlen Hnn)
    as (res & Hres & Hshape & Hcrop).
  rewrite Hres. cbn [bind negb].
  assert (Hrs : shape n res = padded_shape sh pad_list).
  { apply shape_has_shape; [exact Hshape |]. now apply padded_positive. }
  rewrite Hrs, length_map, length_padded by lia.
  rewrite Hlen, Hn, Nat.eqb_refl. cbn [negb].
  rewrite slicer_crop by assumption.
  eexists _, _. split; [reflexivity |]. split; [exact Hcrop |].
  (* the trailing axes *)
  rewrite Hrs. unfold pad_list, padded_shape.
  rewrite <- (firstn_skipn (n - k) sh) at 1.
  rewrite combine_app by (rewrite length_firstn, repeat_length; lia).
  rewrite !map_app, skipn_app.
  assert (Hlead : length (map Z.of_nat
                    (map (fun '(k0, (b, a)) => Z.to_nat b + k0 + Z.to_nat a)
                       (combine (firstn (n - k) sh) (repeat (0%Z, 0%Z) (n - k)))))
                  = n - k).
  { rewrite !length_map, length_combine, length_firstn, repeat_length. lia. }
  rewrite Hlead, Nat.sub_diag, skipn_all2 by lia. cbn [skipn app].
  unfold pads, d, old. rewrite skipn_map.
  apply (@padded_max (skipn (n - k) sh) T).
  rewrite length_skipn. fold k. lia.
Qed.

Lemma pad_round_trip_witness :
  exists res slicer,
    pad_nd_image 2 [[1; 2; 3]; [4; 5; 6]] (Some [5; 4]%Z) true DivNone
    = Ok (res, Some slicer) /\
    index_slices 2 slicer res = Ok [[1; 2; 3]; [4; 5; 6]] /\
    skipn (2 - 2) (map Z.of_nat (shape 2 res))
    = map (fun '(t, o) => Z.max t o)
          (combine [5; 4]%Z
             (skipn (2 - 2) (map Z.of_nat (shape 2 [[1; 2; 3]; [4; 5; 6]])))).
Proof.
  apply (@pad_round_trip nat 2 [[1; 2; 3]; [4; 5; 6]] [5; 4]%Z).
  - simpl. repeat constructor.
  - simpl. repeat constructor.
  - simpl. lia.
Defined.

End PadFacts.

(** ** The box extractor *)

Module BBoxFacts.

Import PyNum NdArray BBox BBoxSpec.

Lemma bind_ok (A B : Type) (r : result A) (k : A -> result B) (v : B) :
  bind r k = Ok v -> exists a, r = Ok a /\ k a = Ok v.
Proof. destruct r as [a | e]; simpl; [eauto | discriminate]. Qed.

Ltac inv_bind H :=
  let a := fresh "a" in
  let Ha := fresh "Ha" in
  apply bind_ok in H; destruct H as (a & Ha & H).

Lemma mapM_ok_Forall2 (A B : Type) (f : A -> result B) (x : list A) (y : list B) :
  mapM f x = Ok y -> Forall2 (fun a b => f a = Ok b) x y.
Proof.
  revert y. induction x as [| a x IH]; intros y H; simpl in H.
  - injection H as <-. constructor.
  - inv_bind H. inv_bind H. injection H as <-. constructor; auto.
Qed.

(** *** Minimum and maximum *)

Lemma fold_min_le (l : list Z) :
  forall a x, In x (a :: l) -> (fold_left Z.min l a <= x)%Z.
Proof.
  induction l as [| b l IH]; intros a x Hin; simpl in *.
  - destruct Hin as [-> | []]. lia.
  - destruct Hin as [<- | [<- | Hin]].
    + specialize (IH (Z.min a b) (Z.min a b) (or_introl eq_refl)). lia.
    + specialize (IH (Z.min a b) (Z.min a b) (or_introl eq_refl)). lia.
    + apply IH. now right.
Qed.

Lemma fold_min_ge (l : list Z) :
  forall a lo, Forall (fun x => lo <= x)%Z (a :: l) -> (lo <= fold_left Z.min l a)%Z.
Proof.
  induction l as [| b l IH]; intros a lo H; simpl.
  - now inversion H.
  - inversion H as [| ? ? Ha H']; subst. inversion H' as [| ? ? Hb H'']; subst.
    apply IH. constructor; [lia | assumption].
Qed.

Lemma np_min_zero (l : list Z) (mn : Z) :
  np_min l = Ok mn -> Forall (fun x => 0 <= x)%Z l -> In 0%Z l -> mn = 0%Z.
Proof.
  destruct l as [| a l]; simpl; [discriminate |].
  intros [= <-] Hnn Hin.
  pose proof (@fold_min_le l a 0%Z Hin).
  pose proof (@fold_min_ge l a 0%Z Hnn). lia.
Qed.

(** *** Index rows *)

Lemma argwhere_nonneg (n : nat) :
  forall x : ndarray Z n, Forall (Forall (fun z => 0 <= z)%Z) (argwhere n x).
Proof.
  induction n as [| n IH]; intros x; simpl.
  - destruct (x =? 0)%Z; repeat constructor.
  - apply Forall_concat. apply Forall_map. apply Forall_forall.
    intros [i sub] _. apply Forall_map.
    eapply Forall_impl; [| apply IH]. intros row Hrow. constructor; [lia | exact Hrow].
Qed.

Lemma column_values (c : nat) (rows : list (list Z)) (vals : list Z) :
  column c rows = Ok vals ->
  Forall (Forall (fun z => 0 <= z)%Z) rows ->
  Forall (fun z => 0 <= z)%Z vals /\
  forall row v, In row rows -> nth_error row c = Some v -> In v vals.
Proof.
  unfold column. intros H. apply mapM_ok_Forall2 in H.
  induction H as [| row v rows vals Hrv _ IH]; intros Hnn.
  - split; [constructor | intros ? ? []].
  - inversion Hnn as [| ? ? Hrow Hrows]; subst.
    destruct (IH Hrows) as (IH1 & IH2).
    unfold item in Hrv. destruct (nth_error row c) as [w |] eqn:E; [| discriminate].
    injection Hrv as <-. split.
    + constructor; [| assumption].
      rewrite Forall_forall in Hrow. apply Hrow. eapply nth_error_In; eauto.
    + intros row' v' [<- | Hin] Hv.
      * left. congruence.
      * right. eauto.
Qed.

(** A region with a voxel at index 0 of an axis gets the lower bound -1 on
    that axis: column 1 (y) at position 0 of the box, column 2 (x) at
    position 1 and, in three dimensions, column 3 (z) at position 4. *)
Lemma coord_list_lower_border (dim : Z) (rows : list (list Z)) (box : list Z) :
  coord_list dim rows = Ok box ->
  Forall (Forall (fun z => 0 <= z)%Z) rows ->
  ((exists row, In row rows /\ nth_error row 1 = Some 0%Z) ->
   nth_error box 0 = Some (-1)%Z) /\
  ((exists row, In row rows /\ nth_error row 2 = Some 0%Z) ->
   nth_error box 1 = Some (-1)%Z) /\
  (dim = 3%Z -> (exists row, In row rows /\ nth_error row 3 = Some 0%Z) ->
   nth_error box 4 = Some (-1)%Z).
Proof.
  intros H Hnn. unfold coord_list in H.
  inv_bind H. rename a into ys. rename Ha into Hys.
  inv_bind H. rename a into ymin. rename Ha into Hymin.
  inv_bind H. rename a into xs. rename Ha into Hxs.
  inv_bind H. rename a into xmin. rename Ha into Hxmin.
  inv_bind H. inv_bind H.
  destruct (column_values _ Hys Hnn) as (Hynn & Hyin).
  destruct (column_values _ Hxs Hnn) as (Hxnn & Hxin).
  assert (Hy : (exists row, In row rows /\ nth_error row 1 = Some 0%Z) -> ymin = 0%Z).
  { intros (row & Hin & Hrow). eapply np_min_zero; eauto. }
  assert (Hx : (exists row, In row rows /\ nth_error row 2 = Some 0%Z) -> xmin = 0%Z).
  { intros (row & Hin & Hrow). eapply np_min_zero; eauto. }
  destruct (Z.eqb_spec dim 3) as [E | E].
  - inv_bind H. rename a1 into zs. rename Ha1 into Hzs.
    inv_bind H. rename a1 into zmin. rename Ha1 into Hzmin.
    inv_bind H. injection H as <-.
    destruct (column_values _ Hzs Hnn) as (Hznn & Hzin).
    repeat split.
    + intros Hb. rewrite (Hy Hb). reflexivity.
    + intros Hb. rewrite (Hx Hb). reflexivity.
    + intros _ (row & Hin & Hrow).
      assert (zmin = 0%Z) by (eapply np_min_zero; eauto). subst. reflexivity.
  - injection H as <-. repeat split.
    + intros Hb. rewrite (Hy Hb). reflexivity.
    + intros Hb. rewrite (Hx Hb). reflexivity.
    + intros; contradiction.
Qed.


Lemma Forall2_nth_left (A B : Type) (R : A -> B -> Prop) (x : list A) (y : list B) :
  Forall2 R x y ->
  forall j a, nth_error x j = Some a -> exists b, nth_error y j = Some b /\ R a b.
Proof.
  induction 1 as [| a0 b0 x y H0 _ IH]; intros j a Hj.
  - destruct j; discriminate.
  - destruct j as [| j]; simpl in *.
    + injection Hj as <-. eauto.
    + eauto.
Qed.

(** *** Dictionaries and item assignment *)

Lemma dict_get_set_same (V : Type) (d : dict V) (k : String.string) (v : V) :
  dict_get (dict_set d k v) k = Ok v.
Proof.
  induction d as [| [k0 w] d IH]; simpl.
  - now rewrite String.eqb_refl.
  - destruct (String.eqb_spec k0 k) as [-> | Hne]; simpl.
    + now rewrite String.eqb_refl.
    + destruct (String.eqb_spec k0 k); [contradiction | exact IH].
Qed.

Lemma dict_get_set_other (V : Type) (d : dict V) (k k' : String.string) (v : V) :
  k <> k' -> dict_get (dict_set d k v) k' = dict_get d k'.
Proof.
  intros Hne. induction d as [| [k0 w] d IH]; simpl.
  - destruct (String.eqb_spec k k'); [contradiction | reflexivity].
  - destruct (String.eqb_spec k0 k) as [-> | Hne0]; simpl.
    + destruct (String.eqb_spec k k'); [contradiction | reflexivity].
    + destruct (String.eqb_spec k0 k'); [reflexivity | exact IH].
Qed.

Lemma set_item_same (A : Type) (x : list A) :
  forall (i : nat) (v : A) (x' : list A),
    set_item x i v = Ok x' -> item x' i = Ok v.
Proof.
  induction x as [| a x IH]; intros [| i] v x' H; simpl in H; try discriminate.
  - now injection H as <-.
  - inv_bind H. injection H as <-. unfold item in *. simpl. eauto.
Qed.

Lemma set_item_other (A : Type) (x : list A) :
  forall (i j : nat) (v : A) (x' : list A),
    set_item x i v = Ok x' -> i <> j -> item x' j = item x j.
Proof.
  induction x as [| a x IH]; intros [| i] j v x' H Hne; simpl in H;
    try discriminate.
  - injection H as <-. destruct j; [contradiction | reflexivity].
  - inv_bind H. injection H as <-. destruct j as [| j]; [reflexivity |].
    unfold item in *. simpl. eapply IH; eauto.
Qed.

Lemma item_repeat (A : Type) (v : A) (n i : nat) :
  i < n -> item (repeat v n) i = Ok v.
Proof.
  revert i. induction n as [| n IH]; intros i Hi; [lia |].
  destruct i as [| i]; [reflexivity |]. unfold item in *. simpl.
  apply IH. lia.
Qed.

Lemma nth_error_zrange (lo hi : Z) (i : nat) :
  (Z.of_nat i < hi - lo)%Z ->
  nth_error (zrange lo hi) i = Some (lo + Z.of_nat i)%Z.
Proof.
  intros Hi. unfold zrange. rewrite nth_error_map, nth_error_seq.
  destruct (Nat.ltb_spec i (Z.to_nat (hi - lo))); [reflexivity | lia].
Qed.

(** Appending one value per key keeps every list under a key within a
    predicate that the values for that key satisfy. *)
Lemma append_all_keeps (Q : pyval -> Prop) (k : String.string)
    (value : String.string -> result pyval) (names : list String.string) :
  (forall v, value k = Ok v -> Q v) ->
  forall lists lists' : dict (list pyval),
    append_all names value lists = Ok lists' ->
    (forall l, dict_get lists k = Ok l -> Forall Q l) ->
    forall l, dict_get lists' k = Ok l -> Forall Q l.
Proof.
  intros Hv. induction names as [| name rest IH]; intros lists lists' H Hinv;
    simpl in H.
  - now injection H as <-.
  - inv_bind H. rename a into sofar. inv_bind H. rename a into v.
    apply (IH _ _ H). intros l Hl.
    destruct (String.eqb_spec name k) as [-> | Hne].
    + rewrite dict_get_set_same in Hl. injection Hl as <-.
      apply Forall_app. split; [now apply Hinv |]. repeat constructor. now apply Hv.
    + rewrite dict_get_set_other in Hl by assumption. now apply Hinv.
Qed.

Lemma append_items_all (d : dict (list pyval)) (b rix : nat)
    (names : list String.string) :
  forall lists : dict (list pyval),
    append_items d b rix names lists
    = append_all names (fun name => roi_entry d name b rix) lists.
Proof.
  induction names as [| name rest IH]; intros lists; simpl; [reflexivity |].
  destruct (dict_get lists name); simpl; [| reflexivity].
  destruct (roi_entry d name b rix); simpl; [apply IH | reflexivity].
Qed.

Lemma empty_lists_get (names : list String.string) (k : String.string) :
  forall (d0 : dict (list pyval)) (l : list pyval),
    dict_get (fold_left (fun d name => dict_set d name []) names d0) k = Ok l ->
    l = [] \/ dict_get d0 k = Ok l.
Proof.
  induction names as [| name rest IH]; intros d0 l H; simpl in H.
  - now right.
  - destruct (IH _ _ H) as [-> | H']; [now left |].
    destruct (String.eqb_spec name k) as [-> | Hne].
    + rewrite dict_get_set_same in H'. left. congruence.
    + rewrite dict_get_set_other in H' by assumption. now right.
Qed.

Lemma store_items_get (lists : dict (list pyval)) (k : String.string)
    (names : list String.string) :
  forall d d' : dict (list pyval),
    store_items names lists d = Ok d' ->
    (In k names -> dict_get d' k = dict_get lists k) /\
    (~ In k names -> dict_get d' k = dict_get d k).
Proof.
  induction names as [| name rest IH]; intros d d' H; simpl in H.
  - injection H as <-. split; [intros [] | reflexivity].
  - inv_bind H. rename a into l. destruct (IH _ _ H) as (IH1 & IH2).
    destruct (in_dec String.string_dec k rest) as [Hin | Hnin].
    + split; [intros _; now apply IH1 |].
      intros Hn. exfalso. apply Hn. now right.
    + split.
      * intros [-> | Hin]; [| contradiction].
        rewrite (IH2 Hnin), dict_get_set_same. now symmetry.
      * intros Hn. rewrite (IH2 Hnin). apply dict_get_set_other.
        intros ->. apply Hn. now left.
Qed.

Section ConvertFacts.

Variable lb : forall n : nat, ndarray Z n -> ndarray Z n * nat.
Variable m : nat.
Variable dim : Z.
Variable roi_item_keys : list String.string.
Variable get_rois_from_seg : bool.
Variable class_specific_seg : bool.

Abbreviation box_of := (fun (box : list Z) (mask : ndarray Z m) =>
                      coord_list dim (argwhere m mask) = Ok box).

Lemma process_roi_fields (d : dict (list pyval)) (b : nat) (seg_b : ndarray Z m)
    (acc acc' : sample_acc m) (rix : nat) (r : ndarray Z m) :
  process_roi dim roi_item_keys class_specific_seg d b seg_b acc rix r = Ok acc' ->
  ((0 <? count_nonzero m r) = false /\
   p_coords_list acc' = p_coords_list acc /\
   p_roi_masks_list acc' = p_roi_masks_list acc /\
   p_roi_items_lists acc' = p_roi_items_lists acc)
  \/
  ((0 <? count_nonzero m r) = true /\
   exists coords lists c,
     coord_list dim (argwhere m r) = Ok coords /\
     append_items d b rix roi_item_keys (p_roi_items_lists acc) = Ok lists /\
     roi_entry d "class_targets" b rix = Ok (VInt c) /\ (1 <= c)%Z /\
     p_coords_list acc' = p_coords_list acc ++ [coords] /\
     p_roi_masks_list acc' = p_roi_masks_list acc ++ [r] /\
     p_roi_items_lists acc' = lists).
Proof.
  unfold process_roi. intros H. inv_bind H. rename a into acc1.
  assert (Hsame : p_coords_list acc' = p_coords_list acc1 /\
                  p_roi_masks_list acc' = p_roi_masks_list acc1 /\
                  p_roi_items_lists acc' = p_roi_items_lists acc1).
  { destruct class_specific_seg.
    - inv_bind H. destruct a as [c | ?]; [| discriminate].
      injection H as <-. simpl. auto.
    - injection H as <-. auto. }
  destruct Hsame as (E1 & E2 & E3). rewrite E1, E2, E3. clear H E1 E2 E3.
  destruct (0 <? count_nonzero m r).
  - right. split; [reflexivity |].
    inv_bind Ha. rename a into coords. rename Ha0 into Hcoords.
    inv_bind Ha. rename a into lists. rename Ha0 into Hlists.
    inv_bind Ha. destruct a as [c | ?]; [| discriminate].
    destruct (Z.leb_spec 1 c); [| discriminate].
    injection Ha as <-. simpl. exists coords, lists, c. auto 10.
  - left. injection Ha as <-. auto.
Qed.

Lemma process_rois_boxes (d : dict (list pyval)) (b : nat) (seg_b : ndarray Z m)
    (rois : list (ndarray Z m)) :
  forall (acc acc' : sample_acc m) (rix : nat),
    process_rois dim roi_item_keys class_specific_seg d b seg_b acc rix rois = Ok acc' ->
    Forall2 box_of (p_coords_list acc) (p_roi_masks_list acc) ->
    Forall2 box_of (p_coords_list acc') (p_roi_masks_list acc').
Proof.
  induction rois as [| r rest IH]; intros acc acc' rix H Hinv; simpl in H.
  - now injection H as <-.
  - inv_bind H. apply (IH _ _ _ H).
    destruct (process_roi_fields _ _ _ _ _ _ Ha)
      as [(_ & E1 & E2 & _) | (_ & coords & lists & c & Hc & _ & _ & _ & E1 & E2 & _)];
      rewrite E1, E2; [assumption |].
    apply Forall2_app; [assumption | repeat constructor; assumption].
Qed.

Lemma process_sample_boxes (st st' : batch_acc m) (b : nat) (seg_b : ndarray Z m) :
  process_sample lb dim roi_item_keys get_rois_from_seg class_specific_seg
    st b seg_b = Ok st' ->
  Forall2 (@boxed dim m) (bb_target st) (roi_masks st) ->
  Forall2 (@boxed dim m) (bb_target st') (roi_masks st').
Proof.
  unfold process_sample. intros H Hinv.
  destruct (0 <? count_nonzero m seg_b).
  - inv_bind H. destruct a as [n_cands d].
    inv_bind H. rename a into acc. inv_bind H. injection H as <-. simpl.
    apply Forall2_app; [assumption |]. repeat constructor.
    apply process_rois_boxes in Ha0; [| constructor].
    intros j box Hj. exact (Forall2_nth_left Ha0 _ Hj).
  - inv_bind H. injection H as <-. simpl.
    apply Forall2_app; [assumption |]. repeat constructor.
    intros [| j] box Hj; discriminate.
Qed.

Lemma process_batch_boxes (segs : list (ndarray Z m)) :
  forall (st st' : batch_acc m) (b : nat),
    process_batch lb dim roi_item_keys get_rois_from_seg class_specific_seg
      st b segs = Ok st' ->
    Forall2 (@boxed dim m) (bb_target st) (roi_masks st) ->
    Forall2 (@boxed dim m) (bb_target st') (roi_masks st').
Proof.
  induction segs as [| seg_b rest IH]; intros st st' b H Hinv; simpl in H.
  - now injection H as <-.
  - inv_bind H. apply (IH _ _ _ H). eapply process_sample_boxes; eauto.
Qed.

(** *** Class values *)

Abbreviation good_lists := (fun lists : dict (list pyval) =>
  forall l, dict_get lists "class_targets" = Ok l -> Forall good_class l).

Abbreviation good_items := (fun lists : dict (list pyval) =>
  forall l, dict_get lists "class_targets" = Ok l ->
            Forall (fun v => exists e, v = VList e /\ Forall good_class e) l).

Lemma process_rois_good (d : dict (list pyval)) (b : nat) (seg_b : ndarray Z m)
    (rois : list (ndarray Z m)) :
  forall (acc acc' : sample_acc m) (rix : nat),
    process_rois dim roi_item_keys class_specific_seg d b seg_b acc rix rois = Ok acc' ->
    good_lists (p_roi_items_lists acc) ->
    good_lists (p_roi_items_lists acc').
Proof.
  induction rois as [| r rest IH]; intros acc acc' rix H Hinv; simpl in H.
  - now injection H as <-.
  - inv_bind H. apply (IH _ _ _ H).
    destruct (process_roi_fields _ _ _ _ _ _ Ha)
      as [(_ & _ & _ & E) | (_ & coords & lists & c & _ & Hl & Hc & Hc1 & _ & _ & E)];
      rewrite E; [assumption |].
    rewrite append_items_all in Hl.
    eapply append_all_keeps; [| exact Hl | exact Hinv].
    intros v Hv. cbv beta in Hv. rewrite Hc in Hv. injection Hv as <-.
    exists c. auto.
Qed.

Lemma process_rois_classes (d : dict (list pyval)) (b : nat) (seg_b : ndarray Z m)
    (rois : list (ndarray Z m)) :
  forall (acc acc' : sample_acc m) (rix0 : nat),
    process_rois dim roi_item_keys class_specific_seg d b seg_b acc rix0 rois = Ok acc' ->
    forall i r,
      nth_error rois i = Some r -> 0 < count_nonzero m r ->
      exists c, roi_entry d "class_targets" b (rix0 + i) = Ok (VInt c) /\ (1 <= c)%Z.
Proof.
  induction rois as [| r0 rest IH]; intros acc acc' rix0 H i r Hi Hr; simpl in H.
  - destruct i; discriminate.
  - inv_bind H. destruct i as [| i]; simpl in Hi.
    + injection Hi as ->. rewrite Nat.add_0_r.
      destruct (process_roi_fields _ _ _ _ _ _ Ha)
        as [(E & _) | (_ & coords & lists & c & _ & _ & Hc & Hc1 & _)].
      * apply Nat.ltb_ge in E. lia.
      * eauto.
    + replace (rix0 + S i) with (S rix0 + i) by lia. eapply IH; eauto.
Qed.

Lemma process_sample_good (st st' : batch_acc m) (b : nat) (seg_b : ndarray Z m) :
  process_sample lb dim roi_item_keys get_rois_from_seg class_specific_seg
    st b seg_b = Ok st' ->
  good_items (roi_items st) -> good_items (roi_items st').
Proof.
  unfold process_sample. intros H Hinv.
  destruct (0 <? count_nonzero m seg_b).
  - inv_bind H. destruct a as [n_cands d].
    inv_bind H. rename a into acc. inv_bind H. rename a into items.
    injection H as <-. cbn [roi_items]. cbv beta in Hinv |- *.
    refine (@append_all_keeps _ _ _ _ _ _ _ Ha1 Hinv).
    intros v Hv. cbv beta in Hv. inv_bind Hv. injection Hv as <-.
    exists a. split; [reflexivity |].
    assert (Hg : forall l, dict_get (p_roi_items_lists acc) "class_targets" = Ok l
                           -> Forall good_class l);
      [| now apply Hg].
    eapply process_rois_good; [exact Ha0 |].
    cbn [p_roi_items_lists]. intros l Hl. unfold empty_lists in Hl.
    apply empty_lists_get in Hl. destruct Hl as [-> | Hl]; [constructor | discriminate].
  - inv_bind H. injection H as <-. cbn [roi_items]. cbv beta in Hinv |- *.
    refine (@append_all_keeps _ _ _ _ _ _ _ Ha Hinv).
    intros v [= <-]. exists []. split; [reflexivity | constructor].
Qed.

Lemma process_sample_classes (st st' : batch_acc m) (b : nat) (seg_b : ndarray Z m) :
  process_sample lb dim roi_item_keys get_rois_from_seg class_specific_seg
    st b seg_b = Ok st' ->
  forall rix,
    present lb m get_rois_from_seg seg_b rix ->
    exists c,
      read_class get_rois_from_seg (data st) b rix = Ok (VInt c) /\ (1 <= c)%Z.
Proof.
  unfold process_sample. intros H rix (n & Hfg & Hn & Hrix & Hr).
  apply Nat.ltb_lt in Hfg. rewrite Hfg in H.
  inv_bind H. destruct a as [n_cands d].
  inv_bind H. rename a into acc. clear H.
  unfold candidates in Hn. unfold read_class.
  assert (Hroi : nth_error (map (roi_mask m seg_b) (zrange 1 (n_cands + 1))) rix
                 = Some (roi_mask m seg_b (Z.of_nat rix + 1)) ->
                 exists c, roi_entry d "class_targets" b rix = Ok (VInt c) /\ (1 <= c)%Z).
  { intros Hnth.
    exact (process_rois_classes _ _ _ _ _ _ Ha0 _ Hnth Hr). }
  destruct get_rois_from_seg.
  - destruct (lb m seg_b) as [clusters k] eqn:Elb. simpl in Hn.
    injection Hn as <-.
    inv_bind Ha. rename a into cts. inv_bind Ha. rename a into ct.
    inv_bind Ha. rename a into cts'. injection Ha as <- <-.
    destruct Hroi as (c & Hc & Hc1).
    { rewrite nth_error_map, nth_error_zrange by lia.
      cbn [option_map]. now rewrite Z.add_comm. }
    exists c. split; [| assumption].
    unfold roi_entry in Hc. rewrite dict_get_set_same in Hc. cbn [bind] in Hc.
    rewrite (set_item_same _ _ _ Ha3) in Hc. cbn [bind val_item] in Hc.
    rewrite item_repeat in Hc by lia.
    rewrite Ha1. cbn [bind]. rewrite Ha2. exact Hc.
  - inv_bind Ha. injection Ha as <- <-.
    rewrite Hn in Ha1. injection Ha1 as <-.
    apply Hroi. rewrite nth_error_map, nth_error_zrange by lia.
    cbn [option_map]. now rewrite Z.add_comm.
Qed.

Lemma process_sample_data (st st' : batch_acc m) (b : nat) (seg_b : ndarray Z m) :
  process_sample lb dim roi_item_keys get_rois_from_seg class_specific_seg
    st b seg_b = Ok st' ->
  forall i rix,
    i <> b ->
    read_class get_rois_from_seg (data st') i rix
    = read_class get_rois_from_seg (data st) i rix.
Proof.
  unfold process_sample. intros H i rix Hne.
  destruct (0 <? count_nonzero m seg_b).
  - inv_bind H. destruct a as [n_cands d].
    inv_bind H. inv_bind H. injection H as <-. simpl.
    unfold read_class. destruct get_rois_from_seg.
    + destruct (lb m seg_b) as [clusters k].
      inv_bind Ha. rename a1 into cts. inv_bind Ha. inv_bind Ha.
      injection Ha as _ <-.
      rewrite dict_get_set_same, Ha2. cbn [bind].
      eapply set_item_other; eauto.
    + inv_bind Ha. now injection Ha as _ <-.
  - inv_bind H. now injection H as <-.
Qed.

Lemma process_batch_good (segs : list (ndarray Z m)) :
  forall (st st' : batch_acc m) (b : nat),
    process_batch lb dim roi_item_keys get_rois_from_seg class_specific_seg
      st b segs = Ok st' ->
    good_items (roi_items st) -> good_items (roi_items st').
Proof.
  induction segs as [| seg_b rest IH]; intros st st' b H Hinv; simpl in H.
  - now injection H as <-.
  - inv_bind H. apply (IH _ _ _ H). eapply process_sample_good; eauto.
Qed.

Lemma process_batch_classes (segs : list (ndarray Z m)) :
  forall (st st' : batch_acc m) (b0 : nat),
    process_batch lb dim roi_item_keys get_rois_from_seg class_specific_seg
      st b0 segs = Ok st' ->
    forall i seg_b rix,
      nth_error segs i = Some seg_b ->
      present lb m get_rois_from_seg seg_b rix ->
      exists c,
        read_class get_rois_from_seg (data st) (b0 + i) rix = Ok (VInt c)
        /\ (1 <= c)%Z.
Proof.
  induction segs as [| s0 rest IH]; intros st st' b0 H i seg_b rix Hi Hp;
    simpl in H.
  - destruct i; discriminate.
  - inv_bind H. rename a into st1. destruct i as [| i]; simpl in Hi.
    + injection Hi as ->. rewrite Nat.add_0_r.
      eapply process_sample_classes; eauto.
    + destruct (IH _ _ _ H _ _ _ Hi Hp) as (c & Hc & Hc1).
      exists c. split; [| assumption].
      replace (b0 + S i) with (S b0 + i) by lia.
      rewrite <- Hc. symmetry. eapply process_sample_data; eauto. lia.
Qed.

(** C4: when the call returns, every class value it emits under
    ["class_targets"] is a number of at least 1; an instance that is present
    in a sample with a class value below 1 (0 included) makes the call
    raise; and the exception raised for such an instance, once its box and
    its other attributes have been read, is the assertion failure. *)
Theorem class_at_least_one (seg : list (ndarray Z m)) (d : dict (list pyval)) :
  (forall out per_sample,
      convert_seg_to_bounding_box_coordinates lb m dim roi_item_keys
        get_rois_from_seg class_specific_seg seg d = Ok out ->
      In "class_targets"%string roi_item_keys ->
      dict_get (items out) "class_targets" = Ok per_sample ->
      Forall (fun v => exists e, v = VList e /\ Forall good_class e) per_sample)
  /\
  (forall b seg_b rix c,
      nth_error seg b = Some seg_b ->
      present lb m get_rois_from_seg seg_b rix ->
      read_class get_rois_from_seg d b rix = Ok (VInt c) ->
      (c < 1)%Z ->
      exists e,
        convert_seg_to_bounding_box_coordinates lb m dim roi_item_keys
          get_rois_from_seg class_specific_seg seg d = Raise e)
  /\
  (forall b seg_b acc rix r coords lists c,
      0 < count_nonzero m r ->
      coord_list dim (argwhere m r) = Ok coords ->
      append_items d b rix roi_item_keys (p_roi_items_lists acc) = Ok lists ->
      roi_entry d "class_targets" b rix = Ok (VInt c) ->
      (c < 1)%Z ->
      process_roi dim roi_item_keys class_specific_seg d b seg_b acc rix r
      = Raise AssertionError).
Proof.
  split; [| split].
  - unfold convert_seg_to_bounding_box_coordinates.
    intros out per_sample H Hin Hget.
    inv_bind H. rename a into st. inv_bind H. rename a into dfinal.
    injection H as <-. cbn [items] in Hget.
    destruct (store_items_get _ "class_targets" _ _ Ha0) as (Hs & _).
    rewrite (Hs Hin) in Hget.
    assert (Hg : forall l, dict_get (roi_items st) "class_targets" = Ok l ->
                           Forall (fun v => exists e, v = VList e /\ Forall good_class e) l);
      [| now apply Hg].
    eapply process_batch_good; [exact Ha |].
    cbn [roi_items]. intros l Hl. unfold empty_lists in Hl.
    apply empty_lists_get in Hl. destruct Hl as [-> | Hl]; [constructor | discriminate].
  - intros b seg_b rix c Hb Hp Hread Hc.
    destruct (convert_seg_to_bounding_box_coordinates lb m dim roi_item_keys
                get_rois_from_seg class_specific_seg seg d) as [out | e] eqn:E;
      [| now exists e].
    exfalso. unfold convert_seg_to_bounding_box_coordinates in E.
    inv_bind E. rename a into st.
    destruct (@process_batch_classes _ _ _ _ Ha _ _ _ Hb Hp) as (c' & Hc' & Hc1).
    cbn [data Nat.add] in Hc'. rewrite Hread in Hc'. injection Hc' as ->. lia.
  - intros b seg_b acc rix r coords lists c Hr Hcoords Hlists Hct Hc.
    unfold process_roi. apply Nat.ltb_lt in Hr. rewrite Hr.
    rewrite Hcoords. cbn [bind]. rewrite Hlists. cbn [bind].
    rewrite Hct. cbn [bind].
    destruct (Z.leb_spec 1 c); [lia | reflexivity].
Qed.

End ConvertFacts.


Lemma class_at_least_one_witness :
  exists e,
    convert_seg_to_bounding_box_coordinates (fun n x => (x, 0)) 3 2
      ["class_targets"%string] false false
      [[[[1; 0; 2]; [0; 0; 2]]]]%Z
      [("class_targets"%string, [VList [VInt 3; VInt 0]])]
    = Raise e.
Proof.
  apply (proj1 (proj2 (@class_at_least_one (fun n x => (x, 0)) 3 2
                         ["class_targets"%string] false false
                         [[[[1; 0; 2]; [0; 0; 2]]]]%Z
                         [("class_targets"%string, [VList [VInt 3; VInt 0]])]))
           0 [[[1; 0; 2]; [0; 0; 2]]]%Z 1 0%Z).
  - reflexivity.
  - exists 2%Z. repeat split; vm_compute; (reflexivity || lia).
  - reflexivity.
  - lia.
Defined.



Lemma zrange_cons (lo hi : Z) :
  (lo < hi)%Z -> zrange lo hi = lo :: zrange (lo + 1) hi.
Proof.
  intros H. unfold zrange.
  replace (Z.to_nat (hi - lo)) with (S (Z.to_nat (hi - (lo + 1)))) by lia.
  cbn [seq map]. rewrite <- seq_shift, map_map. f_equal; [lia |].
  apply map_ext. intros i. lia.
Qed.

Lemma zrange_lower (lo hi : Z) : Forall (fun z => lo <= z)%Z (zrange lo hi).
Proof.
  unfold zrange. apply Forall_map. apply Forall_forall. intros i _. lia.
Qed.

Lemma process_rois_empty_masks (m : nat) (dim : Z) (keys : list String.string)
    (d : dict (list pyval)) (b : nat) (seg_b : ndarray Z m)
    (rois : list (ndarray Z m)) :
  Forall (fun r => count_nonzero m r = 0) rois ->
  forall (acc : sample_acc m) (rix : nat),
    process_rois dim keys false d b seg_b acc rix rois = Ok acc.
Proof.
  induction 1 as [| r rest Hr _ IH]; intros acc rix; simpl; [reflexivity |].
  unfold process_roi. rewrite Hr. simpl. apply IH.
Qed.

(** C6 fails on a sample with two separate voxels of class 1, whatever the
    labelling routine returns: the call emits no region at all (no
    component reported) or one region whose mask holds both voxels and
    whose box spans them; it never emits the two components. *)
Theorem derived_rois_ignore_labels
    (lb : forall n : nat, ndarray Z n -> ndarray Z n * nat) :
  exists out,
    convert_seg_to_bounding_box_coordinates lb 3 2 ["class_targets"%string]
      true false [[[[1; 0; 1]]]]%Z [("class_targets"%string, [VInt 7])]
    = Ok out /\
    ((new_roi_masks out = [[]] /\ new_bb_target out = [[]]) \/
     (new_roi_masks out = [[[[[1; 0; 1]]]]]%Z /\
      new_bb_target out = [[[-1; -1; 1; 3]]]%Z /\
      items out = [("class_targets"%string, [VList [VInt 7]])])).
Proof.
  unfold convert_seg_to_bounding_box_coordinates.
  cbn [process_batch]. unfold process_sample.
  change (0 <? count_nonzero 3 [[[1; 0; 1]]]%Z) with true. cbv iota.
  destruct (lb 3 [[[1; 0; 1]]]%Z) as [clusters n].
  destruct n as [| n].
  - eexists. split; [vm_compute; reflexivity |]. left. split; reflexivity.
  - cbn [data dict_get String.eqb Ascii.eqb Bool.eqb bind item nth_error set_item
         dict_set repeat].
    rewrite zrange_cons by lia. cbn [map process_rois].
    unfold process_roi at 1.
    change (0 <? count_nonzero 3 (roi_mask 3 [[[1; 0; 1]]]%Z 1)) with true.
    cbv iota.
    change (coord_list 2 (argwhere 3 (roi_mask 3 [[[1; 0; 1]]]%Z 1)))
      with (Ok [-1; -1; 1; 3]%Z : result (list Z)).
    cbn [bind append_items p_roi_items_lists empty_lists fold_left dict_set dict_get
         String.eqb Ascii.eqb Bool.eqb roi_entry item nth_error val_item app
         Z.leb Z.compare Pos.compare].
    change (1 <=? 7)%Z with true. cbv iota. cbn [bind].
    rewrite (@process_rois_empty_masks 3 2 ["class_targets"%string]).
    + eexists. split; [vm_compute; reflexivity |]. right. repeat split; reflexivity.
    + apply Forall_map. eapply Forall_impl; [| apply zrange_lower].
      intros ii Hii. cbv beta in Hii. unfold count_nonzero, roi_mask.
      cbn [nd_map map].
      destruct (Z.eqb_spec 1 ii); [lia |]. destruct (Z.eqb_spec 0 ii); [lia |].
      reflexivity.
Qed.

End BBoxFacts.

(** ** Repeatability *)

Module Repeatability.

Import FoldGen FoldFacts PyNum Sampler.

(** The sampler has no random source among its arguments: with the same
    arguments and two states of the process-wide generator it returns
    different batches. *)
Lemma sampler_reads_global_state :
  ~ (forall (rng : Type) (randint : Z -> Z -> rng -> Z * rng)
            (shuffle : list nat -> rng -> list nat * rng)
            (all_pids : list nat) (class_targets : class_table)
            (batch_size num_classes : Z) (random_ratio : Q)
            (r1 r2 r1' r2' : rng) (batch1 batch2 : list nat),
        get_class_balanced_patients randint shuffle all_pids class_targets
          batch_size num_classes random_ratio r1 = Ok (batch1, r1') ->
        get_class_balanced_patients randint shuffle all_pids class_targets
          batch_size num_classes random_ratio r2 = Ok (batch2, r2') ->
        batch1 = batch2).
Proof.
  intros H.
  specialize (H bool (fun lo _ r => (lo, r))
                (fun x (r : bool) => (if r then rev x else x, r))
                [1; 2] [(1, [1%Z]); (2, [1%Z])] 1%Z 1%Z (inject_Z 0)
                false true false true [2] [1] eq_refl eq_refl).
  discriminate H.
Qed.

(** C8 as stated fails twice: a second [get_fold_names] call on the same
    object returns another fold list, and the sampler's batch changes with
    the state of the process-wide generator, which no argument fixes. *)
Lemma seeded_repeatability_fails :
  ~ (forall (shuffle : Z -> list nat -> list nat) (g g1 g2 : fold_generator)
            (names1 names2 : list fold_names),
        get_fold_names shuffle g = Ok (names1, g1) ->
        get_fold_names shuffle g1 = Ok (names2, g2) ->
        names1 = names2)
  /\
  ~ (forall (rng : Type) (randint : Z -> Z -> rng -> Z * rng)
            (shuffle : list nat -> rng -> list nat * rng)
            (all_pids : list nat) (class_targets : class_table)
            (batch_size num_classes : Z) (random_ratio : Q)
            (r1 r2 r1' r2' : rng) (batch1 batch2 : list nat),
        get_class_balanced_patients randint shuffle all_pids class_targets
          batch_size num_classes random_ratio r1 = Ok (batch1, r1') ->
        get_class_balanced_patients randint shuffle all_pids class_targets
          batch_size num_classes random_ratio r2 = Ok (batch2, r2') ->
        batch1 = batch2).
Proof.
  split; [exact second_call_differs | exact sampler_reads_global_state].
Qed.

End Repeatability.

Module FoldMore.

Import FoldGen FoldSpec FoldFacts.

Lemma after_next (k : nat) :
  forall g : fold_generator, after (S k) g = next (after k g).
Proof.
  induction k as [| k IH]; intros g; [reflexivity |].
  change (after (S (S k)) g) with (after (S k) (next g)).
  rewrite IH. reflexivity.
Qed.

Lemma nth_error_run (k : nat) :
  forall (g : fold_generator) (j : nat),
    j < k -> nth_error (run k g) j = Some (after j g).
Proof.
  induction k as [| k IH]; intros g j Hj; [lia |].
  destruct j as [| j]; [reflexivity |]. simpl. apply IH. lia.
Qed.

Lemma after_fields (k : nat) :
  forall g : fold_generator,
    fold (after k g) = (fold g + Z.of_nat k)%Z /\
    n_splits (after k g) = n_splits g /\
    md (after k g) = md g /\
    slicer (after k g) = slicer g /\
    missing (after k g) = missing g.
Proof.
  induction k as [| k IH]; intros g.
  - simpl. repeat split; lia.
  - rewrite after_next. destruct (IH g) as (F & N & M & S' & Mi).
    unfold next, new_fold; cbn [set_fold fold n_splits md slicer missing].
    repeat split; try assumption. lia.
Qed.

(** Numbering of the folds: on any object with a non-zero split count the
    entry at position [j] carries the fold index [fold + j], and the call
    leaves the fold counter advanced by the number of folds returned. *)
Theorem folds_numbered_from_counter (shuffle : Z -> list nat -> list nat)
    (g g' : fold_generator) (names : list fold_names) :
  get_fold_names shuffle g = Ok (names, g') ->
  (forall j f, nth_error names j = Some f ->
               fold_ix f = (fold g + Z.of_nat j)%Z) /\
  fold g' = (fold g + Z.of_nat (length names))%Z /\
  length names = Z.to_nat (n_splits g).
Proof.
  intros Hcall.
  destruct (Z.eq_dec (n_splits g) 0) as [Hz | Hn].
  { unfold get_fold_names, init_indices in Hcall. cbn in Hcall.
    rewrite Hz in Hcall. discriminate Hcall. }
  destruct (get_fold_names_run shuffle g Hn) as (g0 & Hinit & Hrun).
  rewrite Hrun in Hcall. injection Hcall as <- <-.
  assert (Hf0 : fold g0 = fold g).
  { unfold init_indices in Hinit. cbn in Hinit.
    destruct (n_splits g =? 0)%Z; [discriminate |]. now injection Hinit as <-. }
  rewrite length_map, length_run. repeat split.
  - intros j f Hj. rewrite nth_error_map in Hj.
    destruct (nth_error (run (Z.to_nat (n_splits g)) g0) j) as [h |] eqn:Hh;
      [| discriminate].
    injection Hj as <-.
    assert (Hlt : j < Z.to_nat (n_splits g)).
    { rewrite <- (length_run (Z.to_nat (n_splits g)) g0).
      apply nth_error_Some. congruence. }
    rewrite nth_error_run in Hh by assumption. injection Hh as <-.
    cbn [entry fold_ix]. destruct (after_fields j g0) as (F & _). lia.
  - destruct (after_fields (Z.to_nat (n_splits g)) g0) as (F & _). lia.
Qed.

Lemma folds_numbered_from_counter_witness :
  (forall j f,
      nth_error [ {| train_names := [2]; val_names := [1];
                     test_names := [0]; fold_ix := 0 |};
                  {| train_names := [0]; val_names := [2];
                     test_names := [1]; fold_ix := 1 |};
                  {| train_names := [1]; val_names := [0];
                     test_names := [2]; fold_ix := 2 |} ] j = Some f ->
      fold_ix f = (0 + Z.of_nat j)%Z) /\
  fold (after 3 {| tr_ix := [2]; val_ix := [1]; te_ix := [0]; slicer := 1;
                   missing := 0; fold := 0; len_data := 3; n_splits := 3;
                   myseed := 5; boost_val := 0; l := 3; md := 0 |})
  = (0 + Z.of_nat 3)%Z /\
  3 = Z.to_nat 3.
Proof.
  apply (@folds_numbered_from_counter (fun _ x => x) (init 5 3 3)).
  vm_compute. reflexivity.
Defined.


Lemma length_chunks (s m : Z) (cnt : nat) :
  forall (j : Z) (fresh : list nat), length (chunks s m j cnt fresh) = cnt.
Proof.
  induction cnt as [| c IH]; intros j fresh; simpl; [reflexivity |].
  now rewrite IH.
Qed.

Section Rotation.

Variable shuffle : Z -> list nat -> list nat.
Hypothesis shuffle_perm : forall (seed : Z) (x : list nat), Permutation x (shuffle seed x).

(** Rotation: the test subset of fold [j + 1] is the validation subset of
    fold [j]; only when the remainder is 1 and [j] is the fold before the
    last one does it lose its last identifier. *)
Theorem test_is_previous_val (seed n : Z) (len : nat)
    (names : list fold_names) (g' : fold_generator) (j : nat)
    (f1 f2 : fold_names) :
  get_fold_names shuffle (init seed n len) = Ok (names, g') ->
  nth_error names j = Some f1 ->
  nth_error names (S j) = Some f2 ->
  test_names f2
  = if ((Z.of_nat j =? n - 2)%Z && (Z.of_nat len mod n =? 1)%Z)%bool
    then removelast (val_names f1) else val_names f1.
Proof.
  intros Hcall H1 H2.
  destruct (Z.eq_dec n 0) as [-> | Hn]; [discriminate Hcall |].
  destruct (@get_fold_names_run shuffle (init seed n len) Hn)
    as (g0 & Hinit & Hrun).
  cbn [init myseed len_data n_splits] in Hinit, Hrun.
  set (cv := shuffle seed (seq 0 len)) in *.
  assert (Hcv : length cv = len).
  { unfold cv. rewrite <- (Permutation_length (shuffle_perm seed (seq 0 len))).
    apply length_seq. }
  rewrite Hrun in Hcall. injection Hcall as <- _.
  assert (Hlt : S j < Z.to_nat n).
  { rewrite <- (length_run (Z.to_nat n) g0), <- (length_map (entry cv)).
    apply nth_error_Some. congruence. }
  rewrite nth_error_map, nth_error_run in H1, H2 by lia.
  injection H1 as <-. injection H2 as <-.
  change (after j (next g0)) with (after (S j) g0).
  rewrite after_next. cbn [entry test_names val_names]. rewrite te_ix_next.
  destruct (after_fields j g0) as (F & N & M & _).
  assert (Hg0 : fold g0 = 0%Z /\ n_splits g0 = n /\ md g0 = (Z.of_nat len mod n)%Z).
  { unfold init_indices in Hinit. cbn [set_l init n_splits l] in Hinit.
    destruct (n =? 0)%Z; [discriminate |]. injection Hinit as <-.
    cbn [fold n_splits md]. now rewrite length_seq, Hcv. }
  destruct Hg0 as (F0 & N0 & M0). rewrite F, N, M, F0, N0, M0, Z.add_0_l.
  destruct (_ && _)%bool; [| reflexivity].
  rewrite upto_minus_one, <- firstn_map, removelast_firstn_len, length_map.
  f_equal. lia.
Qed.

(** Even split: when the number of identifiers is a positive multiple of
    the split count, every fold has [len / n] test identifiers and the test
    subsets, in fold order, are consecutive pieces of the shuffled
    identifiers, so every identifier is tested exactly once. *)
Theorem even_split_tests (seed n : Z) (len : nat) :
  (1 <= n <= Z.of_nat len)%Z -> (Z.of_nat len mod n = 0)%Z ->
  exists names g',
    get_fold_names shuffle (init seed n len) = Ok (names, g') /\
    length names = Z.to_nat n /\
    (forall f, In f names ->
               Z.of_nat (length (test_names f)) = (Z.of_nat len / n)%Z) /\
    concat (map test_names names) = shuffle seed (seq 0 len) /\
    Permutation (concat (map test_names names)) (seq 0 len).
Proof.
  intros Hn Hr.
  set (cv := shuffle seed (seq 0 len)).
  assert (Hcv : length cv = len).
  { unfold cv. rewrite <- (Permutation_length (shuffle_perm seed (seq 0 len))).
    apply length_seq. }
  destruct (@get_fold_names_run shuffle (init seed n len) ltac:(simpl; lia))
    as (g0 & Hinit & Hrun).
  cbn [init myseed len_data n_splits] in Hinit, Hrun.
  fold cv in Hinit, Hrun. rewrite Hcv in Hinit.
  unfold init_indices in Hinit. cbn [set_l init n_splits l missing fold len_data
                                       myseed boost_val] in Hinit.
  destruct (Z.eqb_spec n 0) as [? | _]; [lia |].
  rewrite length_seq, Hr in Hinit. cbn [Z.gtb Z.compare] in Hinit.
  pose proof (Z.div_mod (Z.of_nat len) n ltac:(lia)) as Hdm.
  set (k := (Z.of_nat len / n)%Z) in *.
  assert (Hs : ceil_div (Z.of_nat len) n = k).
  { unfold ceil_div. rewrite Z.div_opp_l_z by lia. fold k. lia. }
  rewrite Hs in Hinit.
  assert (Hk : (1 <= k)%Z) by nia.
  set (t := seq 0 len) in *.
  assert (Ht : length t = len) by apply length_seq.
  rewrite !upto_nonneg, !from_nonneg in Hinit by lia.
  set (sn := Z.to_nat k) in *.
  injection Hinit as Hg0.
  assert (Hte : te_ix g0 = firstn sn t) by (now rewrite <- Hg0).
  assert (Hval : val_ix g0 = firstn sn (skipn sn t)) by (now rewrite <- Hg0).
  assert (Htr : tr_ix g0 = skipn sn (skipn sn t) ++ [])
    by (rewrite <- Hg0, app_nil_r; reflexivity).
  assert (Hfold : fold g0 = 0%Z) by (now rewrite <- Hg0).
  assert (Hmd : md g0 = 0%Z) by (now rewrite <- Hg0).
  assert (Hnsp : n_splits g0 = n) by (now rewrite <- Hg0).
  assert (Hsl : slicer g0 = k) by (now rewrite <- Hg0).
  assert (Hmi : missing g0 = 0%Z) by (now rewrite <- Hg0).
  assert (Hall : forall names,
             names = map (entry cv) (run (Z.to_nat n) g0) ->
             (forall f, In f names -> Z.of_nat (length (test_names f)) = k) /\
             concat (map test_names names) = cv).
  { intros names ->.
    destruct (Z.eq_dec n 1) as [-> | Hn1].
    - (* a single fold holds everything *)
      assert (k = Z.of_nat len) by lia.
      change (Z.to_nat 1) with 1. cbn [run map concat].
      assert (Efull : firstn sn t = t) by (apply firstn_all2; lia).
      split.
      + intros f [<- | []]. rewrite length_test_names_entry, Hte, Efull, Ht. lia.
      + cbn [entry test_names]. rewrite Hte, app_nil_r, Efull.
        unfold t. rewrite <- Hcv. apply map_nth_seq.
    - set (cnt := Z.to_nat n - 2).
      assert (Hcnt : Z.to_nat n = cnt + 2) by (unfold cnt; lia).
      set (fresh := skipn sn (skipn sn t)) in *.
      assert (Hfresh : length fresh = len - 2 * sn).
      { unfold fresh. rewrite !length_skipn, Ht. lia. }
      assert (Hneed : length fresh + 0 = need k 0 0 cnt).
      { apply Nat2Z.inj. rewrite need_closed by lia.
        rewrite Nat2Z.inj_add, Hfresh. unfold cnt, sn. nia. }
      assert (Htests : map te_ix (run (cnt + 2) g0)
                       = te_ix g0 :: val_ix g0 :: chunks k 0 0 cnt fresh).
      { replace (chunks k 0 0 cnt fresh)
          with (chunks k 0 (fold g0) cnt fresh) by (now rewrite Hfold).
        apply (@run_tests k 0%Z cnt g0 [] fresh Hsl Hmi ltac:(lia) Htr).
        - rewrite Hfold, Hnsp. unfold cnt. lia.
        - rewrite Hfold, Hmd. exact Hneed.
        - rewrite Hmd. discriminate. }
      rewrite Hcnt. split.
      + intros f Hf. apply in_map_iff in Hf. destruct Hf as (h & <- & Hh).
        rewrite length_test_names_entry.
        apply (in_map te_ix) in Hh. rewrite Htests in Hh.
        destruct Hh as [<- | [<- | Hh]].
        * rewrite Hte, length_firstn, Ht. unfold sn. nia.
        * rewrite Hval, length_firstn, length_skipn, Ht. unfold sn. nia.
        * apply In_nth with (d := []) in Hh. destruct Hh as (i & Hi & <-).
          assert (Hlc : length (chunks k 0 0 cnt fresh) = cnt).
          { apply length_chunks. }
          rewrite Hlc in Hi.
          rewrite (@chunks_length k 0%Z 0 cnt) with (j := 0%Z);
            try assumption; try lia; try discriminate.
          unfold size_at. cbn [Nat.eqb andb].
          destruct (Z.ltb_spec (0 + Z.of_nat i) 0); lia.
      + rewrite concat_tests_entry, Htests. cbn [concat].
        rewrite chunks_concat by lia.
        rewrite Hte, Hval. unfold fresh.
        rewrite (firstn_skipn sn (skipn sn t)), (firstn_skipn sn t).
        unfold t. rewrite <- Hcv. apply map_nth_seq. }
  eexists _, _. split; [exact Hrun |].
  destruct (Hall _ eq_refl) as (Hlen & Hcat).
  split; [now rewrite length_map, length_run |].
  split; [exact Hlen |]. split; [exact Hcat |].
  rewrite Hcat. symmetry. apply shuffle_perm.
Qed.

End Rotation.

Lemma test_is_previous_val_witness :
  test_names {| train_names := [0; 1; 2; 3]; val_names := [8; 9];
                test_names := [4; 5; 6; 7]; fold_ix := 1 |}
  = if ((Z.of_nat 0 =? 3 - 2)%Z && (Z.of_nat 10 mod 3 =? 1)%Z)%bool
    then removelast (val_names {| train_names := [8; 9]; val_names := [4; 5; 6; 7];
                                  test_names := [0; 1; 2; 3]; fold_ix := 0 |})
    else val_names {| train_names := [8; 9]; val_names := [4; 5; 6; 7];
                      test_names := [0; 1; 2; 3]; fold_ix := 0 |}.
Proof.
  destruct (get_fold_names (fun _ x => x) (init 0 3 10)) as [[names g'] | e] eqn:E;
    [| discriminate E].
  apply (@test_is_previous_val (fun _ x => x) (fun _ x => Permutation_refl x)
           0%Z 3%Z 10 names g' 0 _ _ E);
    vm_compute in E; injection E as <- _; reflexivity.
Defined.

Lemma even_split_tests_witness :
  exists names g',
    get_fold_names (fun _ x => rev x) (init 1 5 100) = Ok (names, g') /\
    length names = Z.to_nat 5 /\
    (forall f, In f names ->
               Z.of_nat (length (test_names f)) = (Z.of_nat 100 / 5)%Z) /\
    concat (map test_names names) = rev (seq 0 100) /\
    Permutation (concat (map test_names names)) (seq 0 100).
Proof.
  apply (@even_split_tests (fun _ x => rev x) (fun _ x => Permutation_rev x)
           1%Z 5%Z 100).
  - lia.
  - reflexivity.
Defined.

End FoldMore.

Module SplitsFacts.

Import Splits.

Lemma firstn_plus (A : Type) (s m : nat) :
  forall X : list A, firstn (s + m) X = firstn s X ++ firstn m (skipn s X).
Proof.
  induction s as [| s IH]; intros X; [reflexivity |].
  destruct X as [| x X]; simpl.
  - now rewrite firstn_nil.
  - now rewrite IH.
Qed.

Lemma concat_cut (A : Type) (sizes : list nat) :
  forall (start : nat) (ary : list A),
    concat (cut start sizes ary)
    = firstn (list_sum sizes) (skipn start ary).
Proof.
  induction sizes as [| s rest IH]; intros start ary; simpl; [reflexivity |].
  rewrite IH, firstn_plus, skipn_skipn.
  now rewrite (Nat.add_comm s start).
Qed.

Lemma length_cut (A : Type) (sizes : list nat) :
  forall (start : nat) (ary : list A), length (cut start sizes ary) = length sizes.
Proof.
  induction sizes as [| s rest IH]; intros start ary; simpl; [reflexivity |].
  now rewrite IH.
Qed.

Lemma nth_cut (A : Type) (sizes : list nat) :
  forall (start : nat) (ary : list A) (i : nat),
    start + list_sum sizes <= length ary ->
    i < length sizes ->
    length (nth i (cut start sizes ary) []) = nth i sizes 0.
Proof.
  induction sizes as [| s rest IH]; intros start ary i Hfit Hi; simpl in *; [lia |].
  destruct i as [| i].
  - rewrite length_firstn, length_skipn. lia.
  - apply IH; lia.
Qed.

Lemma list_sum_repeat (a n : nat) : list_sum (repeat a n) = n * a.
Proof. induction n as [| n IH]; simpl; [reflexivity | now rewrite IH]. Qed.

Lemma nth_repeat_app (a b n k i : nat) :
  i < n + k ->
  nth i (repeat a n ++ repeat b k) 0 = if i <? n then a else b.
Proof.
  intros Hi. destruct (Nat.ltb_spec i n) as [Hlt | Hge].
  - rewrite app_nth1 by (now rewrite repeat_length).
    apply nth_repeat_lt. assumption.
  - rewrite app_nth2 by (now rewrite repeat_length).
    rewrite repeat_length. apply nth_repeat_lt. lia.
Qed.

(** [generate_splits] with a positive split count shuffles the stored
    identifiers in place and returns that many parts: consecutive pieces of
    the shuffled identifiers, the first [len mod n] of them one longer than
    the others. *)
Theorem generate_splits_parts (shuffle : Z -> list nat -> list nat)
    (arg : option Z) (g : FoldGenerator) :
  let n := match arg with None => n_splits g | Some n => n end in
  let shuffled := shuffle (seed g) (ids g) in
  (0 < n)%Z ->
  exists parts g',
    generate_splits shuffle arg g = (Ok parts, g') /\
    ids g' = shuffled /\ splits g' = Some parts /\
    length parts = Z.to_nat n /\
    concat parts = shuffled /\
    forall i, i < Z.to_nat n ->
      length (nth i parts [])
      = length shuffled / Z.to_nat n
        + (if i <? length shuffled mod Z.to_nat n then 1 else 0).
Proof.
  intros n shuffled Hn. unfold generate_splits. fold n shuffled.
  unfold array_split. destruct (Z.leb_spec n 0) as [? | _]; [lia |].
  set (k := Z.to_nat n). set (len := length shuffled).
  assert (Hk : k <> 0) by (unfold k; lia).
  pose proof (Nat.div_mod_eq len k) as Hdm.
  pose proof (Nat.mod_upper_bound len k Hk) as Hr.
  set (sizes := repeat (len / k + 1) (len mod k) ++ repeat (len / k) (k - len mod k)).
  assert (Hsum : list_sum sizes = len).
  { unfold sizes. rewrite list_sum_app, !list_sum_repeat. nia. }
  assert (Hls : length sizes = k).
  { unfold sizes. rewrite length_app, !repeat_length. lia. }
  eexists _, _. split; [reflexivity |]. cbn [ids splits].
  repeat split.
  - rewrite length_cut. exact Hls.
  - rewrite concat_cut, Hsum. cbn [skipn]. apply firstn_all.
  - intros i Hi. rewrite nth_cut by (fold len; lia).
    unfold sizes. rewrite nth_repeat_app by lia.
    destruct (i <? len mod k); lia.
Qed.

Lemma generate_splits_parts_witness :
  exists parts g',
    generate_splits (fun _ x => rev x) None (init [10; 11; 12; 13; 14; 15; 16] 3 3)
    = (Ok parts, g') /\
    ids g' = rev [10; 11; 12; 13; 14; 15; 16] /\ splits g' = Some parts /\
    length parts = Z.to_nat 3 /\
    concat parts = rev [10; 11; 12; 13; 14; 15; 16] /\
    forall i, i < Z.to_nat 3 ->
      length (nth i parts [])
      = length (rev [10; 11; 12; 13; 14; 15; 16]) / Z.to_nat 3
        + (if i <? length (rev [10; 11; 12; 13; 14; 15; 16]) mod Z.to_nat 3
           then 1 else 0).
Proof.
  apply (@generate_splits_parts (fun _ x => rev x) None
           (init [10; 11; 12; 13; 14; 15; 16] 3 3)).
  reflexivity.
Defined.

End SplitsFacts.

Module SamplerMore.

Import PyNum Sampler SamplerSpec SamplerInv SamplerFacts.

Lemma scan_member (tbl : class_table) (nc rc : Z) (w : bool) (cands : list nat) :
  forall pick p,
    scan tbl nc rc w cands pick = Ok p -> p = pick \/ In p cands.
Proof.
  induction cands as [| cand rest IH]; intros pick p H; cbn [scan] in H.
  - left. congruence.
  - destruct (lookup tbl cand) as [tg | e]; [cbn [bind] in H | discriminate H].
    destruct (0 <? count_class tg rc).
    + destruct (argmin (class_histogram nc tg)) as [a | e];
        [cbn [bind] in H | discriminate H].
      destruct (negb (Z.of_nat a + 1 =? rc)%Z && true || w)%bool.
      * right. left. congruence.
      * right. destruct (IH _ _ H) as [-> | Hin]; [now left | now right].
    + destruct (IH _ _ H) as [-> | Hin]; [now left | right; now right].
Qed.

Lemma scan_total (tbl : class_table) (nc rc : Z) (w : bool) (cands : list nat) :
  (1 <= nc)%Z ->
  Forall (fun c => is_ok (lookup tbl c) = true) cands ->
  forall pick, exists p, scan tbl nc rc w cands pick = Ok p.
Proof.
  intros Hnc. induction 1 as [| cand rest Hc _ IH]; intros pick; cbn [scan].
  - eauto.
  - destruct (lookup tbl cand) as [tg | e]; [cbn [bind] | discriminate Hc].
    destruct (0 <? count_class tg rc); [| apply IH].
    destruct (argmin_histogram tg Hnc) as (a & ->). cbn [bind].
    destruct (negb (Z.of_nat a + 1 =? rc)%Z && true || w)%bool; [eauto | apply IH].
Qed.

Lemma scan_has_rarest (tbl : class_table) (nc rc : Z) (w : bool) (cands : list nat) :
  forall pick p,
    scan tbl nc rc w cands pick = Ok p ->
    has_rarest tbl rc pick = true \/ Exists (fun c => has_rarest tbl rc c = true) cands ->
    has_rarest tbl rc p = true.
Proof.
  induction cands as [| cand rest IH]; intros pick p H Hex; cbn [scan] in H.
  - destruct Hex as [Hp | Hex]; [congruence | inversion Hex].
  - destruct (lookup tbl cand) as [tg | e] eqn:Hl; [cbn [bind] in H | discriminate H].
    assert (Hhas : has_rarest tbl rc cand = (0 <? count_class tg rc)).
    { unfold has_rarest, targets_of. now rewrite Hl. }
    destruct (0 <? count_class tg rc) eqn:Hcnt.
    + destruct (argmin (class_histogram nc tg)) as [a | e];
        [cbn [bind] in H | discriminate H].
      destruct (negb (Z.of_nat a + 1 =? rc)%Z && true || w)%bool.
      * congruence.
      * apply (IH _ _ H). now left.
    + apply (IH _ _ H). destruct Hex as [Hp | Hex]; [now left |].
      inversion Hex; subst; [congruence | now right].
Qed.

Lemma filter_out_pick (x : nat) (l : list nat) :
  NoDup l -> In x l ->
  Permutation l (x :: filter (fun p => negb (p =? x)) l).
Proof.
  induction 1 as [| a l Hna Hnd IH]; intros Hin; [destruct Hin |].
  cbn [filter]. destruct (Nat.eqb_spec a x) as [-> | Hne]; cbn [negb].
  - apply perm_skip.
    clear IH Hin. induction l as [| b l IHl]; [constructor |].
    cbn [filter]. inversion Hnd; subst.
    destruct (Nat.eqb_spec b x) as [-> | _]; cbn [negb].
    + exfalso. apply Hna. now left.
    + apply perm_skip. apply IHl; [| assumption].
      intros Hc. apply Hna. now right.
  - destruct Hin as [-> | Hin]; [congruence |].
    rewrite perm_swap. apply perm_skip. now apply IH.
Qed.

Section Batch.

Variable rng : Type.
Variable randint : Z -> Z -> rng -> Z * rng.
Variable shuffle : list nat -> rng -> list nat * rng.
Hypothesis shuffle_perm : forall x r, Permutation x (fst (shuffle x r)).

Variable all_pids : list nat.
Variable class_targets : class_table.
Variable batch_size : Z.
Variable num_classes : Z.
Variable random_ratio : Q.

Hypothesis known :
  Forall (fun p => is_ok (lookup class_targets p) = true) all_pids.
Hypothesis classes : (1 <= num_classes)%Z.

Abbreviation step :=
  (slot shuffle all_pids class_targets batch_size num_classes random_ratio).
Abbreviation steps :=
  (slots shuffle all_pids class_targets batch_size num_classes random_ratio).

Lemma length_zrange (lo hi : Z) : length (zrange lo hi) = Z.to_nat (hi - lo).
Proof. unfold zrange. now rewrite length_map, length_seq. Qed.

Lemma pool_known (pool : list nat) :
  incl pool all_pids ->
  Forall (fun p => is_ok (lookup class_targets p) = true) pool.
Proof.
  intros Hin. apply Forall_forall. intros p Hp.
  rewrite Forall_forall in known. apply known, Hin, Hp.
Qed.

Lemma slot_kept (ix : Z) (st : sampler_state rng) :
  all_pids <> [] -> kept all_pids num_classes st ->
  exists st', step ix st = Ok st' /\ kept all_pids num_classes st' /\
    length (batch_patients st') = S (length (batch_patients st)).
Proof.
  intros Hne (Hnp & Hb & Hc). unfold slot.
  set (pool0 := if length (not_picked st) =? 0 then all_pids else not_picked st).
  assert (Hp0 : incl pool0 all_pids).
  { unfold pool0. destruct (length (not_picked st) =? 0);
      [apply incl_refl | assumption]. }
  assert (Hp0ne : pool0 <> []).
  { unfold pool0. destruct (Nat.eqb_spec (length (not_picked st)) 0) as [_ | Hl];
      [assumption |]. intros E. rewrite E in Hl. now apply Hl. }
  pose proof (shuffle_perm pool0 (random_state st)) as Hperm.
  destruct (shuffle pool0 (random_state st)) as [pool r]. cbn [fst] in Hperm.
  destruct pool as [| first rest].
  { apply Permutation_sym, Permutation_nil in Hperm. contradiction. }
  assert (Hpool : incl (first :: rest) all_pids).
  { intros p Hp. apply Hp0. apply (Permutation_in _ (Permutation_sym Hperm) Hp). }
  destruct (@scan_total class_targets num_classes (rarest_class_now st)
              (ix <? int_of_Q (inject_Z batch_size * random_ratio))%Z
              (first :: rest) classes (pool_known Hpool) first) as (pick & Hscan).
  rewrite Hscan. cbn [bind].
  assert (Hpick : In pick (first :: rest)).
  { destruct (scan_member _ _ _ _ _ _ Hscan) as [-> | Hin]; [now left | exact Hin]. }
  assert (Hl : is_ok (lookup class_targets pick) = true).
  { pose proof (pool_known Hpool) as Hk. rewrite Forall_forall in Hk. now apply Hk. }
  destruct (lookup class_targets pick) as [tg | e]; [cbn [bind] | discriminate Hl].
  set (counts := map (fun '(n, c) => n + count_class tg c)
                     (combine (class_counts st) (zrange 1 (num_classes + 1)))).
  assert (Hlc : length counts = Z.to_nat num_classes).
  { unfold counts. rewrite length_map, length_combine, length_zrange. lia. }
  destruct counts as [| c0 crest] eqn:Ec; [cbn [length] in Hlc; lia |].
  cbn [argmin bind]. eexists. split; [reflexivity |].
  cbn [not_picked batch_patients class_counts]. repeat split.
  - intros p Hp. apply filter_In in Hp. apply Hpool, Hp.
  - intros p Hp. apply in_app_or in Hp. destruct Hp as [Hp | [<- | []]];
      [now apply Hb | now apply Hpool].
  - exact Hlc.
  - rewrite length_app. cbn [length]. lia.
Qed.

Lemma slots_kept (ixs : list Z) :
  all_pids <> [] ->
  forall st, kept all_pids num_classes st ->
    exists st', steps ixs st = Ok st' /\ kept all_pids num_classes st' /\
      length (batch_patients st') = length (batch_patients st) + length ixs.
Proof.
  intros Hne. induction ixs as [| ix rest IH]; intros st Hk; cbn [slots].
  - exists st. repeat split; try apply Hk. cbn [length]. lia.
  - destruct (slot_kept ix Hne Hk) as (st1 & -> & Hk1 & Hl1). cbn [bind].
    destruct (IH _ Hk1) as (st2 & -> & Hk2 & Hl2).
    exists st2. repeat split; try apply Hk2. cbn [length]. lia.
Qed.

(** With at least one class, a table entry for every eligible patient and
    a shuffle that permutes, the sampler returns a batch of exactly
    [batch_size] patients, all of them eligible ones. *)
Theorem batch_is_full (r : rng) :
  (0 <= batch_size)%Z -> all_pids <> [] ->
  exists batch r',
    get_class_balanced_patients randint shuffle all_pids class_targets
      batch_size num_classes random_ratio r = Ok (batch, r') /\
    length batch = Z.to_nat batch_size /\
    incl batch all_pids.
Proof.
  intros Hbs Hne. unfold get_class_balanced_patients.
  destruct (Z.ltb_spec batch_size 0) as [? | _]; [lia |].
  destruct (Z.leb_spec (num_classes + 1) 1) as [? | _]; [lia |].
  destruct (randint 1 (num_classes + 1)%Z r) as [rarest r1].
  match goal with |- context [slots _ _ _ _ _ _ _ ?s] => set (st0 := s) end.
  assert (Hk0 : kept all_pids num_classes st0).
  { unfold kept, st0. cbn [not_picked batch_patients class_counts]. repeat split.
    - apply incl_refl.
    - intros p [].
    - rewrite length_map, length_zrange. lia. }
  destruct (slots_kept (zrange 0 batch_size) Hne Hk0) as (st' & -> & Hk & Hl).
  cbn [bind]. eexists _, _. split; [reflexivity |]. split.
  - rewrite Hl, length_zrange. unfold st0. cbn [batch_patients length]. lia.
  - apply Hk.
Qed.

(** Without eligible patients a batch of one or more cannot be drawn: the
    first pick reads position 0 of an empty pool. *)
Theorem empty_pool_fails (r : rng) :
  all_pids = [] -> (1 <= batch_size)%Z ->
  get_class_balanced_patients randint shuffle all_pids class_targets
    batch_size num_classes random_ratio r = Raise IndexError.
Proof.
  intros He Hbs. unfold get_class_balanced_patients.
  destruct (Z.ltb_spec batch_size 0) as [? | _]; [lia |].
  destruct (Z.leb_spec (num_classes + 1) 1) as [? | _]; [lia |].
  destruct (randint 1 (num_classes + 1)%Z r) as [rarest r1].
  unfold zrange. destruct (Z.to_nat (batch_size - 0)) as [| k] eqn:Ek; [lia |].
  cbn [seq map slots]. unfold slot at 1. rewrite He.
  cbn [not_picked length Nat.eqb random_state].
  pose proof (shuffle_perm [] r1) as Hperm.
  destruct (shuffle [] r1) as [pool r2]. cbn [fst] in Hperm.
  apply Permutation_nil in Hperm. subst pool. reflexivity.
Qed.

(** Whenever a patient of the pool a pass draws from has a region of the
    class that is rarest at that moment, the patient the pass picks has
    one. *)
Theorem pick_has_rarest_class (ix : Z) (st st' : sampler_state rng) :
  step ix st = Ok st' ->
  Exists (fun c => has_rarest class_targets (rarest_class_now st) c = true)
    (if length (not_picked st) =? 0 then all_pids else not_picked st) ->
  exists pick,
    batch_patients st' = batch_patients st ++ [pick] /\
    has_rarest class_targets (rarest_class_now st) pick = true.
Proof.
  unfold slot. intros H Hex.
  set (pool0 := if length (not_picked st) =? 0 then all_pids else not_picked st) in *.
  pose proof (shuffle_perm pool0 (random_state st)) as Hperm.
  destruct (shuffle pool0 (random_state st)) as [pool r]. cbn [fst] in Hperm.
  destruct pool as [| first rest]; [discriminate H |].
  destruct (scan class_targets num_classes (rarest_class_now st)
              (ix <? int_of_Q (inject_Z batch_size * random_ratio))%Z
              (first :: rest) first) as [pick | e] eqn:Hscan;
    [cbn [bind] in H | discriminate H].
  destruct (lookup class_targets pick) as [tg | e]; [cbn [bind] in H | discriminate H].
  destruct (argmin _) as [a | e]; [cbn [bind] in H | discriminate H].
  injection H as <-. cbn [batch_patients]. exists pick. split; [reflexivity |].
  apply (scan_has_rarest _ _ _ _ _ Hscan). right.
  apply Exists_exists in Hex. destruct Hex as (c & Hc & Hhas).
  apply Exists_exists. exists c. split; [| exact Hhas].
  apply (Permutation_in _ Hperm Hc).
Qed.

Hypothesis distinct : NoDup all_pids.

Lemma slot_unspent (ix : Z) (st st' : sampler_state rng) :
  step ix st = Ok st' ->
  not_picked st <> [] -> unspent all_pids st ->
  unspent all_pids st' /\ S (length (not_picked st')) = length (not_picked st).
Proof.
  unfold slot, unspent. intros H Hne Hu.
  destruct (Nat.eqb_spec (length (not_picked st)) 0) as [Hl | _].
  { destruct (not_picked st); [now elim Hne | discriminate Hl]. }
  pose proof (shuffle_perm (not_picked st) (random_state st)) as Hperm.
  destruct (shuffle (not_picked st) (random_state st)) as [pool r].
  cbn [fst] in Hperm.
  destruct pool as [| first rest]; [discriminate H |].
  destruct (scan class_targets num_classes (rarest_class_now st)
              (ix <? int_of_Q (inject_Z batch_size * random_ratio))%Z
              (first :: rest) first) as [pick | e] eqn:Hscan;
    [cbn [bind] in H | discriminate H].
  destruct (lookup class_targets pick) as [tg | e]; [cbn [bind] in H | discriminate H].
  destruct (argmin _) as [a | e]; [cbn [bind] in H | discriminate H].
  injection H as <-. cbn [not_picked batch_patients].
  assert (Hpick : In pick (first :: rest)).
  { destruct (scan_member _ _ _ _ _ _ Hscan) as [-> | Hin]; [now left | exact Hin]. }
  assert (Hnd : NoDup (first :: rest)).
  { apply (Permutation_NoDup Hperm).
    apply (Permutation_NoDup (Permutation_sym Hu)) in distinct.
    now apply NoDup_app_remove_l in distinct. }
  pose proof (@filter_out_pick pick _ Hnd Hpick) as Hf.
  split.
  - rewrite <- Hu, <- app_assoc. apply Permutation_app_head.
    cbn [app]. now rewrite <- Hf, Hperm.
  - apply Permutation_length in Hf. apply Permutation_length in Hperm.
    cbn [length filter] in Hf, Hperm |- *. lia.
Qed.

Lemma slots_unspent (ixs : list Z) :
  forall st st',
    steps ixs st = Ok st' ->
    length ixs <= length (not_picked st) -> unspent all_pids st ->
    unspent all_pids st' /\ length (not_picked st') + length ixs = length (not_picked st).
Proof.
  induction ixs as [| ix rest IH]; intros st st' H Hlen Hu; cbn [slots] in H.
  - injection H as <-. split; [assumption | cbn [length]; lia].
  - destruct (step ix st) as [st1 | e] eqn:H1; [cbn [bind] in H | discriminate H].
    cbn [length] in Hlen.
    assert (Hne : not_picked st <> []).
    { intros E. rewrite E in Hlen. cbn [length] in Hlen. lia. }
    destruct (@slot_unspent ix st st1 H1 Hne Hu) as (Hu1 & Hl1).
    destruct (IH _ _ H ltac:(lia) Hu1) as (Hu2 & Hl2).
    split; [assumption | cbn [length]; lia].
Qed.

(** Drawn from distinct patients, a batch no larger than their number
    holds no patient twice; a batch of all of them is a permutation of
    them. *)
Theorem batch_is_unique (r r' : rng) (batch : list nat) :
  (batch_size <= Z.of_nat (length all_pids))%Z ->
  get_class_balanced_patients randint shuffle all_pids class_targets
    batch_size num_classes random_ratio r = Ok (batch, r') ->
  NoDup batch /\
  (batch_size = Z.of_nat (length all_pids) -> Permutation batch all_pids).
Proof.
  intros Hbs. unfold get_class_balanced_patients.
  destruct (Z.ltb_spec batch_size 0) as [? | Hb0]; [discriminate |].
  destruct (Z.leb_spec (num_classes + 1) 1) as [? | _]; [discriminate |].
  destruct (randint 1 (num_classes + 1)%Z r) as [rarest r1].
  match goal with |- context [slots _ _ _ _ _ _ _ ?s] => set (st0 := s) end.
  destruct (steps (zrange 0 batch_size) st0) as [st' | e] eqn:Hs;
    [cbn [bind] | discriminate].
  intros H. injection H as <- <-.
  assert (Hu0 : unspent all_pids st0).
  { unfold unspent, st0. cbn [batch_patients not_picked app]. reflexivity. }
  assert (Hlen : length (zrange 0 batch_size) <= length (not_picked st0)).
  { rewrite length_zrange. unfold st0. cbn [not_picked]. lia. }
  destruct (slots_unspent _ Hs Hlen Hu0) as (Hu & Hl). unfold unspent in Hu.
  split.
  - apply (Permutation_NoDup (Permutation_sym Hu)) in distinct.
    now apply NoDup_app_remove_r in distinct.
  - intros Hall. rewrite length_zrange in Hl.
    unfold st0 in Hl. cbn [not_picked] in Hl.
    destruct (not_picked st') as [| x xs]; [| cbn [length] in Hl; lia].
    now rewrite app_nil_r in Hu.
Qed.

End Batch.

(** A generator for the examples: [randint] returns the lower bound and
    [shuffle] reverses. *)
Lemma rev_shuffle_perm :
  forall (x : list nat) (r : unit), Permutation x (fst (rev x, r)).
Proof. intros x r. apply Permutation_rev. Qed.

Lemma batch_is_full_witness :
  exists batch r',
    get_class_balanced_patients (fun lo _ r => (lo, r)) (fun x r => (rev x, r))
      [1; 2; 3] [(1, [1; 2]%Z); (2, [2]%Z); (3, [1; 1]%Z)] 5 2 0 tt
    = Ok (batch, r') /\
    length batch = Z.to_nat 5 /\ incl batch [1; 2; 3].
Proof.
  apply (@batch_is_full unit (fun lo _ r => (lo, r)) (fun x r => (rev x, r))
           rev_shuffle_perm [1; 2; 3] [(1, [1; 2]%Z); (2, [2]%Z); (3, [1; 1]%Z)]
           5%Z 2%Z 0%Q).
  - repeat constructor.
  - lia.
  - lia.
  - discriminate.
Defined.

Lemma empty_pool_fails_witness :
  get_class_balanced_patients (fun lo _ r => (lo, r)) (fun x r => (rev x, r))
    [] [(1, [1; 2]%Z)] 1 2 0 tt
  = Raise IndexError.
Proof.
  apply (@empty_pool_fails unit (fun lo _ r => (lo, r)) (fun x r => (rev x, r))
           rev_shuffle_perm [] [(1, [1; 2]%Z)] 1%Z 2%Z 0%Q).
  - lia.
  - reflexivity.
  - lia.
Defined.

Lemma pick_has_rarest_class_witness :
  let st := {| not_picked := [1; 2; 3]; class_counts := [0; 0];
               rarest_class_now := 2%Z; batch_patients := []; random_state := tt |} in
  let st' := {| not_picked := [3; 1]; class_counts := [0; 1];
                rarest_class_now := 1%Z; batch_patients := [2]; random_state := tt |} in
  exists pick,
    batch_patients st' = batch_patients st ++ [pick] /\
    has_rarest [(1, [1]%Z); (2, [2]%Z); (3, [1; 1]%Z)] (rarest_class_now st) pick = true.
Proof.
  intros st st'.
  apply (@pick_has_rarest_class unit (fun x r => (rev x, r)) rev_shuffle_perm
           [1; 2; 3] [(1, [1]%Z); (2, [2]%Z); (3, [1; 1]%Z)] 3%Z 2%Z 0%Q 0%Z st st').
  - reflexivity.
  - right. left. reflexivity.
Defined.

Lemma batch_is_unique_witness :
  NoDup [3; 1; 2] /\ (3%Z = Z.of_nat (length [1; 2; 3]) -> Permutation [3; 1; 2] [1; 2; 3]).
Proof.
  apply (@batch_is_unique unit (fun lo _ r => (lo, r)) (fun x r => (rev x, r))
           rev_shuffle_perm [1; 2; 3] [(1, [1; 2]%Z); (2, [2]%Z); (3, [1; 1]%Z)]
           3%Z 2%Z 0%Q ltac:(repeat constructor; simpl; intuition lia) tt tt).
  - simpl. lia.
  - vm_compute. reflexivity.
Defined.

End SamplerMore.

From Stdlib Require Import Lqa.

Module PatchMore.

Import PyNum PatchGrid PatchSpec.

Open Scope Q_scope.

Lemma inject_Z_sub (a b : Z) : inject_Z (a - b) == inject_Z a - inject_Z b.
Proof. unfold Z.sub, Qminus. now rewrite inject_Z_plus, inject_Z_opp. Qed.

Lemma floor_unique (y : Q) (z : Z) :
  inject_Z z <= y -> y < inject_Z z + 1 -> Qfloor y = z.
Proof.
  intros Hlo Hhi.
  pose proof (Qfloor_le y) as H1. pose proof (Qlt_floor y) as H2.
  rewrite inject_Z_plus in H2. change (inject_Z 1) with 1 in H2.
  assert (Ha : (Qfloor y < z + 1)%Z).
  { rewrite Zlt_Qlt, inject_Z_plus. change (inject_Z 1) with 1. lra. }
  assert (Hb : (z < Qfloor y + 1)%Z).
  { rewrite Zlt_Qlt, inject_Z_plus. change (inject_Z 1) with 1. lra. }
  lia.
Qed.

Lemma ceiling_unique (y : Q) (z : Z) :
  inject_Z z - 1 < y -> y <= inject_Z z -> Qceiling y = z.
Proof.
  intros Hlo Hhi.
  pose proof (Qle_ceiling y) as H1. pose proof (Qceiling_lt y) as H2.
  replace (Qceiling y - 1)%Z with (Qceiling y + -1)%Z in H2 by lia.
  rewrite inject_Z_plus in H2. change (inject_Z (-1)) with (-1 # 1) in H2.
  assert (Ha : (Qceiling y < z + 1)%Z).
  { rewrite Zlt_Qlt, inject_Z_plus. change (inject_Z 1) with 1. lra. }
  assert (Hb : (z < Qceiling y + 1)%Z).
  { rewrite Zlt_Qlt, inject_Z_plus. change (inject_Z 1) with 1. lra. }
  lia.
Qed.

Lemma int_of_Q_floor (x : Q) : 0 <= x -> int_of_Q x = Qfloor x.
Proof.
  intros H. unfold int_of_Q.
  destruct (Qle_bool 0 x) eqn:E; [reflexivity |].
  apply Qle_bool_iff in H. congruence.
Qed.

Lemma int_of_Q_ceiling (x : Q) : x < 0 -> int_of_Q x = Qceiling x.
Proof.
  intros H. unfold int_of_Q.
  destruct (Qle_bool 0 x) eqn:E; [| reflexivity].
  apply Qle_bool_iff in E. lra.
Qed.

Lemma round_half_even_near (x : Q) :
  x - (1 # 2) <= inject_Z (round_half_even x) <= x + (1 # 2).
Proof.
  unfold round_half_even.
  pose proof (Qfloor_le x) as H1. pose proof (Qlt_floor x) as H2.
  rewrite inject_Z_plus in H2. change (inject_Z 1) with 1 in H2.
  destruct (Qcompare_spec (x - inject_Z (Qfloor x)) (1 # 2)) as [He | Hl | Hg].
  - destruct (Z.even (Qfloor x)).
    + lra.
    + rewrite inject_Z_plus. change (inject_Z 1) with 1. lra.
  - lra.
  - rewrite inject_Z_plus. change (inject_Z 1) with 1. lra.
Qed.

Lemma share_bounds (a : Q) (k i : Z) :
  0 <= a -> (0 < k)%Z -> (0 <= i <= k)%Z ->
  0 <= a / inject_Z k * inject_Z i <= a.
Proof.
  intros Ha Hk Hi.
  assert (Hk' : 0 < inject_Z k) by (change 0 with (inject_Z 0); now rewrite <- Zlt_Qlt).
  assert (Hi0 : 0 <= inject_Z i) by (change 0 with (inject_Z 0); now rewrite <- Zle_Qle).
  assert (Hik : inject_Z i <= inject_Z k) by (now rewrite <- Zle_Qle).
  set (d := a / inject_Z k).
  assert (Hd : d * inject_Z k == a).
  { unfold d. rewrite Qmult_comm. apply Qmult_div_r. lra. }
  assert (Hd0 : 0 <= d).
  { unfold d. apply Qle_shift_div_l; [assumption | lra]. }
  split; nra.
Qed.

Lemma half_sum (p : Z) :
  inject_Z p / inject_Z 2 + inject_Z p / inject_Z 2 == inject_Z p.
Proof. change (inject_Z 2) with 2. field. Qed.

Lemma crop_in_order (s p c : Z) :
  (2 <= p)%Z -> (p < s)%Z ->
  inject_Z p / inject_Z 2 - (1 # 2) <= inject_Z c ->
  inject_Z c <= inject_Z s - inject_Z p / inject_Z 2 + (1 # 2) ->
  in_order s p (int_of_Q (inject_Z c - inject_Z p / inject_Z 2))
               (int_of_Q (inject_Z c + inject_Z p / inject_Z 2)).
Proof.
  intros Hp Hps Hlo Hhi.
  pose proof (half_sum p) as Hh.
  set (half := inject_Z p / inject_Z 2) in *.
  assert (HpQ : 2 <= inject_Z p) by (change 2 with (inject_Z 2); now rewrite <- Zle_Qle).
  set (lo := inject_Z c - half). set (hi := inject_Z c + half).
  assert (Hhl : hi == lo + inject_Z p) by (unfold hi, lo; lra).
  assert (Hhi0 : 0 <= hi) by (unfold hi; lra).
  rewrite (int_of_Q_floor Hhi0).
  assert (Hmin : Z.min s p = p) by lia.
  unfold in_order. rewrite Hmin.
  destruct (Qlt_le_dec lo 0) as [Hneg | Hpos].
  - rewrite (int_of_Q_ceiling Hneg).
    assert (Ea : Qceiling lo = 0%Z).
    { apply ceiling_unique; change (inject_Z 0) with 0; unfold lo in *; lra. }
    assert (Eb : Qfloor hi = (p - 1)%Z).
    { apply floor_unique; rewrite inject_Z_sub; change (inject_Z 1) with 1;
        unfold lo in *; lra. }
    rewrite Ea, Eb. repeat split; try lia.
    intros Hev. exfalso.
    apply Z.even_spec in Hev. destruct Hev as (h & Eh).
    assert (Ehalf : half == inject_Z h).
    { unfold half. rewrite Eh, inject_Z_mult. change (inject_Z 2) with 2. field. }
    assert (Hc : (c < h)%Z).
    { rewrite Zlt_Qlt. unfold lo in Hneg. lra. }
    assert (Hc' : inject_Z c <= inject_Z h - 1).
    { change 1 with (inject_Z 1). rewrite <- inject_Z_sub, <- Zle_Qle. lia. }
    lra.
  - rewrite (int_of_Q_floor Hpos).
    pose proof (Qfloor_le lo) as F1. pose proof (Qlt_floor lo) as F2.
    rewrite inject_Z_plus in F2. change (inject_Z 1) with 1 in F2.
    assert (Eb : Qfloor hi = (Qfloor lo + p)%Z).
    { apply floor_unique; rewrite inject_Z_plus; lra. }
    assert (Ha0 : (0 <= Qfloor lo)%Z).
    { assert (H : (-1 < Qfloor lo)%Z); [| lia].
      rewrite Zlt_Qlt. change (inject_Z (-1)) with (-1 # 1). lra. }
    assert (Hbs : (Qfloor lo + p < s + 1)%Z).
    { rewrite Zlt_Qlt, !inject_Z_plus. change (inject_Z 1) with 1. unfold hi, lo in *. lra. }
    rewrite Eb. repeat split; try lia.
Qed.

Close Scope Q_scope.

Lemma int_of_Q_Z (z : Z) : int_of_Q (inject_Z z) = z.
Proof.
  unfold int_of_Q. rewrite Qfloor_Z, Qceiling_Z. now destruct (Qle_bool 0 (inject_Z z)).
Qed.

Lemma for_each_ok (A B : Type) (x : list A) (body : A -> result (list B))
    (g : A -> list B) :
  (forall a, In a x -> body a = Ok (g a)) ->
  for_each x body = Ok (flat_map g x).
Proof.
  induction x as [| a rest IH]; intros H; [reflexivity |].
  cbn [for_each flat_map].
  rewrite (H a (or_introl eq_refl)). cbn [bind].
  rewrite IH by (intros b Hb; apply H; now right).
  reflexivity.
Qed.

Lemma flat_map_nonempty (A B : Type) (g : A -> list B) (x : list A) :
  x <> [] -> (forall a, In a x -> g a <> []) -> flat_map g x <> [].
Proof.
  destruct x as [| a rest]; [congruence |].
  intros _ H. cbn [flat_map].
  specialize (H a (or_introl eq_refl)).
  destruct (g a); [congruence | discriminate].
Qed.

Lemma flat_map_single (A B : Type) (f : A -> B) (x : list A) :
  flat_map (fun a => [f a]) x = map f x.
Proof.
  induction x as [| a rest IH]; [reflexivity |].
  cbn [flat_map map app]. now rewrite IH.
Qed.

(** An axis-0 extent of 0 with a positive minimum overlap ends in a
    division by zero: the patch count 0 is raised to 1, and the distance
    between centres divides by the count less one. *)
Theorem empty_axis_divides_by_zero (shape patch_size : list Z) (p : Z)
    (min_overlap : Q) :
  (1 <= p)%Z -> (0 < min_overlap)%Q ->
  get_patch_crop_coords (0%Z :: shape) (p :: patch_size) min_overlap
  = Raise ZeroDivisionError.
Proof.
  intros Hp Hmo. unfold get_patch_crop_coords. cbn [all_axes item nth_error bind].
  assert (E : axis_crop_coords 0 p min_overlap = Raise ZeroDivisionError);
    [| now rewrite E].
  unfold axis_crop_coords.
  destruct (Z.eqb_spec p 0) as [? | _]; [lia |].
  assert (HpQ : (1 <= inject_Z p)%Q) by
    (change 1%Q with (inject_Z 1); now rewrite <- Zle_Qle).
  assert (En : Qceiling (inject_Z 0 / inject_Z p) = 0%Z).
  { apply ceiling_unique; change (inject_Z 0) with 0%Q.
    - unfold Qdiv. rewrite Qmult_0_l. reflexivity.
    - unfold Qdiv. rewrite Qmult_0_l. apply Qle_refl. }
  rewrite En. cbn [Z.eqb].
  destruct (Qlt_le_dec _ _) as [_ | Hge]; [reflexivity |].
  exfalso. change (0 - 1)%Z with (-1)%Z in Hge.
  assert (Ed : (inject_Z (0 - p) / inject_Z (-1) == inject_Z p)%Q).
  { rewrite inject_Z_sub. change (inject_Z 0) with 0%Q.
    change (inject_Z (-1)) with (-1 # 1)%Q. field. }
  rewrite Ed in Hge. lra.
Qed.

Lemma empty_axis_divides_by_zero_witness :
  get_patch_crop_coords [0; 64]%Z [32; 32]%Z (inject_Z 30) = Raise ZeroDivisionError.
Proof.
  apply (@empty_axis_divides_by_zero [64%Z] [32%Z] 32 (inject_Z 30)).
  - lia.
  - reflexivity.
Defined.

End PatchMore.

Module PadMore.

Import NdArray Padder PadSpec PadSteps PadFacts.

Lemma length_shape (A : Type) (n : nat) :
  forall x : ndarray A n, length (shape n x) = n.
Proof.
  induction n as [| n IH]; intros x; [reflexivity |].
  cbn [shape length]. f_equal.
  destruct x as [| y rest]; [apply repeat_length | apply IH].
Qed.

Lemma from_last (B : Type) (k : nat) (x : list B) :
  1 <= k <= length x ->
  PySlice.from (- Z.of_nat k) x = skipn (length x - k) x.
Proof.
  intros Hk. unfold PySlice.from, PySlice.bound.
  destruct (Z.ltb_spec (- Z.of_nat k) 0); [| lia].
  f_equal. lia.
Qed.

Lemma from_last_all (B : Type) (k : nat) (x : list B) :
  length x < k -> PySlice.from (- Z.of_nat k) x = x.
Proof.
  intros Hk. unfold PySlice.from, PySlice.bound.
  destruct (Z.ltb_spec (- Z.of_nat k) 0); [| lia].
  replace (Z.to_nat (Z.of_nat (length x) + - Z.of_nat k)) with 0 by lia.
  reflexivity.
Qed.

Lemma sub_target (old : list Z) :
  forall tgt, length tgt = length old ->
    np_sub tgt old = Ok (map (fun '(t, o) => (t - o)%Z) (combine tgt old)).
Proof.
  intros tgt H. unfold np_sub. now rewrite H, Nat.eqb_refl.
Qed.

Lemma padded_target (sh : list nat) :
  forall tgt : list Z,
    Forall2 (fun o t => (Z.of_nat o <= t)%Z) sh tgt ->
    let d := map (fun '(t, o) => (t - o)%Z) (combine tgt (map Z.of_nat sh)) in
    map Z.of_nat
      (padded_shape sh (combine (map (fun d => (d / 2)%Z) d)
                                (map (fun d => (d / 2 + d mod 2)%Z) d)))
    = tgt /\
    Forall (fun p => (0 <= fst p)%Z /\ (0 <= snd p)%Z)
      (combine (map (fun d => (d / 2)%Z) d)
               (map (fun d => (d / 2 + d mod 2)%Z) d)).
Proof.
  induction 1 as [| o t sh tgt Hot _ IH]; cbn zeta in *.
  - split; [reflexivity | constructor].
  - destruct IH as (IH1 & IH2). unfold padded_shape in *. cbn [combine map].
    set (x := (t - Z.of_nat o)%Z).
    assert (0 <= x)%Z by (unfold x; lia).
    pose proof (Z.div_mod x 2 ltac:(lia)).
    pose proof (Z.mod_pos_bound x 2 ltac:(lia)).
    assert (0 <= x / 2)%Z by (apply Z.div_pos; lia).
    split.
    + rewrite IH1. f_equal. unfold x in *. lia.
    + constructor; [cbn [fst snd]; lia | exact IH2].
Qed.

(** From the final shape on: the image is padded to it, and the slicer
    crops the image back out. *)
Lemma finish_spec (A : Type) (n : nat) (image : ndarray A n) (tgt : list Z) :
  has_shape n (shape n image) image ->
  Forall (fun k => 0 < k) (shape n image) ->
  1 <= length tgt <= n ->
  Forall2 (fun o t => (Z.of_nat o <= t)%Z)
    (skipn (n - length tgt) (shape n image)) tgt ->
  exists res slicer,
    finish n image (Z.of_nat n - Z.of_nat (length tgt)) tgt
      (skipn (n - length tgt) (map Z.of_nat (shape n image))) true
    = Ok (res, Some slicer) /\
    index_slices n slicer res = Ok image /\
    skipn (n - length tgt) (map Z.of_nat (shape n res)) = tgt.
Proof.
  intros Hrect Hpos HT Hle.
  set (sh := shape n image) in *.
  pose proof (@length_shape A n image) as Hn. fold sh in Hn.
  set (k := length tgt) in *.
  set (old := skipn (n - k) (map Z.of_nat sh)).
  assert (Hold : length old = k).
  { unfold old. rewrite length_skipn, length_map. lia. }
  unfold finish. rewrite sub_target by (fold k; lia). cbn [bind].
  destruct (@padded_target (skipn (n - k) sh) tgt Hle) as (Hshape_t & Hnn_t).
  cbn zeta in Hshape_t, Hnn_t. rewrite <- skipn_map in Hshape_t, Hnn_t.
  fold old in Hshape_t, Hnn_t.
  set (d := map (fun '(t, o) => (t - o)%Z) (combine tgt old)) in *.
  set (pads := combine (map (fun d => (d / 2)%Z) d)
                       (map (fun d => (d / 2 + d mod 2)%Z) d)) in *.
  assert (Hd : length d = k).
  { unfold d. rewrite length_map, length_combine. fold k. lia. }
  assert (Hpads : length pads = k).
  { unfold pads. rewrite length_combine, !length_map. lia. }
  replace (Z.to_nat (Z.of_nat n - Z.of_nat k)) with (n - k) by lia.
  set (pad_list := repeat (0%Z, 0%Z) (n - k) ++ pads).
  assert (Hlen : length pad_list = n).
  { unfold pad_list. rewrite length_app, repeat_length. lia. }
  assert (Hnn : Forall (fun p => (0 <= fst p)%Z /\ (0 <= snd p)%Z) pad_list).
  { unfold pad_list. apply Forall_app. split; [| exact Hnn_t].
    apply Forall_forall. intros p Hp. apply repeat_spec in Hp. subst p.
    simpl. lia. }
  destruct (@pad_edge_spec A n sh pad_list image Hrect Hpos Hlen Hnn)
    as (res & Hres & Hshape & Hcrop).
  rewrite Hres. cbn [bind negb].
  assert (Hrs : shape n res = padded_shape sh pad_list).
  { apply shape_has_shape; [exact Hshape |]. now apply padded_positive. }
  rewrite Hrs, length_map, length_padded by lia.
  rewrite Hlen, Hn, Nat.eqb_refl. cbn [negb].
  rewrite slicer_crop by assumption.
  eexists _, _. split; [reflexivity |]. split; [exact Hcrop |].
  rewrite Hrs. unfold pad_list, padded_shape.
  rewrite <- (firstn_skipn (n - k) sh) at 1.
  rewrite combine_app by (rewrite length_firstn, repeat_length; lia).
  rewrite !map_app, skipn_app.
  assert (Hlead : length (map Z.of_nat
                    (map (fun '(k0, (b, a)) => Z.to_nat b + k0 + Z.to_nat a)
                       (combine (firstn (n - k) sh) (repeat (0%Z, 0%Z) (n - k)))))
                  = n - k).
  { rewrite !length_map, length_combine, length_firstn, repeat_length. lia. }
  rewrite Hlead, Nat.sub_diag, skipn_all2 by lia. cbn [skipn app].
  exact Hshape_t.
Qed.

Lemma round_up_spec (s k : Z) :
  (1 <= k)%Z ->
  (round_up s k mod k = 0 /\ s <= round_up s k < s + k)%Z.
Proof.
  intros Hk. unfold round_up, np_mod.
  destruct (Z.eqb_spec k 0) as [? | _]; [lia |].
  pose proof (Z.div_mod s k ltac:(lia)) as Hdm.
  pose proof (Z.mod_pos_bound s k ltac:(lia)) as Hb.
  destruct (Z.eqb_spec (s mod k) 0) as [E | Hne].
  - assert (Em : ((s - k) mod k = 0)%Z).
    { replace (s - k)%Z with (s + (-1) * k)%Z by lia.
      now rewrite Z.mod_add by lia. }
    rewrite Em. split; [| lia].
    replace (s - k + k - 0)%Z with s by lia. exact E.
  - split; [| lia].
    replace (s + k - s mod k)%Z with ((s / k + 1) * k)%Z by lia.
    apply Z.mod_mul. lia.
Qed.

Lemma rounding_list (ns : list Z) :
  forall ks,
    map (fun '(s, k) => (s + k - np_mod s k)%Z)
        (combine (map (fun '(s, k) => if (np_mod s k =? 0)%Z then (s - k)%Z else s)
                      (combine ns ks)) ks)
    = map (fun '(s, k) => round_up s k) (combine ns ks).
Proof.
  induction ns as [| s ns IH]; intros [| k ks]; try reflexivity.
  cbn [combine map]. now rewrite IH.
Qed.

Lemma rounded_finish (A : Type) (n : nat) (image : ndarray A n) (ns ks : list Z) :
  has_shape n (shape n image) image ->
  Forall (fun k => 0 < k) (shape n image) ->
  1 <= length ns <= n ->
  length ks = length ns ->
  Forall (fun k => (1 <= k)%Z) ks ->
  Forall2 (fun o s => (Z.of_nat o <= s)%Z) (skipn (n - length ns) (shape n image)) ns ->
  exists res slicer,
    finish n image (Z.of_nat n - Z.of_nat (length ns))
      (map (fun '(s, k) => round_up s k) (combine ns ks))
      (skipn (n - length ns) (map Z.of_nat (shape n image))) true
    = Ok (res, Some slicer) /\
    index_slices n slicer res = Ok image /\
    Forall2 (fun r sk => (r mod snd sk = 0 /\ fst sk <= r < fst sk + snd sk)%Z)
      (skipn (n - length ns) (map Z.of_nat (shape n res))) (combine ns ks).
Proof.
  intros Hrect Hpos Hlen Hks Hk1 Hle.
  set (tgt := map (fun '(s, k) => round_up s k) (combine ns ks)).
  assert (Ht : length tgt = length ns).
  { unfold tgt. rewrite length_map, length_combine. lia. }
  assert (Hsk : Forall2 (fun r sk => (r mod snd sk = 0
                                      /\ fst sk <= r < fst sk + snd sk)%Z)
                  tgt (combine ns ks)).
  { unfold tgt. clear - Hk1. revert ks Hk1.
    induction ns as [| s ns IH]; intros [| k ks] Hk1; cbn [combine map];
      try constructor.
    - cbn [fst snd]. apply round_up_spec. now inversion Hk1.
    - apply IH. now inversion Hk1. }
  assert (Hle' : Forall2 (fun o t => (Z.of_nat o <= t)%Z)
                   (skipn (n - length tgt) (shape n image)) tgt).
  { rewrite Ht. unfold tgt. clear - Hle Hk1 Hks. revert ks Hk1 Hks.
    induction Hle as [| o s old ns Hos _ IH]; intros [| k ks] Hk1 Hks;
      cbn [combine map]; try constructor; try discriminate.
    - pose proof (@round_up_spec s k ltac:(now inversion Hk1)). lia.
    - apply IH; [now inversion Hk1 | now injection Hks]. }
  destruct (@finish_spec A n image tgt Hrect Hpos ltac:(lia) Hle')
    as (res & slicer & H1 & H2 & H3).
  rewrite Ht in H1, H3. exists res, slicer.
  split; [exact H1 |]. split; [exact H2 |]. now rewrite H3.
Qed.

Lemma combine_repeat (B C : Type) (c : C) (x : list B) :
  combine x (repeat c (length x)) = map (fun b => (b, c)) x.
Proof.
  induction x as [| b x IH]; [reflexivity |].
  cbn [length repeat combine map]. now rewrite IH.
Qed.

Lemma Forall2_map_right (B C D : Type) (P : B -> D -> Prop) (f : C -> D)
    (x : list B) (y : list C) :
  Forall2 P x (map f y) -> Forall2 (fun b c => P b (f c)) x y.
Proof.
  revert x. induction y as [| c y IH]; intros x H; inversion H; subst;
    constructor; [assumption | now apply IH].
Qed.

Lemma max_self (x : list Z) :
  map (fun '(a, b) => Z.max a b) (combine x x) = x.
Proof.
  induction x as [| a x IH]; [reflexivity |].
  cbn [combine map]. now rewrite IH, Z.max_id.
Qed.

Lemma max_above (old : list nat) :
  forall T : list Z, length T = length old ->
    Forall2 (fun o s => (Z.of_nat o <= s)%Z) old
      (map (fun '(t, o) => Z.max t o) (combine T (map Z.of_nat old))).
Proof.
  induction old as [| o old IH]; intros [| t T] H; try discriminate;
    cbn [map combine]; constructor; [lia |].
  apply IH. now injection H.
Qed.

(** With a target shape and a divisor [k >= 1], [pad_nd_image] pads every
    trailing axis to the least multiple of [k] that reaches
    [max(T[d], image.shape[d])], and the slicer crops the image back out. *)
Theorem pad_to_multiple (A : Type) (n : nat) (image : ndarray A n) (T : list Z)
    (k : Z) :
  has_shape n (shape n image) image ->
  Forall (fun k => 0 < k) (shape n image) ->
  1 <= length T <= n ->
  (1 <= k)%Z ->
  exists res slicer,
    pad_nd_image n image (Some T) true (DivScalar k) = Ok (res, Some slicer) /\
    index_slices n slicer res = Ok image /\
    Forall2 (fun r m => (r mod k = 0 /\ m <= r < m + k)%Z)
      (skipn (n - length T) (map Z.of_nat (shape n res)))
      (map (fun '(t, o) => Z.max t o)
           (combine T (skipn (n - length T) (map Z.of_nat (shape n image))))).
Proof.
  intros Hrect Hpos HT Hk.
  pose proof (@length_shape A n image) as Hn.
  set (old := skipn (n - length T) (map Z.of_nat (shape n image))).
  assert (Hold : length old = length T).
  { unfold old. rewrite length_skipn, length_map. lia. }
  set (ns := map (fun '(t, o) => Z.max t o) (combine T old)).
  assert (Hns : length ns = length T).
  { unfold ns. rewrite length_map, length_combine. lia. }
  destruct (@rounded_finish A n image ns (repeat k (length ns)) Hrect Hpos
              ltac:(lia) ltac:(apply repeat_length)
              ltac:(apply Forall_forall; intros x Hx; apply repeat_spec in Hx; lia))
    as (res & slicer & H1 & H2 & H3).
  { rewrite Hns. unfold ns, old. rewrite skipn_map. apply max_above.
    rewrite length_skipn. lia. }
  exists res, slicer. rewrite Hns in H1, H3.
  split; [| split; [exact H2 |]].
  - unfold pad_nd_image. cbn [bind].
    rewrite from_last by (rewrite length_map; lia).
    rewrite !length_map, Hn. fold old.
    rewrite mapM_item_max by lia. fold ns. cbn [bind].
    rewrite rounding_list, Hns. exact H1.
  - rewrite <- Hns, combine_repeat in H3.
    apply Forall2_map_right in H3. rewrite Hns in H3. exact H3.
Qed.

Lemma pad_to_multiple_witness :
  exists res slicer,
    pad_nd_image 2 [[1; 2; 3]; [4; 5; 6]] (Some [5]%Z) true (DivScalar 4)
    = Ok (res, Some slicer) /\
    index_slices 2 slicer res = Ok [[1; 2; 3]; [4; 5; 6]] /\
    Forall2 (fun r m => (r mod 4 = 0 /\ m <= r < m + 4)%Z)
      (skipn (2 - 1) (map Z.of_nat (shape 2 res)))
      (map (fun '(t, o) => Z.max t o)
           (combine [5]%Z
              (skipn (2 - 1) (map Z.of_nat (shape 2 [[1; 2; 3]; [4; 5; 6]]))))).
Proof.
  apply (@pad_to_multiple nat 2 [[1; 2; 3]; [4; 5; 6]] [5]%Z 4%Z).
  - simpl. repeat constructor.
  - simpl. repeat constructor.
  - simpl. lia.
  - lia.
Defined.

(** Without a target shape and with one divisor per trailing axis, each
    at least 1, [pad_nd_image] pads every such axis to the least multiple
    of its divisor that reaches the extent of the image, and the slicer
    crops the image back out. *)
Theorem pad_shape_to_multiples (A : Type) (n : nat) (image : ndarray A n)
    (ks : list Z) :
  has_shape n (shape n image) image ->
  Forall (fun k => 0 < k) (shape n image) ->
  1 <= length ks <= n ->
  Forall (fun k => (1 <= k)%Z) ks ->
  exists res slicer,
    pad_nd_image n image None true (DivList ks) = Ok (res, Some slicer) /\
    index_slices n slicer res = Ok image /\
    Forall2 (fun r ok => (r mod snd ok = 0 /\ fst ok <= r < fst ok + snd ok)%Z)
      (skipn (n - length ks) (map Z.of_nat (shape n res)))
      (combine (skipn (n - length ks) (map Z.of_nat (shape n image))) ks).
Proof.
  intros Hrect Hpos HT Hk.
  pose proof (@length_shape A n image) as Hn.
  set (old := skipn (n - length ks) (map Z.of_nat (shape n image))).
  assert (Hold : length old = length ks).
  { unfold old. rewrite length_skipn, length_map. lia. }
  destruct (@rounded_finish A n image old ks Hrect Hpos ltac:(lia) ltac:(lia) Hk)
    as (res & slicer & H1 & H2 & H3).
  { rewrite Hold. unfold old. rewrite skipn_map.
    generalize (skipn (n - length ks) (shape n image)). intros x.
    induction x as [| o x IH]; cbn [map]; constructor; [lia | exact IH]. }
  exists res, slicer. rewrite Hold in H1, H3.
  split; [| split; [exact H2 | exact H3]].
  unfold pad_nd_image. cbn [bind].
  rewrite from_last by (rewrite length_map; lia).
  rewrite !length_map, Hn. fold old. rewrite Hold.
  rewrite <- Hold at 1. rewrite mapM_item_max by reflexivity.
  rewrite max_self. cbn [bind]. rewrite Hold, Nat.eqb_refl. cbn [bind].
  rewrite rounding_list. exact H1.
Qed.

Lemma pad_shape_to_multiples_witness :
  exists res slicer,
    pad_nd_image 2 [[1; 2; 3]; [4; 5; 6]] None true (DivList [4; 2]%Z)
    = Ok (res, Some slicer) /\
    index_slices 2 slicer res = Ok [[1; 2; 3]; [4; 5; 6]] /\
    Forall2 (fun r ok => (r mod snd ok = 0 /\ fst ok <= r < fst ok + snd ok)%Z)
      (skipn (2 - 2) (map Z.of_nat (shape 2 res)))
      (combine (skipn (2 - 2) (map Z.of_nat (shape 2 [[1; 2; 3]; [4; 5; 6]])))
               [4; 2]%Z).
Proof.
  apply (@pad_shape_to_multiples nat 2 [[1; 2; 3]; [4; 5; 6]] [4; 2]%Z).
  - simpl. repeat constructor.
  - simpl. repeat constructor.
  - simpl. lia.
  - repeat constructor; lia.
Defined.

Lemma mapM_id (B : Type) (f : B -> result B) (x : list B) :
  (forall b, f b = Ok b) -> mapM f x = Ok x.
Proof.
  intros H. induction x as [| b x IH]; [reflexivity |].
  cbn [mapM]. now rewrite H, IH.
Qed.

Lemma pad_zero (A : Type) (n : nat) :
  forall x : ndarray A n, np_pad_edge n (repeat (0%Z, 0%Z) n) x = Ok x.
Proof.
  induction n as [| n IH]; intros x; [reflexivity |].
  change (repeat (0%Z, 0%Z) (S n)) with ((0%Z, 0%Z) :: repeat (0%Z, 0%Z) n).
  cbn [np_pad_edge]. change (0 <? 0)%Z with false. cbn [orb].
  pose proof (@mapM_id (ndarray A n) (np_pad_edge n (repeat (0%Z, 0%Z) n)) x IH) as E.
  match goal with
  | |- bind _ ?K = _ => refine (eq_trans (f_equal (fun r => bind r K) E) _)
  end.
  cbn [bind Z.to_nat].
  unfold pad_axis. destruct x as [| first rest]; [reflexivity |].
  cbn [repeat app]. now rewrite app_nil_r.
Qed.

Lemma zero_pads (T old : list Z) :
  Forall2 (fun t o => (t <= o)%Z) T old ->
  let d := map (fun '(x, y) => (x - y)%Z)
             (combine (map (fun '(a, b) => Z.max a b) (combine T old)) old) in
  combine (map (fun d => (d / 2)%Z) d) (map (fun d => (d / 2 + d mod 2)%Z) d)
  = repeat (0%Z, 0%Z) (length T).
Proof.
  induction 1 as [| t o T old Hto _ IH]; [reflexivity |].
  cbn zeta in *. cbn [combine map length repeat]. rewrite IH.
  replace (Z.max t o - o)%Z with 0%Z by lia. reflexivity.
Qed.

Lemma zero_slicer (sh : list Z) :
  map (fun '((below, above), s) => (below, (s - above)%Z))
      (combine (repeat (0%Z, 0%Z) (length sh)) sh)
  = map (fun s => (0%Z, s)) sh.
Proof.
  induction sh as [| s sh IH]; [reflexivity |].
  cbn [length repeat combine map]. now rewrite IH, Z.sub_0_r.
Qed.

(** A target shape that no trailing axis of the image falls short of
    leaves the image as it is, and the slicer selects all of it. *)
Theorem pad_nothing_to_do (A : Type) (n : nat) (image : ndarray A n)
    (T : list Z) (return_slicer : bool) :
  1 <= length T <= n ->
  Forall2 (fun t o => (t <= o)%Z) T
    (skipn (n - length T) (map Z.of_nat (shape n image))) ->
  pad_nd_image n image (Some T) return_slicer DivNone
  = Ok (image,
        if return_slicer
        then Some (map (fun s => (0%Z, Z.of_nat s)) (shape n image))
        else None).
Proof.
  intros HT Hle.
  pose proof (@length_shape A n image) as Hn.
  set (old := skipn (n - length T) (map Z.of_nat (shape n image))) in *.
  assert (Hold : length old = length T).
  { unfold old. rewrite length_skipn, length_map. lia. }
  unfold pad_nd_image. cbn [bind].
  rewrite from_last by (rewrite length_map; lia).
  rewrite !length_map, Hn. fold old.
  rewrite mapM_item_max by lia. cbn [bind].
  unfold np_sub. rewrite length_map, length_combine, Hold, Nat.min_id, Nat.eqb_refl.
  cbn [bind]. rewrite (zero_pads Hle), <- repeat_app.
  replace (Z.to_nat (Z.of_nat n - Z.of_nat (length T)) + length T) with n by lia.
  match goal with
  | |- bind _ ?K = _ =>
      refine (eq_trans (f_equal (fun r => bind r K) (@pad_zero A n image)) _)
  end.
  cbn [bind].
  destruct return_slicer; cbn [negb]; [| reflexivity].
  rewrite length_map, Hn, repeat_length, Nat.eqb_refl. cbn [negb].
  replace (repeat (0%Z, 0%Z) n)
    with (repeat (0%Z, 0%Z) (length (map Z.of_nat (shape n image))))
    by (now rewrite length_map, Hn).
  rewrite zero_slicer, map_map.
  reflexivity.
Qed.

Lemma pad_nothing_to_do_witness :
  pad_nd_image 2 [[1; 2; 3]; [4; 5; 6]] (Some [2]%Z) true DivNone
  = Ok ([[1; 2; 3]; [4; 5; 6]], Some [(0, 2); (0, 3)]%Z).
Proof.
  apply (@pad_nothing_to_do nat 2 [[1; 2; 3]; [4; 5; 6]] [2]%Z true).
  - simpl. lia.
  - simpl. repeat constructor. lia.
Defined.

Lemma mapM_first_error (B C : Type) (f : B -> result C) (e : exn)
    (pre : list B) (b : B) (post : list B) :
  Forall (fun a => is_ok (f a) = true) pre ->
  f b = Raise e ->
  mapM f (pre ++ b :: post) = Raise e.
Proof.
  intros Hpre Hb. induction Hpre as [| a pre Ha _ IH]; cbn [app mapM].
  - now rewrite Hb.
  - destruct (f a); [| discriminate Ha]. cbn [bind]. now rewrite IH.
Qed.

(** A target shape with more entries than the image has axes ends in an
    [IndexError]: the image shape is read past its end. *)
Theorem pad_target_too_long (A : Type) (n : nat) (image : ndarray A n)
    (T : list Z) (return_slicer : bool) (d : divisor) :
  n < length T ->
  pad_nd_image n image (Some T) return_slicer d = Raise IndexError.
Proof.
  intros HT.
  pose proof (@length_shape A n image) as Hn.
  unfold pad_nd_image. cbn [bind].
  rewrite from_last_all by (rewrite length_map; lia).
  assert (Hseq : seq 0 (length T) = seq 0 n ++ n :: seq (S n) (length T - S n)).
  { replace (length T) with (n + S (length T - S n)) at 1 by lia.
    now rewrite seq_app. }
  rewrite Hseq.
  rewrite (@mapM_first_error _ _ _ IndexError); [reflexivity | |].
  - apply Forall_forall. intros i Hi. apply in_seq in Hi.
    unfold item.
    destruct (nth_error T i) eqn:E1;
      [| apply nth_error_None in E1; lia].
    destruct (nth_error (map Z.of_nat (shape n image)) i) eqn:E2;
      [reflexivity | apply nth_error_None in E2; rewrite length_map in E2; lia].
  - unfold item.
    destruct (nth_error T n) eqn:E1; [| apply nth_error_None in E1; lia].
    cbn [bind].
    destruct (nth_error (map Z.of_nat (shape n image)) n) eqn:E2; [| reflexivity].
    assert (Hlt : n < length (map Z.of_nat (shape n image))).
    { apply nth_error_Some. congruence. }
    rewrite length_map in Hlt. lia.
Qed.

Lemma pad_target_too_long_witness :
  pad_nd_image 1 [1; 2; 3] (Some [4; 4]%Z) false DivNone = Raise IndexError.
Proof.
  apply (@pad_target_too_long nat 1 [1; 2; 3] [4; 4]%Z false DivNone).
  simpl. lia.
Defined.

End PadMore.

Module BBoxMore.

Import PyNum NdArray BBox BBoxSpec BBoxOut BBoxFacts.

Lemma fold_min_in (l : list Z) : forall a, In (fold_left Z.min l a) (a :: l).
Proof.
  induction l as [| x l IH]; intros a; cbn [fold_left]; [now left |].
  destruct (IH (Z.min a x)) as [E | Hin].
  - rewrite <- E.
    destruct (Z.min_spec a x) as [(_ & ->) | (_ & ->)]; [now left | right; now left].
  - right. right. exact Hin.
Qed.

Lemma fold_max_in (l : list Z) : forall a, In (fold_left Z.max l a) (a :: l).
Proof.
  induction l as [| x l IH]; intros a; cbn [fold_left]; [now left |].
  destruct (IH (Z.max a x)) as [E | Hin].
  - rewrite <- E.
    destruct (Z.max_spec a x) as [(_ & ->) | (_ & ->)]; [right; now left | now left].
  - right. right. exact Hin.
Qed.

Lemma fold_max_ge (l : list Z) :
  forall a x, In x (a :: l) -> (x <= fold_left Z.max l a)%Z.
Proof.
  induction l as [| y l IH]; intros a x Hin; cbn [fold_left].
  - destruct Hin as [<- | []]. lia.
  - destruct Hin as [<- | [<- | Hin]].
    + specialize (IH (Z.max a y) (Z.max a y) (or_introl eq_refl)). lia.
    + specialize (IH (Z.max a y) (Z.max a y) (or_introl eq_refl)). lia.
    + apply IH. now right.
Qed.

Lemma column_rows (c : nat) (rows : list (list Z)) (vals : list Z) :
  column c rows = Ok vals ->
  (forall row, In row rows -> exists v, nth_error row c = Some v /\ In v vals) /\
  (forall v, In v vals -> exists row, In row rows /\ nth_error row c = Some v).
Proof.
  unfold column. intros H. apply mapM_ok_Forall2 in H.
  induction H as [| row v rows vals Hrv _ IH].
  - split; intros ? [].
  - destruct IH as (IH1 & IH2).
    assert (Hn : nth_error row c = Some v).
    { unfold item in Hrv. destruct (nth_error row c); congruence. }
    split.
    + intros r [<- | Hin].
      * exists v. split; [exact Hn | now left].
      * destruct (IH1 _ Hin) as (w & Hw & Hin'). exists w. split; [exact Hw | now right].
    + intros w [<- | Hin].
      * exists row. split; [now left | exact Hn].
      * destruct (IH2 _ Hin) as (r & Hr & Hw). exists r. split; [now right | exact Hw].
Qed.

Lemma column_spans (c : nat) (rows : list (list Z)) (vals : list Z) (mn mx : Z) :
  column c rows = Ok vals ->
  np_min vals = Ok mn -> np_max vals = Ok mx ->
  spans c rows (mn - 1) (mx + 1).
Proof.
  intros Hc Hmn Hmx. destruct (column_rows _ _ Hc) as (Hrows & Hvals).
  destruct vals as [| a l]; [discriminate Hmn |].
  cbn [np_min np_max] in Hmn, Hmx.
  injection Hmn as <-. injection Hmx as <-.
  unfold spans. repeat split.
  - intros row Hin. destruct (Hrows _ Hin) as (v & Hv & Hvin).
    exists v. split; [exact Hv |].
    pose proof (@fold_min_le l a v Hvin). pose proof (@fold_max_ge l a v Hvin). lia.
  - destruct (Hvals _ (fold_min_in l a)) as (row & Hin & Hv).
    exists row. split; [exact Hin |]. rewrite Hv. f_equal. lia.
  - destruct (Hvals _ (fold_max_in l a)) as (row & Hin & Hv).
    exists row. split; [exact Hin |]. rewrite Hv. f_equal. lia.
Qed.

Lemma coord_list_tight (dim : Z) (rows : list (list Z)) (box : list Z) :
  coord_list dim rows = Ok box -> tight_box dim rows box.
Proof.
  unfold coord_list. intros H.
  inv_bind H. rename a into ys. rename Ha into Hys.
  inv_bind H. rename a into ymin. rename Ha into Hymin.
  inv_bind H. rename a into xs. rename Ha into Hxs.
  inv_bind H. rename a into xmin. rename Ha into Hxmin.
  inv_bind H. rename a into ymax. rename Ha into Hymax.
  inv_bind H. rename a into xmax. rename Ha into Hxmax.
  pose proof (column_spans _ _ Hys Hymin Hymax) as Sy.
  pose proof (column_spans _ _ Hxs Hxmin Hxmax) as Sx.
  unfold tight_box. destruct (dim =? 3)%Z.
  - inv_bind H. rename a into zs. rename Ha into Hzs.
    inv_bind H. rename a into zmin. rename Ha into Hzmin.
    inv_bind H. rename a into zmax. rename Ha into Hzmax.
    injection H as <-.
    exists (ymin - 1)%Z, (xmin - 1)%Z, (ymax + 1)%Z, (xmax + 1)%Z,
           [zmin - 1; zmax + 1]%Z.
    repeat split; try apply Sy; try apply Sx.
    exists (zmin - 1)%Z, (zmax + 1)%Z. split; [reflexivity |].
    exact (column_spans _ _ Hzs Hzmin Hzmax).
  - injection H as <-.
    exists (ymin - 1)%Z, (xmin - 1)%Z, (ymax + 1)%Z, (xmax + 1)%Z, [].
    repeat split; try apply Sy; try apply Sx.
Qed.

Section ConvertMore.

Variable lb : forall n : nat, ndarray Z n -> ndarray Z n * nat.
Variable m : nat.
Variable dim : Z.
Variable roi_item_keys : list String.string.
Variable get_rois_from_seg : bool.
Variable class_specific_seg : bool.

Abbreviation convert :=
  (convert_seg_to_bounding_box_coordinates lb m dim roi_item_keys
     get_rois_from_seg class_specific_seg).

(** Every box the call returns is the tight box around the voxels of the
    mask returned at the same position, with one voxel of margin: each
    voxel lies strictly inside it, and on every axis a voxel sits next to
    the lower and next to the upper bound. *)
Theorem box_is_tight (seg : list (ndarray Z m)) (d : dict (list pyval))
    (out : converted m) (b j : nat) (boxes : list (list Z)) (box : list Z) :
  convert seg d = Ok out ->
  nth_error (new_bb_target out) b = Some boxes ->
  nth_error boxes j = Some box ->
  exists masks mask,
    nth_error (new_roi_masks out) b = Some masks /\
    nth_error masks j = Some mask /\
    tight_box dim (argwhere m mask) box.
Proof.
  unfold convert_seg_to_bounding_box_coordinates. intros H Hb Hj.
  inv_bind H. rename a into st. inv_bind H. injection H as <-.
  cbn [new_bb_target new_roi_masks] in *.
  apply process_batch_boxes in Ha; [| constructor].
  destruct (Forall2_nth_left Ha _ Hb) as (masks & Hmasks & Hboxed).
  destruct (Hboxed _ _ Hj) as (mask & Hmask & Hbox).
  exists masks, mask. repeat split; try assumption.
  now apply coord_list_tight.
Qed.

Lemma process_roi_out_seg (d : dict (list pyval)) (b : nat) (seg_b : ndarray Z m)
    (acc acc' : sample_acc m) (rix : nat) (r : ndarray Z m) :
  class_specific_seg = false ->
  process_roi dim roi_item_keys class_specific_seg d b seg_b acc rix r = Ok acc' ->
  out_seg_b acc' = out_seg_b acc.
Proof.
  intros Hcs. unfold process_roi. rewrite Hcs. intros H.
  inv_bind H. injection H as <-.
  destruct (0 <? count_nonzero m r).
  - inv_bind Ha. inv_bind Ha. inv_bind Ha. destruct a2 as [c | ?]; [| discriminate].
    destruct (1 <=? c)%Z; [| discriminate]. now injection Ha as <-.
  - now injection Ha as <-.
Qed.

Lemma process_rois_masks (d : dict (list pyval)) (b : nat) (seg_b : ndarray Z m)
    (rois : list (ndarray Z m)) :
  forall (acc acc' : sample_acc m) (rix : nat),
    process_rois dim roi_item_keys class_specific_seg d b seg_b acc rix rois = Ok acc' ->
    p_roi_masks_list acc'
    = p_roi_masks_list acc ++ filter (fun r => 0 <? count_nonzero m r) rois /\
    length (p_coords_list acc')
    = length (p_coords_list acc)
      + length (filter (fun r => 0 <? count_nonzero m r) rois) /\
    (class_specific_seg = false -> out_seg_b acc' = out_seg_b acc).
Proof.
  induction rois as [| r rest IH]; intros acc acc' rix H; cbn [process_rois] in H.
  - injection H as <-. cbn [filter]. rewrite app_nil_r. repeat split. cbn [length]. lia.
  - inv_bind H. rename a into acc1.
    destruct (IH _ _ _ H) as (E1 & E2 & E3). cbn [filter].
    assert (E4 : class_specific_seg = false -> out_seg_b acc' = out_seg_b acc).
    { intros Hcs. rewrite (E3 Hcs). exact (process_roi_out_seg _ _ _ _ _ _ Hcs Ha). }
    apply process_roi_fields in Ha.
    destruct Ha
      as [(Hz & F1 & F2 & _) | (Hz & coords & lists & c & _ & _ & _ & _ & F1 & F2 & _)];
      rewrite Hz, E1, E2, F1, F2.
    + repeat split; assumption.
    + rewrite <- app_assoc, length_app. cbn [app length]. repeat split; [lia | assumption].
Qed.

Lemma zip_self (f : Z -> Z -> Z) (n : nat) :
  forall x : ndarray Z n,
    nd_zip_with f n x x = nd_map (fun s => f s s) n x.
Proof.
  induction n as [| n IH]; intros x; [reflexivity |].
  cbn [nd_zip_with nd_map].
  induction x as [| a x IHx]; [reflexivity |].
  cbn [combine map]. now rewrite IH, IHx.
Qed.

Lemma all_zero_map (f : Z -> Z) (n : nat) :
  f 0%Z = 0%Z ->
  forall x : ndarray Z n, count_nonzero n x = 0 -> nd_map f n x = x.
Proof.
  intros Hf. unfold count_nonzero.
  induction n as [| n IH]; intros x H.
  - cbn [argwhere] in H. cbn [nd_map].
    destruct (Z.eqb_spec x 0) as [E | _]; [| discriminate H].
    exact (eq_trans (f_equal f E) (eq_trans Hf (eq_sym E))).
  - cbn [argwhere] in H. cbn [nd_map].
    revert H. generalize 0 at 1. induction x as [| a x IHx]; intros k H;
      [reflexivity |].
    cbn [length seq combine map concat] in H.
    rewrite length_app, length_map in H. cbn [map].
    rewrite (IH a) by lia. f_equal. apply (IHx (S k)). lia.
Qed.

Lemma process_sample_out (st st' : batch_acc m) (b : nat) (seg_b : ndarray Z m) :
  process_sample lb dim roi_item_keys get_rois_from_seg class_specific_seg
    st b seg_b = Ok st' ->
  exists boxes masks outb,
    bb_target st' = bb_target st ++ [boxes] /\
    roi_masks st' = roi_masks st ++ [masks] /\
    out_seg st' = out_seg st ++ [outb] /\
    sample_rois lb m get_rois_from_seg seg_b boxes masks /\
    (class_specific_seg = false -> outb = binarised m seg_b).
Proof.
  unfold process_sample, sample_rois. intros H.
  destruct (0 <? count_nonzero m seg_b) eqn:Hfg.
  - inv_bind H. destruct a as [n_cands d1]. rename Ha into Hr.
    inv_bind H. rename a into acc. rename Ha into Hrois.
    inv_bind H. injection H as <-. cbn [bb_target roi_masks out_seg].
    destruct (process_rois_masks _ _ _ _ _ _ Hrois) as (E1 & E2 & E3).
    cbn [p_roi_masks_list p_coords_list out_seg_b app length] in E1, E2, E3.
    eexists _, _, _. repeat split.
    + exists n_cands. repeat split.
      * unfold candidates. destruct get_rois_from_seg.
        -- destruct (lb m seg_b) as [cl nc]. inv_bind Hr. inv_bind Hr. inv_bind Hr.
           injection Hr as <- _. reflexivity.
        -- inv_bind Hr. injection Hr as <- _. assumption.
      * exact E1.
      * rewrite E1. exact E2.
    + intros Hcs. rewrite Hcs, (E3 Hcs). unfold binarised. apply zip_self.
  - inv_bind H. injection H as <-. cbn [bb_target roi_masks out_seg].
    eexists _, _, _. repeat split.
    intros _. unfold binarised. symmetry. apply all_zero_map; [reflexivity |].
    apply Nat.ltb_ge in Hfg. lia.
Qed.

Lemma process_batch_out (segs : list (ndarray Z m)) :
  forall (st st' : batch_acc m) (b : nat),
    process_batch lb dim roi_item_keys get_rois_from_seg class_specific_seg
      st b segs = Ok st' ->
    exists bs ms os,
      bb_target st' = bb_target st ++ bs /\
      roi_masks st' = roi_masks st ++ ms /\
      out_seg st' = out_seg st ++ os /\
      length bs = length segs /\ length ms = length segs /\
      length os = length segs /\
      forall i seg_b,
        nth_error segs i = Some seg_b ->
        exists boxes masks outb,
          nth_error bs i = Some boxes /\ nth_error ms i = Some masks /\
          nth_error os i = Some outb /\
          sample_rois lb m get_rois_from_seg seg_b boxes masks /\
          (class_specific_seg = false -> outb = binarised m seg_b).
Proof.
  induction segs as [| seg_b rest IH]; intros st st' b H; cbn [process_batch] in H.
  - injection H as <-. exists [], [], []. rewrite !app_nil_r.
    repeat split. intros [| i] s Hs; discriminate Hs.
  - inv_bind H. rename a into st1.
    destruct (process_sample_out _ _ _ Ha) as (boxes & masks & outb & B1 & B2 & B3 & B4 & B5).
    destruct (IH _ _ _ H) as (bs & ms & os & C1 & C2 & C3 & L1 & L2 & L3 & C4).
    exists (boxes :: bs), (masks :: ms), (outb :: os).
    rewrite C1, C2, C3, B1, B2, B3, <- !app_assoc. cbn [app length].
    repeat split; try lia.
    intros [| i] s Hs; cbn [nth_error] in *.
    + injection Hs as <-. exists boxes, masks, outb. auto.
    + exact (C4 _ _ Hs).
Qed.

(** The call returns one list of boxes, one list of masks and one
    segmentation per sample.  A sample with foreground gets the non-empty
    candidate masks in label order and one box per mask; a sample without
    gets no box and a single all-zero mask. *)
Theorem one_entry_per_sample (seg : list (ndarray Z m)) (d : dict (list pyval))
    (out : converted m) :
  convert seg d = Ok out ->
  length (new_bb_target out) = length seg /\
  length (new_roi_masks out) = length seg /\
  length (new_seg out) = length seg /\
  forall b seg_b,
    nth_error seg b = Some seg_b ->
    exists boxes masks,
      nth_error (new_bb_target out) b = Some boxes /\
      nth_error (new_roi_masks out) b = Some masks /\
      sample_rois lb m get_rois_from_seg seg_b boxes masks.
Proof.
  unfold convert_seg_to_bounding_box_coordinates. intros H.
  inv_bind H. rename a into st. inv_bind H. injection H as <-.
  cbn [new_bb_target new_roi_masks new_seg].
  destruct (process_batch_out _ _ _ Ha) as (bs & ms & os & C1 & C2 & C3 & L1 & L2 & L3 & C4).
  cbn [bb_target roi_masks out_seg app] in C1, C2, C3. rewrite C1, C2, C3.
  repeat split; try assumption.
  intros b seg_b Hb. destruct (C4 _ _ Hb) as (boxes & masks & outb & N1 & N2 & _ & S & _).
  exists boxes, masks. auto.
Qed.

Lemma map_by_index (B C : Type) (f : B -> C) (x : list B) :
  forall y : list C,
    length y = length x ->
    (forall i b, nth_error x i = Some b -> nth_error y i = Some (f b)) ->
    y = map f x.
Proof.
  induction x as [| b x IH]; intros [| c y] Hl H; try discriminate; [reflexivity |].
  cbn [map]. f_equal.
  - specialize (H 0 b eq_refl). cbn [nth_error] in H. congruence.
  - apply IH; [now injection Hl |]. intros i b' Hi. exact (H (S i) b' Hi).
Qed.

Lemma dict_get_pop_other (V : Type) (d0 : dict V) (k k' : String.string) :
  k <> k' -> dict_get (dict_pop d0 k) k' = dict_get d0 k'.
Proof.
  intros Hne. induction d0 as [| [k0 v] rest IH]; [reflexivity |].
  cbn [dict_pop dict_get].
  destruct (String.eqb_spec k0 k) as [-> | Hk0].
  - destruct (String.eqb_spec k k') as [-> | _]; [congruence | reflexivity].
  - cbn [dict_get]. now rewrite IH.
Qed.

Lemma process_sample_other (st st' : batch_acc m) (b : nat) (seg_b : ndarray Z m)
    (k : String.string) :
  process_sample lb dim roi_item_keys get_rois_from_seg class_specific_seg
    st b seg_b = Ok st' ->
  k <> "class_targets"%string ->
  dict_get (data st') k = dict_get (data st) k.
Proof.
  unfold process_sample. intros H Hk.
  destruct (0 <? count_nonzero m seg_b).
  - inv_bind H. destruct a as [n_cands d1]. rename Ha into Hr.
    inv_bind H. inv_bind H. injection H as <-. cbn [data].
    destruct get_rois_from_seg.
    + destruct (lb m seg_b) as [cl nc]. inv_bind Hr. inv_bind Hr. inv_bind Hr.
      injection Hr as _ <-. apply dict_get_set_other. congruence.
    + inv_bind Hr. now injection Hr as _ <-.
  - inv_bind H. now injection H as <-.
Qed.

Lemma process_batch_other (segs : list (ndarray Z m)) (k : String.string) :
  k <> "class_targets"%string ->
  forall (st st' : batch_acc m) (b : nat),
    process_batch lb dim roi_item_keys get_rois_from_seg class_specific_seg
      st b segs = Ok st' ->
    dict_get (data st') k = dict_get (data st) k.
Proof.
  intros Hk. induction segs as [| seg_b rest IH]; intros st st' b H;
    cbn [process_batch] in H.
  - now injection H as <-.
  - inv_bind H. rewrite (IH _ _ _ H). exact (process_sample_other _ _ _ Ha Hk).
Qed.

(** An entry of [data_dict] under a key the function does not write is
    returned as it came in: a key other than ["seg"], ["bb_target"] and
    ["roi_masks"] (which the call overwrites with what is returned here in
    [new_seg], [new_bb_target] and [new_roi_masks]), other than
    ["class_targets"], and not among the region-wise keys. *)
Theorem other_entries_untouched (seg : list (ndarray Z m)) (d : dict (list pyval))
    (out : converted m) (k : String.string) :
  convert seg d = Ok out ->
  ~ In k ["seg"; "bb_target"; "roi_masks"; "class_targets"]%string ->
  ~ In k roi_item_keys ->
  dict_get (items out) k = dict_get d k.
Proof.
  unfold convert_seg_to_bounding_box_coordinates. intros H Hw Hnin.
  assert (Hk : k <> "class_targets"%string).
  { intros ->. apply Hw. cbn [In]. auto. }
  inv_bind H. rename a into st. inv_bind H. injection H as <-. cbn [items].
  pose proof Ha0 as Hst. apply (store_items_get _ k) in Hst. destruct Hst as (_ & Hother).
  rewrite (Hother Hnin).
  pose proof (process_batch_other _ Hk _ _ Ha) as Hd. cbn [data] in Hd.
  destruct get_rois_from_seg; [rewrite dict_get_pop_other by congruence |]; exact Hd.
Qed.

End ConvertMore.

(** Without class-specific segmentation the returned segmentation is the
    incoming one with every positive label set to 1. *)
Theorem seg_is_binarised (lb : forall n : nat, ndarray Z n -> ndarray Z n * nat)
    (m : nat) (dim : Z) (roi_item_keys : list String.string)
    (get_rois_from_seg : bool) (seg : list (ndarray Z m))
    (d : dict (list pyval)) (out : converted m) :
  convert_seg_to_bounding_box_coordinates lb m dim roi_item_keys
    get_rois_from_seg false seg d = Ok out ->
  new_seg out = map (binarised m) seg.
Proof.
  unfold convert_seg_to_bounding_box_coordinates. intros H.
  inv_bind H. rename a into st. inv_bind H. injection H as <-. cbn [new_seg].
  apply process_batch_out in Ha.
  destruct Ha as (bs & ms & os & _ & _ & C3 & _ & _ & L3 & C4).
  cbn [out_seg app] in C3. rewrite C3.
  apply map_by_index; [exact L3 |].
  intros i s Hs. destruct (C4 _ _ Hs) as (boxes & masks & outb & _ & _ & N3 & _ & B).
  now rewrite N3, (B eq_refl).
Qed.

Lemma box_is_tight_witness :
  exists masks mask,
    nth_error
      (new_roi_masks
         (@Build_converted 3 [[[-1; 0; 1; 3]]; []]%Z
       ([[[[[0; 1; 1]; [0; 0; 0]]]]; [[[[0; 0; 0]; [0; 0; 0]]]]]%Z
        : list (list (ndarray Z 3)))
       ([[[[0; 1; 1]; [0; 0; 0]]]; [[[0; 0; 0]; [0; 0; 0]]]]%Z
        : list (ndarray Z 3))
       [("class_targets"%string, [VList [VInt 3]; VList []]);
        ("pid"%string, [VInt 7; VInt 8])])) 0
    = Some masks /\
    nth_error masks 0 = Some mask /\
    tight_box 2 (argwhere 3 mask) [-1; 0; 1; 3]%Z.
Proof.
  apply (@box_is_tight (fun n x => (x, 0)) 3 2 ["class_targets"%string] false false
    ([[[[0; 2; 2]; [0; 0; 0]]]; [[[0; 0; 0]; [0; 0; 0]]]]%Z : list (ndarray Z 3))
    [("class_targets"%string, [VList [VInt 1; VInt 3]; VList []]);
     ("pid"%string, [VInt 7; VInt 8])]
    (@Build_converted 3 [[[-1; 0; 1; 3]]; []]%Z
       ([[[[[0; 1; 1]; [0; 0; 0]]]]; [[[[0; 0; 0]; [0; 0; 0]]]]]%Z
        : list (list (ndarray Z 3)))
       ([[[[0; 1; 1]; [0; 0; 0]]]; [[[0; 0; 0]; [0; 0; 0]]]]%Z
        : list (ndarray Z 3))
       [("class_targets"%string, [VList [VInt 3]; VList []]);
        ("pid"%string, [VInt 7; VInt 8])])
    0 0 [[-1; 0; 1; 3]]%Z [-1; 0; 1; 3]%Z).
  - vm_compute. reflexivity.
  - reflexivity.
  - reflexivity.
Defined.

Lemma one_entry_per_sample_witness :
  let seg := ([[[[0; 2; 2]; [0; 0; 0]]]; [[[0; 0; 0]; [0; 0; 0]]]]%Z : list (ndarray Z 3)) in
  let out := (@Build_converted 3 [[[-1; 0; 1; 3]]; []]%Z
       ([[[[[0; 1; 1]; [0; 0; 0]]]]; [[[[0; 0; 0]; [0; 0; 0]]]]]%Z
        : list (list (ndarray Z 3)))
       ([[[[0; 1; 1]; [0; 0; 0]]]; [[[0; 0; 0]; [0; 0; 0]]]]%Z
        : list (ndarray Z 3))
       [("class_targets"%string, [VList [VInt 3]; VList []]);
        ("pid"%string, [VInt 7; VInt 8])]) in
  length (new_bb_target out) = length seg /\
  length (new_roi_masks out) = length seg /\
  length (new_seg out) = length seg /\
  forall b seg_b,
    nth_error seg b = Some seg_b ->
    exists boxes masks,
      nth_error (new_bb_target out) b = Some boxes /\
      nth_error (new_roi_masks out) b = Some masks /\
      sample_rois (fun n x => (x, 0)) 3 false seg_b boxes masks.
Proof.
  intros seg out.
  apply (@one_entry_per_sample (fun n x => (x, 0)) 3 2 ["class_targets"%string] false false
    ([[[[0; 2; 2]; [0; 0; 0]]]; [[[0; 0; 0]; [0; 0; 0]]]]%Z : list (ndarray Z 3))
    [("class_targets"%string, [VList [VInt 1; VInt 3]; VList []]);
     ("pid"%string, [VInt 7; VInt 8])]
    (@Build_converted 3 [[[-1; 0; 1; 3]]; []]%Z
       ([[[[[0; 1; 1]; [0; 0; 0]]]]; [[[[0; 0; 0]; [0; 0; 0]]]]]%Z
        : list (list (ndarray Z 3)))
       ([[[[0; 1; 1]; [0; 0; 0]]]; [[[0; 0; 0]; [0; 0; 0]]]]%Z
        : list (ndarray Z 3))
       [("class_targets"%string, [VList [VInt 3]; VList []]);
        ("pid"%string, [VInt 7; VInt 8])])).
  vm_compute. reflexivity.
Defined.

Lemma other_entries_untouched_witness :
  dict_get
    (items
       (@Build_converted 3 [[[-1; 0; 1; 3]]; []]%Z
       ([[[[[0; 1; 1]; [0; 0; 0]]]]; [[[[0; 0; 0]; [0; 0; 0]]]]]%Z
        : list (list (ndarray Z 3)))
       ([[[[0; 1; 1]; [0; 0; 0]]]; [[[0; 0; 0]; [0; 0; 0]]]]%Z
        : list (ndarray Z 3))
       [("class_targets"%string, [VList [VInt 3]; VList []]);
        ("pid"%string, [VInt 7; VInt 8])])) "pid"
  = dict_get
      [("class_targets"%string, [VList [VInt 1; VInt 3]; VList []]);
     ("pid"%string, [VInt 7; VInt 8])] "pid".
Proof.
  apply (@other_entries_untouched (fun n x => (x, 0)) 3 2 ["class_targets"%string] false false
    ([[[[0; 2; 2]; [0; 0; 0]]]; [[[0; 0; 0]; [0; 0; 0]]]]%Z : list (ndarray Z 3))
    [("class_targets"%string, [VList [VInt 1; VInt 3]; VList []]);
     ("pid"%string, [VInt 7; VInt 8])]
    (@Build_converted 3 [[[-1; 0; 1; 3]]; []]%Z
       ([[[[[0; 1; 1]; [0; 0; 0]]]]; [[[[0; 0; 0]; [0; 0; 0]]]]]%Z
        : list (list (ndarray Z 3)))
       ([[[[0; 1; 1]; [0; 0; 0]]]; [[[0; 0; 0]; [0; 0; 0]]]]%Z
        : list (ndarray Z 3))
       [("class_targets"%string, [VList [VInt 3]; VList []]);
        ("pid"%string, [VInt 7; VInt 8])])
    "pid"%string).
  - vm_compute. reflexivity.
  - simpl. intros [H | [H | [H | [H | []]]]]; discriminate H.
  - simpl. intros [H | []]. discriminate H.
Defined.

Lemma seg_is_binarised_witness :
  new_seg
    (@Build_converted 3 [[[-1; 0; 1; 3]]; []]%Z
       ([[[[[0; 1; 1]; [0; 0; 0]]]]; [[[[0; 0; 0]; [0; 0; 0]]]]]%Z
        : list (list (ndarray Z 3)))
       ([[[[0; 1; 1]; [0; 0; 0]]]; [[[0; 0; 0]; [0; 0; 0]]]]%Z
        : list (ndarray Z 3))
       [("class_targets"%string, [VList [VInt 3]; VList []]);
        ("pid"%string, [VInt 7; VInt 8])])
  = map (binarised 3)
      ([[[[0; 2; 2]; [0; 0; 0]]]; [[[0; 0; 0]; [0; 0; 0]]]]%Z : list (ndarray Z 3)).
Proof.
  apply (@seg_is_binarised (fun n x => (x, 0)) 3 2 ["class_targets"%string] false
    ([[[[0; 2; 2]; [0; 0; 0]]]; [[[0; 0; 0]; [0; 0; 0]]]]%Z : list (ndarray Z 3))
    [("class_targets"%string, [VList [VInt 1; VInt 3]; VList []]);
     ("pid"%string, [VInt 7; VInt 8])]
    (@Build_converted 3 [[[-1; 0; 1; 3]]; []]%Z
       ([[[[[0; 1; 1]; [0; 0; 0]]]]; [[[[0; 0; 0]; [0; 0; 0]]]]]%Z
        : list (list (ndarray Z 3)))
       ([[[[0; 1; 1]; [0; 0; 0]]]; [[[0; 0; 0]; [0; 0; 0]]]]%Z
        : list (ndarray Z 3))
       [("class_targets"%string, [VList [VInt 3]; VList []]);
        ("pid"%string, [VInt 7; VInt 8])])).
  vm_compute. reflexivity.
Defined.

End BBoxMore.

Module IOSafeFacts.

Import PyNum IOSafe.

Lemma zrange_step (lo hi : Z) :
  (lo < hi)%Z -> zrange lo hi = lo :: zrange (lo + 1) hi.
Proof.
  intros H. unfold zrange.
  replace (Z.to_nat (hi - lo)) with (S (Z.to_nat (hi - (lo + 1)))) by lia.
  cbn [seq map]. rewrite <- seq_shift, map_map. f_equal; [lia |].
  apply map_ext. intros i. lia.
Qed.

Section WrapperFacts.

Variables V E W : Type.
Variable func : W -> attempt V E * W.

Lemma attempts_retry (es : list E) :
  forall (lo hi : Z) (w : W) (printed : list (Z * E)) (a : attempt V E),
    (lo + Z.of_nat (length es) < hi)%Z ->
    (forall i e, nth_error es i = Some e ->
       fst (func (after_calls func i w)) = OSError e) ->
    fst (func (after_calls func (length es) w)) = a ->
    (forall e, a <> OSError e) ->
    attempts func false (zrange lo hi) w printed
    = (passed_on a, after_calls func (S (length es)) w,
       printed ++ numbered lo es).
Proof.
  induction es as [| e es IH]; intros lo hi w printed a Hlt Hfail Ha Hno.
  - cbn [length after_calls] in *. rewrite zrange_step by lia. cbn [attempts].
    destruct (func w) as [a' w'] eqn:Ef. cbn [fst snd] in *. subst a'.
    unfold numbered. cbn [length]. rewrite Z.add_0_r.
    replace (zrange (lo + 1) (lo + 1)) with (@nil Z)
      by (unfold zrange; now rewrite Z.sub_diag).
    cbn [combine]. rewrite app_nil_r.
    destruct a as [v | e | e]; cbn [passed_on]; try reflexivity.
    exfalso. now apply (Hno e).
  - cbn [length] in *. rewrite zrange_step by lia. cbn [attempts].
    pose proof (Hfail 0 e eq_refl) as H0. cbn [after_calls] in H0.
    destruct (func w) as [a' w'] eqn:Ef. cbn [fst] in H0. subst a'.
    rewrite (IH (lo + 1)%Z hi w' _ a); try assumption; try lia.
    + cbn [after_calls]. rewrite Ef. cbn [snd]. f_equal.
      rewrite <- app_assoc. f_equal. unfold numbered. cbn [length].
      rewrite (@zrange_step (lo + 1) (lo + 1 + Z.of_nat (S (length es)))) by lia.
      cbn [combine app]. do 2 f_equal. f_equal. lia.
    + intros i e' Hi. specialize (Hfail (S i) e' Hi).
      cbn [after_calls] in Hfail. now rewrite Ef in Hfail.
    + cbn [after_calls] in Ha. now rewrite Ef in Ha.
Qed.

Lemma attempts_give_up (es : list E) :
  forall (lo : Z) (w : W) (printed : list (Z * E)),
    (forall i e, nth_error es i = Some e ->
       fst (func (after_calls func i w)) = OSError e) ->
    attempts func false (zrange lo (lo + Z.of_nat (length es))) w printed
    = (NoValue, after_calls func (length es) w, printed ++ numbered lo es).
Proof.
  induction es as [| e es IH]; intros lo w printed Hfail.
  - cbn [length after_calls]. rewrite Z.add_0_r.
    replace (zrange lo lo) with (@nil Z) by (unfold zrange; now rewrite Z.sub_diag).
    unfold numbered. cbn [length attempts]. rewrite Z.add_0_r.
    replace (zrange (lo + 1) (lo + 1)) with (@nil Z)
      by (unfold zrange; now rewrite Z.sub_diag).
    cbn [combine]. now rewrite app_nil_r.
  - cbn [length]. rewrite zrange_step by lia. cbn [attempts].
    pose proof (Hfail 0 e eq_refl) as H0. cbn [after_calls] in H0.
    destruct (func w) as [a' w'] eqn:Ef. cbn [fst] in H0. subst a'.
    replace (lo + Z.of_nat (S (length es)))%Z
      with (lo + 1 + Z.of_nat (length es))%Z by lia.
    rewrite IH.
    + cbn [after_calls]. rewrite Ef. cbn [snd]. f_equal.
      rewrite <- app_assoc. f_equal. unfold numbered. cbn [length].
      rewrite (@zrange_step (lo + 1) (lo + 1 + Z.of_nat (S (length es)))) by lia.
      cbn [combine app]. do 2 f_equal. f_equal. lia.
    + intros i e' Hi. specialize (Hfail (S i) e' Hi).
      cbn [after_calls] in Hfail. now rewrite Ef in Hfail.
Qed.

(** With [_raise=False]: when the first attempts raise [OSError] and a
    later one, still within [_tries], does not, [IO_safe] ends as that
    attempt does (its value returned, its exception raised), has called
    [func] once more than it failed, and has printed one message per
    failure, numbered from 1. *)
Theorem retries_until_no_oserror (es : list E) (_tries : Z) (w : W)
    (a : attempt V E) :
  (Z.of_nat (length es) < _tries)%Z ->
  (forall i e, nth_error es i = Some e ->
     fst (func (after_calls func i w)) = OSError e) ->
  fst (func (after_calls func (length es) w)) = a ->
  (forall e, a <> OSError e) ->
  IO_safe func false _tries w
  = (passed_on a, after_calls func (S (length es)) w, numbered 0 es).
Proof.
  intros Hlt Hfail Ha Hno. unfold IO_safe.
  now rewrite (@attempts_retry es 0%Z _tries w [] a).
Qed.

(** With [_raise=False]: when all [_tries] attempts raise [OSError],
    [IO_safe] raises nothing and returns [None]. *)
Theorem gives_up_silently (es : list E) (w : W) :
  (forall i e, nth_error es i = Some e ->
     fst (func (after_calls func i w)) = OSError e) ->
  IO_safe func false (Z.of_nat (length es)) w
  = (NoValue, after_calls func (length es) w, numbered 0 es).
Proof.
  intros Hfail. unfold IO_safe.
  exact (@attempts_give_up es 0%Z w [] Hfail).
Qed.

(** With [_raise=True], the default, [func] is called once whatever
    [_tries >= 1] is: a first [OSError] is raised again, nothing is
    retried. *)
Theorem raising_never_retries (_tries : Z) (w : W) :
  (1 <= _tries)%Z ->
  IO_safe func true _tries w
  = (passed_on (fst (func w)), snd (func w), []).
Proof.
  intros Ht. unfold IO_safe. rewrite zrange_step by lia. cbn [attempts].
  destruct (func w) as [[v | e | e] w']; reflexivity.
Qed.

End WrapperFacts.

Lemma retries_until_no_oserror_witness :
  let func := fun w : nat =>
    if w <? 2 then (@OSError nat nat w, S w) else (Returned (10 * w), S w) in
  IO_safe func false 5 0
  = (passed_on (Returned 20), after_calls func 3 0, numbered 0 [0; 1]).
Proof.
  intros func.
  apply (@retries_until_no_oserror nat nat nat func [0; 1] 5%Z 0 (Returned 20)).
  - simpl. lia.
  - intros [| [| [| i]]] e H; simpl in H; try discriminate H;
      injection H as <-; reflexivity.
  - reflexivity.
  - discriminate.
Defined.

Lemma gives_up_silently_witness :
  let func := fun w : nat => (@OSError nat nat w, S w) in
  IO_safe func false (Z.of_nat (length [0; 1; 2])) 0
  = (NoValue, after_calls func (length [0; 1; 2]) 0, numbered 0 [0; 1; 2]).
Proof.
  intros func.
  apply (@gives_up_silently nat nat nat func [0; 1; 2] 0).
  intros [| [| [| [| i]]]] e H; simpl in H; try discriminate H;
    injection H as <-; reflexivity.
Defined.

Lemma raising_never_retries_witness :
  let func := fun w : nat => (@OSError nat nat w, S w) in
  IO_safe func true 5 0 = (passed_on (fst (func 0)), snd (func 0), []).
Proof.
  intros func. apply (@raising_never_retries nat nat nat func 5%Z 0). lia.
Defined.

End IOSafeFacts.

Module StopwatchFacts.

Import BBox BBoxFacts Stopwatch.

Section ClockFacts.

Variable T : Type.
Variable zero : T.
Variables add sub : T -> T -> T.
Variable clock : nat -> T.

Abbreviation time' := (time zero add sub clock).
Abbreviation calls' := (calls zero add sub clock).

Lemma time_frame (name other : String.string) (tg : option bool)
    (s s' : logger T) (v : T) :
  time' other tg s = Ok (v, s') ->
  other <> name ->
  dict_get (times s') name = dict_get (times s) name.
Proof.
  unfold time. intros H Hne.
  destruct (match tg with
            | Some t => t
            | None => match dict_get (times s) other with
                      | Ok w => negb (toggle w)
                      | Raise _ => true
                      end
            end).
  - injection H as _ <-. cbn [times]. now apply dict_get_set_other.
  - destruct (dict_get (times s) other) as [w | e]; [| discriminate H].
    cbn [bind] in H. injection H as _ <-. cbn [times].
    now apply dict_get_set_other.
Qed.

Lemma calls_frame (name : String.string)
    (ops : list (String.string * option bool)) :
  Forall (fun op => fst op <> name) ops ->
  forall s s' : logger T,
    calls' ops s = Ok s' ->
    dict_get (times s') name = dict_get (times s) name.
Proof.
  induction 1 as [| [other tg] ops Hne _ IH]; intros s s' H; cbn [calls] in H.
  - now injection H as <-.
  - destruct (time' other tg s) as [[v s1] | e] eqn:E1; [| discriminate H].
    cbn [bind snd] in H. rewrite (IH _ _ H).
    exact (@time_frame name other tg s s1 v E1 Hne).
Qed.

(** Toggling an idle stopwatch, then calling [time] for other names any
    number of times, then toggling it again returns the span between the
    stopping reading and the reading stored at the start, whatever
    happened to the other stopwatches in between, and adds that span to the
    total. *)
Theorem interval_is_measured (name : String.string)
    (ops : list (String.string * option bool))
    (s s1 s2 : logger T) (v : T) :
  idle s name ->
  time' name None s = Ok (v, s1) ->
  Forall (fun op => fst op <> name) ops ->
  calls' ops s1 = Ok s2 ->
  let span := sub (clock (reads s2)) (clock (reads s)) in
  exists s3,
    time' name None s2 = Ok (span, s3) /\
    dict_get (times s3) name
    = Ok {| total := add (total_so_far zero s name) span;
            last := span; toggle := false |}.
Proof.
  intros Hidle H1 Hops H2 span.
  assert (E1 : dict_get (times s1) name
               = Ok {| total := total_so_far zero s name;
                       last := clock (reads s); toggle := true |}).
  { unfold time, idle, total_so_far in *.
    destruct (dict_get (times s) name) as [w | e].
    - rewrite Hidle in H1. cbn [negb] in H1. injection H1 as _ <-.
      cbn [times]. apply dict_get_set_same.
    - injection H1 as _ <-. cbn [times]. apply dict_get_set_same. }
  pose proof (@calls_frame name ops Hops s1 s2 H2) as E2. rewrite E1 in E2.
  unfold time. rewrite E2. cbn [toggle negb bind last total].
  eexists. split; [reflexivity |]. cbn [times]. apply dict_get_set_same.
Qed.

End ClockFacts.

Lemma interval_is_measured_witness :
  let clock := fun n : nat => (10 * Z.of_nat n)%Z in
  let s := {| times := []; reads := 0 |} in
  let s1 := {| times := [("epoch"%string,
                          {| total := 0%Z; last := 0%Z; toggle := true |})];
               reads := 2 |} in
  let s2 := {| times := [("epoch"%string,
                          {| total := 0%Z; last := 0%Z; toggle := true |});
                         ("batch"%string,
                          {| total := 0%Z; last := 20%Z; toggle := true |})];
               reads := 4 |} in
  let span := (clock (reads s2) - clock (reads s))%Z in
  exists s3,
    time 0%Z Z.add Z.sub clock "epoch" None s2 = Ok (span, s3) /\
    dict_get (times s3) "epoch"
    = Ok {| total := (total_so_far 0%Z s "epoch" + span)%Z;
            last := span; toggle := false |}.
Proof.
  intros clock s s1 s2.
  apply (@interval_is_measured Z 0%Z Z.add Z.sub clock "epoch"%string
           [("batch"%string, None)] s s1 s2 10%Z).
  - exact I.
  - reflexivity.
  - repeat constructor. discriminate.
  - reflexivity.
Defined.

End StopwatchFacts.

Module CaseFilesFacts.

Import CaseFiles.

Lemma from_suffix (B : Type) (x suf : list B) :
  suf <> [] ->
  PySlice.from (- Z.of_nat (length suf)) (x ++ suf) = suf.
Proof.
  intros Hne. unfold PySlice.from, PySlice.bound.
  assert (0 < length suf) by (destruct suf; [congruence | cbn; lia]).
  destruct (Z.ltb_spec (- Z.of_nat (length suf)) 0); [| lia].
  rewrite length_app.
  replace (Z.to_nat (Z.of_nat (length x + length suf) + - Z.of_nat (length suf)))
    with (length x + 0) by lia.
  now rewrite skipn_app, Nat.add_0_r, skipn_all, Nat.sub_diag.
Qed.

Lemma upto_suffix (B : Type) (x suf : list B) :
  suf <> [] ->
  PySlice.upto (- Z.of_nat (length suf)) (x ++ suf) = x.
Proof.
  intros Hne. unfold PySlice.upto, PySlice.bound.
  assert (0 < length suf) by (destruct suf; [congruence | cbn; lia]).
  destruct (Z.ltb_spec (- Z.of_nat (length suf)) 0); [| lia].
  rewrite length_app.
  replace (Z.to_nat (Z.of_nat (length x + length suf) + - Z.of_nat (length suf)))
    with (length x + 0) by lia.
  now rewrite firstn_app_2, firstn_O, app_nil_r.
Qed.

Lemma endswith_spec (s suf : name) :
  suf <> [] ->
  (endswith s suf = true <-> exists x, s = x ++ suf).
Proof.
  intros Hne. unfold endswith. split.
  - destruct (list_eq_dec _ _ _) as [E | _]; [| discriminate].
    intros Hl. apply Nat.leb_le in Hl.
    exists (PySlice.upto (- Z.of_nat (length suf)) s).
    exact (eq_trans
             (eq_sym (firstn_skipn
                        (PySlice.bound (length s) (- Z.of_nat (length suf))) s))
             (f_equal (app _) E)).
  - intros (x & ->). rewrite from_suffix by assumption.
    destruct (list_eq_dec _ _ _) as [_ | N]; [| congruence].
    apply Nat.leb_le. rewrite length_app. lia.
Qed.

(** A folder that holds exactly the files [base.npz] has the bases as its
    case identifiers, in listing order. *)
Theorem identifiers_of_packed (bases : list name) :
  get_case_identifiers (map (fun b => b ++ lit ".npz") bases) = bases.
Proof.
  unfold get_case_identifiers.
  induction bases as [| b bases IH]; [reflexivity |].
  cbn [map filter].
  assert (E : endswith (b ++ lit ".npz") (lit "npz") = true).
  { apply endswith_spec; [discriminate |].
    exists (b ++ lit "."). now rewrite <- app_assoc. }
  rewrite E. cbn [map].
  exact (f_equal2 cons (@upto_suffix _ b (lit ".npz") ltac:(discriminate)) IH).
Qed.

(** A listed name that ends in [npz] is the name of the file that
    [unpack_dataset] opens for it exactly when it ends in [.npz]: for a
    name that ends in [npz] without the dot the last four characters are
    replaced and another file is opened. *)
Theorem unpacked_name_is_listed (f : name) :
  endswith f (lit "npz") = true ->
  (npz_files [f] = [f] <-> endswith f (lit ".npz") = true).
Proof.
  intros Hnpz. unfold npz_files, get_case_identifiers.
  cbn [filter]. rewrite Hnpz. cbn [map]. split.
  - intros H. injection H as H. apply endswith_spec; [discriminate |].
    eexists. symmetry. exact H.
  - intros H. apply endswith_spec in H; [| discriminate].
    destruct H as (x & ->).
    exact (f_equal (fun y => [y ++ lit ".npz"])
             (@upto_suffix _ x (lit ".npz") ltac:(discriminate))).
Qed.

Lemma unpacked_name_is_listed_witness :
  npz_files [lit "case_npz"] = [lit "case_npz"]
  <-> endswith (lit "case_npz") (lit ".npz") = true.
Proof.
  apply (@unpacked_name_is_listed (lit "case_npz")). reflexivity.
Defined.

End CaseFilesFacts.

(** ** The bounds of the boxes *)

Module BBoxBounds.

Import PyNum NdArray BBox BBoxSpec BBoxOut BBoxFacts BBoxMore.

Section Bounds.

Variable lb : forall n : nat, ndarray Z n -> ndarray Z n * nat.
Variable m : nat.
Variable dim : Z.
Variable roi_item_keys : list String.string.
Variable get_rois_from_seg : bool.
Variable class_specific_seg : bool.

(** C10: every box the call returns is computed from the voxels of the
    mask returned at the same position as [min - 1, max + 1] on each
    spatial axis, without clamping: on every axis all voxels lie strictly
    between the two bounds, one voxel has the coordinate [lower + 1] and one
    [upper - 1].  So a region with a voxel at index 0 of the y, x or (in
    three dimensions) z axis has the lower bound -1 on that axis, an index
    outside the array. *)
Theorem box_is_min_max_unclamped (seg : list (ndarray Z m))
    (d : dict (list pyval)) (out : converted m) (b j : nat)
    (boxes : list (list Z)) (box : list Z) :
  convert_seg_to_bounding_box_coordinates lb m dim roi_item_keys
    get_rois_from_seg class_specific_seg seg d = Ok out ->
  nth_error (new_bb_target out) b = Some boxes ->
  nth_error boxes j = Some box ->
  exists masks mask,
    nth_error (new_roi_masks out) b = Some masks /\
    nth_error masks j = Some mask /\
    tight_box dim (argwhere m mask) box /\
    ((exists ix, In ix (argwhere m mask) /\ nth_error ix 1 = Some 0%Z) ->
     nth_error box 0 = Some (-1)%Z) /\
    ((exists ix, In ix (argwhere m mask) /\ nth_error ix 2 = Some 0%Z) ->
     nth_error box 1 = Some (-1)%Z) /\
    (dim = 3%Z ->
     (exists ix, In ix (argwhere m mask) /\ nth_error ix 3 = Some 0%Z) ->
     nth_error box 4 = Some (-1)%Z).
Proof.
  unfold convert_seg_to_bounding_box_coordinates. intros H Hb Hj.
  inv_bind H. rename a into st. inv_bind H. injection H as <-.
  cbn [new_bb_target new_roi_masks] in *.
  apply process_batch_boxes in Ha; [| constructor].
  destruct (Forall2_nth_left Ha _ Hb) as (masks & Hmasks & Hboxed).
  destruct (Hboxed _ _ Hj) as (mask & Hmask & Hbox).
  exists masks, mask.
  split; [exact Hmasks |]. split; [exact Hmask |].
  split; [now apply coord_list_tight |].
  apply (coord_list_lower_border _ Hbox (argwhere_nonneg m mask)).
Qed.

End Bounds.

Lemma box_is_min_max_unclamped_witness :
  exists masks mask,
    nth_error ([[[[[1; 0; 1]]]]]%Z : list (list (ndarray Z 3))) 0 = Some masks /\
    nth_error masks 0 = Some mask /\
    tight_box 2 (argwhere 3 mask) [-1; -1; 1; 3]%Z /\
    ((exists ix, In ix (argwhere 3 mask) /\ nth_error ix 1 = Some 0%Z) ->
     nth_error [-1; -1; 1; 3]%Z 0 = Some (-1)%Z) /\
    ((exists ix, In ix (argwhere 3 mask) /\ nth_error ix 2 = Some 0%Z) ->
     nth_error [-1; -1; 1; 3]%Z 1 = Some (-1)%Z) /\
    (2%Z = 3%Z ->
     (exists ix, In ix (argwhere 3 mask) /\ nth_error ix 3 = Some 0%Z) ->
     nth_error [-1; -1; 1; 3]%Z 4 = Some (-1)%Z).
Proof.
  apply (@box_is_min_max_unclamped (fun n x => (x, 0)) 3 2
           ["class_targets"%string] false false
           [[[[1; 0; 1]]]]%Z
           [("class_targets"%string, [VList [VInt 1]])]
           (@Build_converted 3 [[[-1; -1; 1; 3]]]%Z
              ([[[[[1; 0; 1]]]]]%Z : list (list (ndarray Z 3)))
              ([[[[1; 0; 1]]]]%Z : list (ndarray Z 3))
              [("class_targets"%string, [VList [VInt 1]])])
           0 0 [[-1; -1; 1; 3]]%Z [-1; -1; 1; 3]%Z).
  - vm_compute. reflexivity.
  - reflexivity.
  - reflexivity.
Defined.

End BBoxBounds.

(** ** Where the round trip of the padder ends *)

Module PadLimits.

Import NdArray Padder.

(** C3 as stated fails: not every image and every target shape give a
    pair.  A one-axis image with a target shape of two entries makes the
    call raise [IndexError], since the image shape is read at position 1. *)
Lemma stated_round_trip_fails :
  ~ (forall (A : Type) (n : nat) (image : ndarray A n) (T : list Z),
        exists res slicer,
          pad_nd_image n image (Some T) true DivNone = Ok (res, Some slicer) /\
          index_slices n slicer res = Ok image).
Proof.
  intros H.
  destruct (H nat 1 [1; 2; 3] [4; 4]%Z) as (res & slicer & Hcall & _).
  vm_compute in Hcall. discriminate Hcall.
Qed.

End PadLimits.

(** ** Repeated calls on one fold generator *)

Module Repeats.

Import FoldGen FoldSpec FoldFacts FoldMore.

Lemma after_ids (k : nat) :
  forall g : fold_generator,
    myseed (after k g) = myseed g /\ len_data (after k g) = len_data g.
Proof.
  induction k as [| k IH]; intros g; [split; reflexivity |].
  cbn [after]. destruct (IH (next g)) as (E1 & E2). rewrite E1, E2.
  split; reflexivity.
Qed.

(** Two objects that hold the same index lists and slice length, with no
    shortened folds and no remainder, stay so under the loop body, whatever
    their fold counters are. *)
Lemma next_same_cut (d : Z) (a b : fold_generator) :
  tr_ix a = tr_ix b -> val_ix a = val_ix b -> te_ix a = te_ix b ->
  slicer a = slicer b ->
  missing a = 0%Z -> missing b = 0%Z -> md a = 0%Z -> md b = 0%Z ->
  (0 <= fold a)%Z -> fold b = (fold a + d)%Z -> (0 <= d)%Z ->
  tr_ix (next a) = tr_ix (next b) /\ val_ix (next a) = val_ix (next b) /\
  te_ix (next a) = te_ix (next b) /\ slicer (next a) = slicer (next b) /\
  missing (next a) = 0%Z /\ missing (next b) = 0%Z /\
  md (next a) = 0%Z /\ md (next b) = 0%Z /\
  (0 <= fold (next a))%Z /\ fold (next b) = (fold (next a) + d)%Z.
Proof.
  intros Htr Hval Hte Hs Hma Hmb Hda Hdb Hfa Hfb Hd.
  unfold next, new_fold.
  cbn [set_fold tr_ix val_ix te_ix slicer missing md fold].
  rewrite Hma, Hmb, Hda, Hdb, Htr, Hval, Hte, Hs.
  destruct (Z.ltb_spec (fold a) 0) as [? | _]; [lia |].
  destruct (Z.ltb_spec (fold b) 0) as [? | _]; [lia |].
  change (0 =? 1)%Z with false. rewrite !andb_false_r.
  repeat split; lia.
Qed.

Lemma run_same_cut (cv : list nat) (d : Z) (k : nat) :
  forall a b : fold_generator,
    tr_ix a = tr_ix b -> val_ix a = val_ix b -> te_ix a = te_ix b ->
    slicer a = slicer b ->
    missing a = 0%Z -> missing b = 0%Z -> md a = 0%Z -> md b = 0%Z ->
    (0 <= fold a)%Z -> fold b = (fold a + d)%Z -> (0 <= d)%Z ->
    Forall2 (fun f0 f =>
               train_names f = train_names f0 /\
               val_names f = val_names f0 /\
               test_names f = test_names f0 /\
               fold_ix f = (d + fold_ix f0)%Z)
      (map (entry cv) (run k a)) (map (entry cv) (run k b)).
Proof.
  induction k as [| k IH]; intros a b Htr Hval Hte Hs Hma Hmb Hda Hdb Hfa Hfb Hd;
    cbn [run map]; constructor.
  - unfold entry. cbn [train_names val_names test_names fold_ix].
    rewrite Htr, Hval, Hte, Hfb. repeat split. lia.
  - destruct (@next_same_cut d a b Htr Hval Hte Hs Hma Hmb Hda Hdb Hfa Hfb Hd)
      as (T1 & T2 & T3 & T4 & T5 & T6 & T7 & T8 & T9 & T10).
    now apply IH.
Qed.

Section Repeated.

Variable shuffle : Z -> list nat -> list nat.
Hypothesis shuffle_perm :
  forall (seed : Z) (x : list nat), Permutation x (shuffle seed x).

(** C8, as the code has it for repeated calls: when the split count divides
    the data length, a call of [get_fold_names] on a generator that has been
    used before (its fold counter advanced, no shortened folds pending)
    returns the same train, validation and test subsets as the call on a
    fresh generator with the same seed, split count and data length; the
    fold numbers continue from the counter.  The generator is left in a
    state of the same kind, so this holds for every later call. *)
Theorem repeated_calls_same_subsets (seed n : Z) (len : nat)
    (g : fold_generator) :
  (1 <= n)%Z -> (Z.of_nat len mod n = 0)%Z ->
  myseed g = seed -> n_splits g = n -> len_data g = len ->
  missing g = 0%Z -> (0 <= fold g)%Z ->
  exists fresh_names fresh' names g',
    get_fold_names shuffle (init seed n len) = Ok (fresh_names, fresh') /\
    get_fold_names shuffle g = Ok (names, g') /\
    length names = Z.to_nat n /\
    Forall2 (fun f0 f =>
               train_names f = train_names f0 /\
               val_names f = val_names f0 /\
               test_names f = test_names f0 /\
               fold_ix f = (fold g + fold_ix f0)%Z) fresh_names names /\
    myseed g' = seed /\ n_splits g' = n /\ len_data g' = len /\
    missing g' = 0%Z /\ (0 <= fold g')%Z.
Proof.
  intros Hn Hmod Hseed Hsplits Hlen Hmiss Hfold.
  assert (Hn0 : n_splits g <> 0%Z) by lia.
  assert (Hn0' : n_splits (init seed n len) <> 0%Z) by (cbn [init n_splits]; lia).
  destruct (get_fold_names_run shuffle g Hn0) as (g0 & Hinit & Hrun).
  destruct (get_fold_names_run shuffle (init seed n len) Hn0')
    as (f0 & Hinit' & Hrun').
  rewrite Hseed, Hsplits, Hlen in *. cbn [init myseed len_data n_splits] in *.
  set (cv := shuffle seed (seq 0 len)) in *.
  assert (Hcv : length cv = len).
  { unfold cv. rewrite <- (Permutation_length (shuffle_perm seed (seq 0 len))).
    apply length_seq. }
  rewrite Hcv in Hinit, Hinit'.
  unfold init_indices in Hinit, Hinit'.
  cbn [init set_l l n_splits missing fold len_data myseed boost_val] in Hinit, Hinit'.
  rewrite Hsplits, Hmiss in Hinit.
  destruct (Z.eqb_spec n 0) as [? | _]; [lia |].
  rewrite length_seq, Hmod in Hinit, Hinit'.
  change (0 >? 0)%Z with false in Hinit, Hinit'. cbv iota in Hinit, Hinit'.
  injection Hinit as <-. injection Hinit' as <-.
  eexists _, _, _, _. split; [exact Hrun' |]. split; [exact Hrun |].
  split; [now rewrite length_map, length_run |].
  split.
  - apply run_same_cut; cbn [tr_ix val_ix te_ix slicer missing md fold];
      try reflexivity; lia.
  - match goal with
    | |- context [after ?k ?x] =>
        destruct (after_fields k x) as (F & N & _ & _ & M);
        destruct (after_ids k x) as (S1 & S2);
        rewrite F, N, M, S1, S2
    end.
    cbn [fold n_splits missing myseed len_data]. repeat split; try assumption. lia.
Qed.

End Repeated.

Lemma repeated_calls_same_subsets_witness :
  let g := {| tr_ix := [4]; val_ix := []; te_ix := [1; 2]; slicer := 2;
              missing := 0; fold := 3; len_data := 6; n_splits := 3;
              myseed := 42; boost_val := 0; l := 6; md := 0 |} in
  exists fresh_names fresh' names g',
    get_fold_names (fun _ x => rev x) (init 42 3 6) = Ok (fresh_names, fresh') /\
    get_fold_names (fun _ x => rev x) g = Ok (names, g') /\
    length names = Z.to_nat 3 /\
    Forall2 (fun f0 f =>
               train_names f = train_names f0 /\
               val_names f = val_names f0 /\
               test_names f = test_names f0 /\
               fold_ix f = (fold g + fold_ix f0)%Z) fresh_names names /\
    myseed g' = 42%Z /\ n_splits g' = 3%Z /\ len_data g' = 6 /\
    missing g' = 0%Z /\ (0 <= fold g')%Z.
Proof.
  intros g.
  apply (@repeated_calls_same_subsets (fun _ x => rev x)
           (fun _ x => Permutation_rev x) 42%Z 3%Z 6 g);
    try reflexivity; simpl; lia.
Defined.

End Repeats.

(** ** The patch grid under float rounding *)

Module PatchFloatFacts.

Import PyNum PatchGrid PatchSpec PatchMore.

Lemma int_of_Q_comp (x y : Q) : (x == y)%Q -> int_of_Q x = int_of_Q y.
Proof.
  intros E. unfold int_of_Q.
  rewrite (Qfloor_comp _ _ E), (Qceiling_comp _ _ E).
  destruct (Qle_bool 0 x) eqn:Ex, (Qle_bool 0 y) eqn:Ey; try reflexivity.
  - apply Qle_bool_iff in Ex. rewrite E in Ex. apply Qle_bool_iff in Ex. congruence.
  - apply Qle_bool_iff in Ey. rewrite <- E in Ey. apply Qle_bool_iff in Ey. congruence.
Qed.

Lemma inject_Z_pos (z : Z) : (1 <= z)%Z -> (1 <= inject_Z z)%Q.
Proof. intros H. change 1%Q with (inject_Z 1). now rewrite <- Zle_Qle. Qed.

Lemma inject_Z_le (a b : Z) : (a <= b)%Z -> (inject_Z a <= inject_Z b)%Q.
Proof. intros H. now rewrite <- Zle_Qle. Qed.

Section Rounded.

Variable fl : Q -> Q.
Variable u : Q.
Variable B : Z.
Hypothesis rounding : PatchFloat.rounds_within fl u B.

Open Scope Q_scope.

Lemma fl_comp : forall x y : Q, x == y -> fl x == fl y.
Proof. exact (proj1 rounding). Qed.

Lemma fl_mono : forall x y : Q, x <= y -> fl x <= fl y.
Proof. exact (proj1 (proj2 rounding)). Qed.

Lemma fl_half (z : Z) :
  (Z.abs z <= 4 * B)%Z ->
  fl (inject_Z z / inject_Z 2) == inject_Z z / inject_Z 2.
Proof. exact (proj1 (proj2 (proj2 rounding)) z). Qed.

Lemma fl_near (x : Q) :
  1 <= 4 * inject_Z B * x -> x <= 4 * inject_Z B ->
  (1 - u) * x <= fl x /\ fl x <= (1 + u) * x.
Proof. exact (proj1 (proj2 (proj2 (proj2 rounding))) x). Qed.

Lemma u_nonneg : 0 <= u.
Proof. exact (proj1 (proj2 (proj2 (proj2 (proj2 rounding))))). Qed.

Lemma u_small : 16 * inject_Z B * u < 1.
Proof. exact (proj2 (proj2 (proj2 (proj2 (proj2 rounding))))). Qed.

Lemma fl_integer (z : Z) : (Z.abs z <= 2 * B)%Z -> fl (inject_Z z) == inject_Z z.
Proof.
  intros Hz.
  assert (E : inject_Z z == inject_Z (2 * z) / inject_Z 2).
  { rewrite inject_Z_mult. change (inject_Z 2) with 2. field. }
  apply Qeq_trans with (fl (inject_Z (2 * z) / inject_Z 2)); [apply fl_comp, E |].
  apply Qeq_trans with (inject_Z (2 * z) / inject_Z 2);
    [apply fl_half; lia | symmetry; exact E].
Qed.

(** The float quotient of the extent by the patch size. *)
Lemma quotient_rounded (s p : Z) :
  (1 <= s <= B)%Z -> (1 <= p <= B)%Z ->
  let q := fl (inject_Z s / inject_Z p) in
  0 < q /\ ((2 <= p)%Z -> q <= inject_Z B) /\
  ((s <= p)%Z -> q <= 1) /\ ((p < s)%Z -> 1 < q).
Proof.
  intros Hs Hp q.
  pose proof u_nonneg as Hu0. pose proof u_small as Hus.
  pose proof (inject_Z_pos (proj1 Hs)) as Hs1.
  pose proof (inject_Z_pos (proj1 Hp)) as Hp1.
  pose proof (inject_Z_le (proj2 Hs)) as HsB.
  pose proof (inject_Z_le (proj2 Hp)) as HpB.
  set (x := inject_Z s / inject_Z p) in *.
  assert (Hx : x * inject_Z p == inject_Z s).
  { unfold x. rewrite Qmult_comm. apply Qmult_div_r. lra. }
  assert (Hx0 : 0 < x) by (unfold x; apply Qlt_shift_div_l; lra).
  assert (HxB : x <= inject_Z B) by nra.
  assert (Hlow : 1 <= 4 * inject_Z B * x) by nra.
  destruct (fl_near Hlow ltac:(lra)) as (N1 & N2). fold q in N1, N2.
  assert (Hu : u * inject_Z B < 1 # 16) by lra.
  assert (HB1 : 1 <= inject_Z B) by lra.
  assert (Hu1 : u <= u * inject_Z B) by nra.
  assert (Hpos : 0 < (1 - u) * x) by (apply Qmult_lt_0_compat; lra).
  assert (Hux : u * x <= x) by nra.
  repeat split.
  - lra.
  - intros Hp2. apply inject_Z_le in Hp2. change (inject_Z 2) with 2 in Hp2.
    assert (x * 2 <= inject_Z B) by nra. lra.
  - intros Hsp. apply inject_Z_le in Hsp.
    assert (Hx1 : x <= 1) by nra.
    pose proof (fl_mono Hx1) as M. fold q in M.
    assert (E1 : fl 1 == 1).
    { change 1 with (inject_Z 1). apply fl_integer. lia. }
    lra.
  - intros Hps.
    assert (Hps' : inject_Z p + 1 <= inject_Z s).
    { change 1 with (inject_Z 1). rewrite <- inject_Z_plus. apply inject_Z_le. lia. }
    assert (Hup : u * inject_Z p <= u * inject_Z B) by nra.
    assert (Hxp : x * inject_Z p >= inject_Z p + 1) by lra.
    assert (Hx2 : x <= inject_Z s) by nra.
    nra.
Qed.

(** The float centre of a patch lies within half a voxel of the exact
    range of the centres. *)
Lemma centre_rounded (p a k ii : Z) :
  (2 <= p <= B)%Z -> (1 <= a <= B)%Z -> (1 <= k <= B)%Z -> (0 <= ii <= k)%Z ->
  let x := fl (fl (inject_Z p / inject_Z 2)
               + fl (fl (inject_Z a / inject_Z k) * inject_Z ii)) in
  inject_Z p / inject_Z 2 <= x /\
  x < inject_Z p / inject_Z 2 + inject_Z a + (1 # 2).
Proof.
  intros Hp Ha Hk Hii x.
  pose proof u_nonneg as Hu0. pose proof u_small as Hus.
  assert (Hp2 : 2 <= inject_Z p) by (change 2 with (inject_Z 2); apply inject_Z_le; lia).
  pose proof (inject_Z_le (proj2 Hp)) as HpB.
  pose proof (inject_Z_pos (proj1 Ha)) as Ha1.
  pose proof (inject_Z_le (proj2 Ha)) as HaB.
  pose proof (inject_Z_pos (proj1 Hk)) as Hk1.
  pose proof (inject_Z_le (proj2 Hk)) as HkB.
  assert (Hi0 : 0 <= inject_Z ii) by (change 0 with (inject_Z 0); apply inject_Z_le; lia).
  pose proof (inject_Z_le (proj2 Hii)) as Hik.
  assert (HB1 : 2 <= inject_Z B) by lra.
  assert (Hu : u * inject_Z B < 1 # 16) by lra.
  assert (Hu1 : u < 1 # 32) by nra.
  (* half *)
  assert (Eh : fl (inject_Z p / inject_Z 2) == inject_Z p / inject_Z 2)
    by (apply fl_half; lia).
  set (half := inject_Z p / inject_Z 2) in *.
  assert (Hhalf : half + half == inject_Z p) by apply half_sum.
  (* the distance between centres *)
  set (y := inject_Z a / inject_Z k).
  assert (Hy : y * inject_Z k == inject_Z a).
  { unfold y. rewrite Qmult_comm. apply Qmult_div_r. lra. }
  assert (Hy0 : 0 < y) by (unfold y; apply Qlt_shift_div_l; lra).
  assert (HyB : 1 <= inject_Z B * y) by nra.
  assert (Hya : y <= inject_Z a) by nra.
  destruct (@fl_near y ltac:(nra) ltac:(lra)) as (C1 & C2).
  set (cd := fl y) in *.
  assert (Hcd0 : 0 < cd).
  { assert (0 < (1 - u) * y) by (apply Qmult_lt_0_compat; lra). lra. }
  (* the product *)
  set (pe := cd * inject_Z ii).
  assert (Hpe0 : 0 <= pe) by (unfold pe; nra).
  assert (Hyk : y * inject_Z ii <= inject_Z a) by nra.
  assert (Hpe1 : pe <= (1 + u) * inject_Z a) by (unfold pe; nra).
  assert (Hprod : 0 <= fl pe /\ fl pe <= (1 + u) * ((1 + u) * inject_Z a)).
  { destruct (Z.eq_dec ii 0) as [-> | Hne].
    - assert (E0 : pe == inject_Z 0) by (unfold pe; change (inject_Z 0) with 0; ring).
      assert (F0 : fl pe == 0).
      { apply Qeq_trans with (fl (inject_Z 0)); [apply fl_comp, E0 |].
        change 0 with (inject_Z 0). apply fl_integer. lia. }
      split; [lra |]. nra.
    - assert (Hi1 : 1 <= inject_Z ii) by (apply inject_Z_pos; lia).
      assert (Hpe2 : cd <= pe) by (unfold pe; nra).
      assert (Hlow : 1 <= 4 * inject_Z B * pe).
      { assert ((1 # 2) * y <= cd) by nra. nra. }
      destruct (@fl_near pe Hlow ltac:(nra)) as (P1 & P2).
      split; [nra |]. nra. }
  destruct Hprod as (Hq0 & Hq1).
  set (pr := fl pe) in *.
  (* the sum *)
  assert (Es : fl half + pr == half + pr) by lra.
  assert (Ex : x == fl (half + pr)) by (apply fl_comp, Es).
  assert (Hlow : 1 <= 4 * inject_Z B * (half + pr)) by nra.
  assert (Hua : u * inject_Z a <= u * inject_Z B) by nra.
  assert (Hup : u * half <= u * inject_Z B * (1 # 2)) by nra.
  assert (Huua : u * (u * inject_Z a) <= u * inject_Z a) by nra.
  assert (Huuua : u * (u * (u * inject_Z a)) <= u * inject_Z a) by nra.
  assert (Hq2 : pr <= inject_Z a + 3 * (u * inject_Z B)) by nra.
  destruct (@fl_near (half + pr) Hlow ltac:(nra)) as (S1 & S2).
  split.
  - assert (M : fl half <= fl (half + pr)) by (apply fl_mono; lra).
    lra.
  - assert (Hq3 : (1 + u) * pr <= inject_Z a + 7 * (u * inject_Z B)) by nra.
    nra.
Qed.

Lemma crop_rounded (s p c : Z) :
  (2 <= p <= B)%Z -> (p < s <= B)%Z ->
  inject_Z p / inject_Z 2 - (1 # 2) <= inject_Z c ->
  inject_Z c < inject_Z p / inject_Z 2 + inject_Z (s - p) + 1 ->
  in_order s p
    (int_of_Q (fl (inject_Z c - fl (inject_Z p / inject_Z 2))))
    (int_of_Q (fl (inject_Z c + fl (inject_Z p / inject_Z 2)))).
Proof.
  intros Hp Hs Hlo Hhi.
  assert (Eh : fl (inject_Z p / inject_Z 2) == inject_Z p / inject_Z 2)
    by (apply fl_half; lia).
  pose proof (half_sum p) as Hhalf.
  pose proof (inject_Z_sub s p) as Esp.
  set (half := inject_Z p / inject_Z 2) in *.
  assert (Hc1 : (p - 1 <= 2 * c)%Z).
  { rewrite Zle_Qle, inject_Z_mult, inject_Z_sub.
    change (inject_Z 2) with 2. change (inject_Z 1) with 1. lra. }
  assert (Hc2 : (2 * c < 2 * s - p + 2)%Z).
  { rewrite Zlt_Qlt, inject_Z_plus, inject_Z_sub, !inject_Z_mult.
    change (inject_Z 2) with 2. lra. }
  assert (Elo : fl (inject_Z c - fl half) == inject_Z c - half).
  { assert (E : inject_Z c - fl half == inject_Z (2 * c - p) / inject_Z 2).
    { pose proof (half_sum (2 * c - p)) as Hr.
      assert (Ez : inject_Z (2 * c - p) == 2 * inject_Z c - inject_Z p).
      { rewrite inject_Z_sub, inject_Z_mult. change (inject_Z 2) with 2. lra. }
      set (r := inject_Z (2 * c - p) / inject_Z 2) in *. lra. }
    apply Qeq_trans with (fl (inject_Z (2 * c - p) / inject_Z 2)); [apply fl_comp, E |].
    apply Qeq_trans with (inject_Z (2 * c - p) / inject_Z 2); [apply fl_half; lia |].
    lra. }
  assert (Ehi : fl (inject_Z c + fl half) == inject_Z c + half).
  { assert (E : inject_Z c + fl half == inject_Z (2 * c + p) / inject_Z 2).
    { pose proof (half_sum (2 * c + p)) as Hr.
      assert (Ez : inject_Z (2 * c + p) == 2 * inject_Z c + inject_Z p).
      { rewrite inject_Z_plus, inject_Z_mult. change (inject_Z 2) with 2. lra. }
      set (r := inject_Z (2 * c + p) / inject_Z 2) in *. lra. }
    apply Qeq_trans with (fl (inject_Z (2 * c + p) / inject_Z 2)); [apply fl_comp, E |].
    apply Qeq_trans with (inject_Z (2 * c + p) / inject_Z 2); [apply fl_half; lia |].
    lra. }
  rewrite (int_of_Q_comp Elo), (int_of_Q_comp Ehi).
  apply crop_in_order; try lia; try assumption.
  assert (H2 : (2 * c <= 2 * s - p + 1)%Z) by lia.
  rewrite Zle_Qle, inject_Z_plus, inject_Z_sub, !inject_Z_mult in H2.
  change (inject_Z 2) with 2 in H2. change (inject_Z 1) with 1 in H2.
  fold half. lra.
Qed.

Lemma axis_in_order_rounded (s p : Z) (min_overlap : Q) :
  (1 <= s <= B)%Z -> (2 <= p <= B)%Z ->
  exists cs,
    PatchFloat.axis_crop_coords fl s p min_overlap = Ok cs /\ cs <> [] /\
    Forall (fun c => in_order s p (int_of_Q (fst c)) (int_of_Q (snd c))) cs.
Proof.
  intros Hs Hp. unfold PatchFloat.axis_crop_coords.
  destruct (Z.eqb_spec p 0) as [? | _]; [lia |].
  destruct (@quotient_rounded s p Hs ltac:(lia)) as (Q0 & QB & Q1 & Q2).
  specialize (QB ltac:(lia)).
  set (q := fl (inject_Z s / inject_Z p)) in *.
  pose proof (Qle_ceiling q) as C1. pose proof (Qceiling_lt q) as C2.
  rewrite inject_Z_sub in C2. change (inject_Z 1) with 1 in C2.
  assert (Hn1 : (1 <= Qceiling q)%Z).
  { assert (H : (0 < Qceiling q)%Z); [| lia].
    rewrite Zlt_Qlt. change (inject_Z 0) with 0. lra. }
  assert (HnB : (Qceiling q <= B)%Z).
  { assert (H : (Qceiling q < B + 1)%Z); [| lia].
    rewrite Zlt_Qlt, inject_Z_plus. change (inject_Z 1) with 1. lra. }
  destruct (Z.eqb_spec (Qceiling q) 1) as [E1 | Hne].
  - exists [(inject_Z 0, inject_Z s)]. split; [reflexivity |]. split; [discriminate |].
    constructor; [| constructor]. cbn [fst snd].
    assert (Hsp : (s <= p)%Z).
    { destruct (Z.le_gt_cases s p) as [? | Hgt]; [assumption |].
      specialize (Q2 ltac:(lia)). rewrite E1 in C1.
      change (inject_Z 1) with 1 in C1. lra. }
    rewrite !int_of_Q_Z. unfold in_order.
    replace (Z.min s p) with s by lia. repeat split; lia.
  - assert (Hn2 : (2 <= Qceiling q)%Z) by lia.
    assert (Hps : (p < s)%Z).
    { destruct (Z.le_gt_cases s p) as [Hle | ?]; [| lia].
      specialize (Q1 Hle).
      assert (H : (Qceiling q < 2)%Z); [| lia].
      rewrite Zlt_Qlt. change (inject_Z 2) with 2. lra. }
    set (n := Qceiling q) in *.
    match goal with
    | |- context [bind ?r _] =>
        assert (Hr : exists n',
                   r = Ok (n', fl (inject_Z (s - p) / inject_Z (n' - 1)))
                   /\ (2 <= n' <= B + 1)%Z)
    end.
    { destruct (Qlt_le_dec _ _).
      - destruct (Z.eqb_spec (n + 1 - 1) 0) as [? | _]; [lia |].
        exists (n + 1)%Z. split; [reflexivity | lia].
      - exists n. split; [reflexivity | lia]. }
    destruct Hr as (n' & -> & Hn'). cbn [bind]. cbv iota beta.
    eexists. split; [reflexivity |]. split.
    + unfold zrange. destruct (Z.to_nat (n' - 0)) eqn:En; [lia | discriminate].
    + rewrite !Forall_map. apply Forall_forall. intros ii Hii. cbn [fst snd].
      unfold zrange in Hii. apply in_map_iff in Hii.
      destruct Hii as (i & <- & Hi). apply in_seq in Hi.
      destruct (@centre_rounded p (s - p) (n' - 1) (0 + Z.of_nat i)
                  ltac:(lia) ltac:(lia) ltac:(lia) ltac:(lia)) as (X1 & X2).
      cbv zeta in X1, X2.
      match type of X1 with
      | _ <= ?x => pose proof (round_half_even_near x) as Hr
      end.
      apply crop_rounded; try lia; lra.
Qed.


Close Scope Q_scope.

(** On a two-axis image with extents from 1 to [B], cut with patches of
    2 to [B] voxels per axis, [get_patch_crop_coords] returns at least one
    crop, and every crop is in order on both axes, whatever way the float
    operations round within the stated accuracy. *)
Theorem crops_in_order_2d (s0 s1 p0 p1 : Z) (min_overlap : Q) :
  (1 <= s0 <= B)%Z -> (1 <= s1 <= B)%Z -> (2 <= p0 <= B)%Z -> (2 <= p1 <= B)%Z ->
  exists rows,
    PatchFloat.get_patch_crop_coords fl [s0; s1] [p0; p1] min_overlap = Ok rows /\
    rows <> [] /\
    Forall (fun row => exists y0 y1 x0 x1,
              row = [y0; y1; x0; x1] /\
              in_order s0 p0 y0 y1 /\ in_order s1 p1 x0 x1) rows.
Proof.
  intros Hs0 Hs1 Hp0 Hp1.
  destruct (axis_in_order_rounded min_overlap Hs0 Hp0) as (ys & Eys & Hys & Fys).
  destruct (axis_in_order_rounded min_overlap Hs1 Hp1) as (xs & Exs & Hxs & Fxs).
  unfold PatchFloat.get_patch_crop_coords.
  cbn [PatchFloat.all_axes item nth_error bind].
  rewrite Eys. cbn [bind]. rewrite Exs. cbn [bind item nth_error].
  set (row := fun (y x : Q * Q) => [fst y; snd y; fst x; snd x]).
  rewrite (@for_each_ok _ _ ys _ (fun y => map (row y) xs)).
  - cbn [bind]. eexists. split; [reflexivity |]. split.
    + intros E. apply map_eq_nil in E. revert E.
      apply flat_map_nonempty; [assumption |].
      intros y _ E. apply map_eq_nil in E. contradiction.
    + rewrite Forall_map. apply Forall_forall. intros r Hr.
      apply in_flat_map in Hr. destruct Hr as (y & Hy & Hr).
      apply in_map_iff in Hr. destruct Hr as (x & <- & Hx).
      rewrite Forall_forall in Fys, Fxs.
      exists (int_of_Q (fst y)), (int_of_Q (snd y)),
             (int_of_Q (fst x)), (int_of_Q (snd x)).
      split; [reflexivity |]. split; [now apply Fys | now apply Fxs].
  - intros [ymin ymax] _. cbn [bind].
    rewrite (@for_each_ok _ _ xs _ (fun x => [row (ymin, ymax) x])).
    + apply f_equal. apply flat_map_single.
    + intros [xmin xmax] _. reflexivity.
Qed.


End Rounded.

(** Exact arithmetic is a rounding of any accuracy, and with it the
    rounded grid is the grid of [PatchGrid]. *)
Lemma exact_rounds (B : Z) : PatchFloat.rounds_within (fun x => x) 0 B.
Proof.
  unfold PatchFloat.rounds_within. repeat split; intros; try assumption;
    try reflexivity; try lra.
Qed.

Lemma exact_all_axes (patch_size : list Z) (min_overlap : Q) (shape : list Z) :
  forall dim,
    PatchFloat.all_axes (fun x => x) shape patch_size dim min_overlap
    = PatchGrid.all_axes shape patch_size dim min_overlap.
Proof.
  induction shape as [| sh rest IH]; intros dim; [reflexivity |].
  cbn [PatchFloat.all_axes PatchGrid.all_axes]. now rewrite IH.
Qed.

Lemma exact_grid (shape patch_size : list Z) (min_overlap : Q) :
  PatchFloat.get_patch_crop_coords (fun x => x) shape patch_size min_overlap
  = PatchGrid.get_patch_crop_coords shape patch_size min_overlap.
Proof.
  unfold PatchFloat.get_patch_crop_coords, PatchGrid.get_patch_crop_coords.
  now rewrite exact_all_axes.
Qed.

Lemma crops_in_order_2d_witness :
  exists rows,
    PatchFloat.get_patch_crop_coords (fun x => x) [67; 1]%Z [9; 2]%Z 0 = Ok rows /\
    rows <> [] /\
    Forall (fun row => exists y0 y1 x0 x1,
              row = [y0; y1; x0; x1] /\
              in_order 67 9 y0 y1 /\ in_order 1 2 x0 x1) rows.
Proof.
  apply (@crops_in_order_2d (fun x => x) 0 100 (exact_rounds 100) 67 1 9 2 0); lia.
Defined.


End PatchFloatFacts.
